(** * Fabric: the YouTube extraction engine (plugins/tools/youtube/youtube.go)

    A shallow embedding of the identifier resolver, the duration parser,
    the transcript pipeline, the fail-fast aggregate [Grab] and the CSV
    export, with the properties of the specification stated over it. *)

From Stdlib Require Import List String Ascii ZArith Lia Bool Arith DecimalString.
From Stdlib Require Import Floats.PrimFloat Floats.SpecFloat Floats.FloatOps.
Import ListNotations.

Set Implicit Arguments.
Open Scope string_scope.
Open Scope list_scope.

(** ** Go strings

    A Go string is a sequence of bytes; it is modelled as [list ascii].
    String literals of the source are written as Rocq string literals and
    coerced. *)

Definition str := list ascii.

Coercion list_ascii_of_string : string >-> list.

Definition str_eqb (a b : str) : bool :=
  if list_eq_dec ascii_dec a b then true else false.

Fixpoint prefixb (p s : str) : bool :=
  match p, s with
  | [], _ => true
  | a :: p', b :: s' => Ascii.eqb a b && prefixb p' s'
  | _ :: _, [] => false
  end.

(** [strings.Contains s sub]. *)
Fixpoint Contains (s sub : str) : bool :=
  prefixb sub s || match s with [] => false | _ :: s' => Contains s' sub end.

(** ** Package regexp

    Go's [regexp] returns the leftmost match and, among the matches that
    start there, the one a backtracking engine would choose.  The engine
    below is that backtracking search, written as a list of successes in
    priority order.  Every pattern of youtube.go repeats single character
    classes only, which is the form [Star] has.  The patterns of the source
    mention ASCII characters only and their negated classes accept every
    byte of a multi-byte rune, so matching bytes is matching runes. *)

Module Regexp.

Definition cls := ascii -> bool.
Definition caps := list (nat * str).

Inductive re : Type :=
| Empty
| Char (p : cls)
| Cat (r1 r2 : re)
| Or (r1 r2 : re)
| Star (greedy : bool) (p : cls)
| Group (n : nat) (r : re).

Definition Quest (r : re) : re := Or r Empty.
Definition Plus (p : cls) : re := Cat (Char p) (Star true p).
Definition Lit (s : str) : re :=
  fold_right (fun c r => Cat (Char (Ascii.eqb c)) r) Empty s.
(** A letter under the flag [(?i)] matches in either case. *)
Definition eqb_fold (c d : ascii) : bool :=
  Ascii.eqb c d
  || (let n := nat_of_ascii c in let m := nat_of_ascii d in
      ((65 <=? n) && (n <=? 90) && (m =? n + 32))
      || ((97 <=? n) && (n <=? 122) && (m =? n - 32)))%nat.
(** Go folds case by Unicode simple folding: under [(?i)] an S also
    matches the long s, U+017F, and a K the Kelvin sign, U+212A (here by
    their UTF-8 bytes). *)
Definition longS : str := [ascii_of_nat 197; ascii_of_nat 191].
Definition kelvin : str := [ascii_of_nat 226; ascii_of_nat 132; ascii_of_nat 170].
Definition foldChar (c : ascii) : re :=
  if eqb_fold "S" c then Or (Char (eqb_fold c)) (Lit longS)
  else if eqb_fold "K" c then Or (Char (eqb_fold c)) (Lit kelvin)
  else Char (eqb_fold c).
(** A literal under the flag [(?i)]. *)
Definition LitFold (s : str) : re :=
  fold_right (fun c r => Cat (foldChar c) r) Empty s.

(** The remainders left by [p*], longest repetition first. *)
Fixpoint star_greedy (p : cls) (s : str) : list str :=
  match s with
  | c :: s' => if p c then star_greedy p s' ++ [s] else [s]
  | [] => [[]]
  end.

(** The remainders left by [p*?], shortest repetition first. *)
Fixpoint star_lazy (p : cls) (s : str) : list str :=
  s :: match s with
       | c :: s' => if p c then star_lazy p s' else []
       | [] => []
       end.

Definition consumed (s s' : str) : str := firstn (List.length s - List.length s') s.

Fixpoint run (r : re) (s : str) (c : caps) : list (str * caps) :=
  match r with
  | Empty => [(s, c)]
  | Char p =>
      match s with
      | a :: s' => if p a then [(s', c)] else []
      | [] => []
      end
  | Cat r1 r2 => flat_map (fun x => run r2 (fst x) (snd x)) (run r1 s c)
  | Or r1 r2 => run r1 s c ++ run r2 s c
  | Star g p => map (fun s' => (s', c)) ((if g then star_greedy else star_lazy) p s)
  | Group n r1 => map (fun x => (fst x, (n, consumed s (fst x)) :: snd x)) (run r1 s c)
  end.

(** The text of group [n]; a group that took no part in the match is the
    empty string, as in the slices [FindStringSubmatch] returns. *)
Fixpoint group (n : nat) (c : caps) : str :=
  match c with
  | [] => []
  | (m, t) :: c' => if Nat.eqb m n then t else group n c'
  end.

(** The leftmost match: the first start position at which [run] succeeds. *)
Fixpoint leftmost (r : re) (s : str) : option (str * caps) :=
  match run r s [] with
  | x :: _ => Some (consumed s (fst x), snd x)
  | [] => match s with
          | [] => None
          | _ :: s' => leftmost r s'
          end
  end.

(** [FindStringSubmatch] of a pattern with [n] groups; [nil] is [[]]. *)
Definition FindStringSubmatch (r : re) (n : nat) (s : str) : list str :=
  match leftmost r s with
  | None => []
  | Some (whole, c) => whole :: map (fun i => group i c) (seq 1 n)
  end.

Definition is_digit (a : ascii) : bool :=
  let n := nat_of_ascii a in ((48 <=? n) && (n <=? 57))%nat.
Definition is_alpha (a : ascii) : bool :=
  let n := nat_of_ascii a in
  (((65 <=? n) && (n <=? 90)) || ((97 <=? n) && (n <=? 122)))%nat.
(** [\s] is [[\t\n\f\r ]]. *)
Definition is_space (a : ascii) : bool :=
  let n := nat_of_ascii a in
  ((n =? 9) || (n =? 10) || (n =? 12) || (n =? 13) || (n =? 32))%nat.
Definition one_of (s : str) (a : ascii) : bool := existsb (Ascii.eqb a) s.

End Regexp.

Import Regexp.

(** ** The patterns of youtube.go *)

(** [[a-zA-Z0-9_-]] *)
Definition idChar (a : ascii) : bool :=
  is_alpha a || is_digit a || one_of "_-" a.
(** [\S] *)
Definition nonSpace (a : ascii) : bool := negb (is_space a).
(** [[^\/\n\s]] *)
Definition pathChar (a : ascii) : bool := negb (one_of "/" a || is_space a).

(** The video pattern: an optional [https?:\/\/], an optional [www\.],
    then either [youtube\.com\/] followed by one of the five alternatives
    [live\/], [[^\/\n\s]+\/\S+\/], [(?:v|e(?:mbed)?)\/], [(?:s(?:horts)\/)],
    [\S*?[?&]v=], or [youtu\.be\/]; then the one group, [[a-zA-Z0-9_-]]
    repeated zero or more times. *)
Definition altLive : re := Lit "live/".
Definition altPath : re := Cat (Plus pathChar) (Cat (Lit "/") (Cat (Plus nonSpace) (Lit "/"))).
Definition altV : re := Cat (Or (Lit "v") (Cat (Lit "e") (Quest (Lit "mbed")))) (Lit "/").
Definition altShorts : re := Cat (Lit "s") (Cat (Lit "horts") (Lit "/")).
Definition altQuery : re := Cat (Star false nonSpace) (Cat (Char (one_of "?&")) (Lit "v=")).

Definition videoPathAlts : re :=
  Or altLive (Or altPath (Or altV (Or altShorts altQuery))).

Definition videoHost : re :=
  Or (Cat (Lit "youtube.com/") videoPathAlts) (Lit "youtu.be/").

Definition videoTail : re := Cat videoHost (Group 1 (Star true idChar)).

Definition videoPattern : re :=
  Cat (Quest (Cat (Lit "http") (Cat (Quest (Lit "s")) (Lit "://"))))
  (Cat (Quest (Lit "www.")) videoTail).

(** The playlist pattern: [[?&]list=] and the one group, [[a-zA-Z0-9_-]+]. *)
Definition playlistPattern : re :=
  Cat (Char (one_of "?&")) (Cat (Lit "list=") (Group 1 (Plus idChar))).

(** The duration pattern [(?i)PT(?:(\d+)H)?(?:(\d+)M)?(?:(\d+)S)?]. *)
Definition unitRe (n : nat) (u : ascii) : re :=
  Cat (Group n (Plus is_digit)) (LitFold [u]).
Definition durationGroups : re :=
  Cat (Quest (unitRe 1 "H")) (Cat (Quest (unitRe 2 "M")) (Quest (unitRe 3 "S"))).
Definition durationPattern : re := Cat (LitFold "PT") durationGroups.

(** The caption manifest pattern: the quoted word captionTracks, a colon,
    and the one group: an opening bracket, any characters but newlines,
    as few as possible, and a closing bracket. *)
Definition notNewline (a : ascii) : bool := negb (Nat.eqb (nat_of_ascii a) 10).
Definition dquote : ascii := ascii_of_nat 34.
Definition captionTracksPattern : re :=
  Cat (Lit (dquote :: "captionTracks" ++ dquote :: ":"))
      (Group 1 (Cat (Lit "[") (Cat (Star false notNewline) (Lit "]")))).

(** [[^a-zA-Z0-9]+], compiled by [initService]. *)
Definition normalizePattern : re :=
  Plus (fun a => negb (is_alpha a || is_digit a)).

(** ** Integers

    Go's [int] is 64 bits wide here; arithmetic wraps around. *)

Definition maxInt64 : Z := 2 ^ 63 - 1.
Definition minInt64 : Z := - 2 ^ 63.
Definition wrap64 (z : Z) : Z := (z + 2 ^ 63) mod 2 ^ 64 - 2 ^ 63.

Definition error := str.

Definition digit_val (a : ascii) : Z := Z.of_nat (nat_of_ascii a) - 48.

(** [strconv.Atoi]: an optional sign and decimal digits.  On a syntax
    error the value is 0; out of range it is the nearest bound. *)
Definition Atoi (s : str) : Z * option error :=
  let '(neg, ds) :=
    match s with
    | a :: t => if Ascii.eqb a "+" then (false, t)
                else if Ascii.eqb a "-" then (true, t) else (false, s)
    | [] => (false, s)
    end in
  match ds with
  | [] => (0, Some ("strconv.Atoi: invalid syntax" : str))
  | _ :: _ =>
      if forallb is_digit ds then
        let v := fold_left (fun acc d => acc * 10 + digit_val d) ds 0 in
        let v := if neg : bool then - v else v in
        if v >? maxInt64 then (maxInt64, Some ("strconv.Atoi: value out of range" : str))
        else if v <? minInt64 then (minInt64, Some ("strconv.Atoi: value out of range" : str))
        else (v, None)
      else (0, Some ("strconv.Atoi: invalid syntax" : str))
  end%Z.

(** The verb [%d]. *)
Definition itoa (z : Z) : str :=
  list_ascii_of_string (DecimalString.NilZero.string_of_int (Z.to_int z)).

(** The verb [%02d]: the sign counts towards the width. *)
Definition fmt_02d (z : Z) : str :=
  if (0 <=? z)%Z && (z <? 10)%Z then "0"%char :: itoa z else itoa z.

(** ** The platform API's records (google.golang.org/api/youtube/v3)

    Only the fields youtube.go reads.  The parts of a video are pointers
    in the API's types and are absent when [nil]. *)

Module api.

Record VideoSnippet := {
  Title : str; Description : str; PublishedAt : str; ChannelId : str;
  ChannelTitle : str; CategoryId : str; Tags : list str }.
Record VideoStatistics := { ViewCount : Z; LikeCount : Z }.
Record VideoContentDetails := { Duration : str }.
Record Video := {
  Id : str;
  Snippet : option VideoSnippet;
  ContentDetails : option VideoContentDetails;
  Statistics : option VideoStatistics }.
Record VideoListResponse := { Items : list Video }.

(** The comment records.  The snippet of a comment, the snippet of a
    thread, its top-level comment and its replies are pointers, and so
    is every comment of a reply list. *)
Record CommentSnippet := { TextDisplay : str }.
Module Comment.
Record t := { Snippet : option CommentSnippet }.
End Comment.
Module CommentThreadSnippet.
Record t := { TopLevelComment : option Comment.t }.
End CommentThreadSnippet.
Module CommentThreadReplies.
Record t := { Comments : list (option Comment.t) }.
End CommentThreadReplies.
Module CommentThread.
Record t := {
  Snippet : option CommentThreadSnippet.t;
  Replies : option CommentThreadReplies.t }.
End CommentThread.
Record CommentThreadListResponse := { Threads : list CommentThread.t }.

Record HttpResponse := { StatusCode : Z; Body : str + error }.

End api.

(** ** The records of youtube.go *)

Module Options.
Record t := {
  Duration : bool;
  Transcript : bool;
  TranscriptWithTimestamps : bool;
  Comments : bool;
  Lang : str;
  Metadata : bool }.
End Options.

Record VideoMetadata := {
  Id : str; Title : str; Description : str; PublishedAt : str;
  ChannelId : str; ChannelTitle : str; CategoryId : str;
  Tags : list str; ViewCount : Z; LikeCount : Z }.

Module VideoInfo.
Record t := {
  Transcript : str;
  Duration : Z;
  Comments : list str;
  Metadata : option VideoMetadata }.
(** [&VideoInfo{}] *)
Definition zero : t :=
  {| Transcript := []; Duration := 0; Comments := []; Metadata := None |}.
End VideoInfo.

Module VideoMeta.
Record t := { Id : str; Title : str; TitleNormalized : str }.
End VideoMeta.

Record CaptionTrack := { BaseURL : str }.

(** A node of a parsed document: what [Text()] and [Attrs()] give. *)
Record Node := { Text : str; Attrs : list (str * str) }.

(** Indexing a [map[string]string]: the zero value when the key is absent. *)
Fixpoint lookup (k : str) (m : list (str * str)) : str :=
  match m with
  | [] => []
  | (k', v) :: m' => if str_eqb k k' then v else lookup k m'
  end.

(** ** The outside world

    Every request that leaves the process is recorded; the answer to a
    request may depend on how many requests came before it, so that the
    same request can succeed once and fail later.  [csvWrite n record]
    is the error, if any, of the [n]-th [Write] to a file's writer;
    [EvClose] records the bytes a file holds when it is closed. *)

Inductive Event : Type :=
| EvNewService
| EvVideosList (part : list str) (id : str)
| EvCommentThreadsList (videoId : str)
| EvHttpGet (url : str)
| EvCreate (filename : str)
| EvClose (filename : str) (content : str).

Record World := {
  NewService : nat -> option error;
  VideosList : nat -> list str -> str -> api.VideoListResponse + error;
  CommentThreadsList : nat -> str -> api.CommentThreadListResponse + error;
  httpDo : nat -> str -> api.HttpResponse + error;
  osCreate : nat -> str -> option error;
  csvWrite : nat -> list str -> option error }.

(** The pure library functions the engine calls: soup's [HTMLParse]
    followed by [FindAll tag], [json.Unmarshal] into the caption tracks,
    [http.NewRequest]'s check of the URL, [url.Parse] (giving [RawQuery]),
    [url.ParseQuery] (its error is dropped by the caller),
    [strconv.ParseFloat s 64] (the value it returns, also on error), the
    verb [%f], and [unicode.IsSpace] of the first rune of a string. *)
Record Lib := {
  soupFindAll : str -> str -> list Node;
  jsonUnmarshalTracks : str -> list CaptionTrack + error;
  httpNewRequest : str -> option error;
  urlParse : str -> str + error;
  urlParseQuery : str -> list (str * list str);
  ParseFloat64 : str -> float;
  fmt_f : float -> str;
  firstRuneIsSpace : str -> bool }.

(** The receiver [o *YouTube]: whether [service] and [normalizeRegex] are
    set, with the requests made so far. *)
Record YouTube := {
  service : bool;
  normalizeRegex : option re;
  calls : list Event }.

Definition NewYouTube : YouTube :=
  {| service := false; normalizeRegex := None; calls := [] |}.

(** A computation returns or panics. *)
Inductive outcome (A : Type) : Type :=
| Done (a : A) (o : YouTube)
| Panic (msg : str) (o : YouTube).
Arguments Panic {A} msg o.

Definition M (A : Type) : Type := YouTube -> outcome A.
Definition ret {A} (a : A) : M A := fun o => Done a o.
Definition bind {A B} (m : M A) (k : A -> M B) : M B :=
  fun o => match m o with
           | Done a o' => k a o'
           | Panic msg o' => Panic msg o'
           end.
Definition panic {A} (msg : str) : M A := fun o => Panic msg o.

Notation "x <- m ;; k" := (bind m (fun x => k))
  (at level 61, m at next level, right associativity).
Notation "' p <- m ;; k" := (bind m (fun x => let 'p := x in k))
  (at level 61, p pattern, m at next level, right associativity).

(** One request to the outside: record it and ask the world, telling it
    how many requests came before. *)
Definition request {A} (ev : Event) (ask : nat -> A) : M A :=
  fun o => Done (ask (List.length (calls o)))
                {| service := service o; normalizeRegex := normalizeRegex o;
                   calls := calls o ++ [ev] |}.

Definition getService : M bool := fun o => Done (service o) o.
Definition setService (b : bool) (r : option re) : M unit :=
  fun o => Done tt {| service := b; normalizeRegex := r; calls := calls o |}.

Definition isEmpty (s : str) : bool :=
  match s with [] => true | _ :: _ => false end.

Definition nilDeref : str := "invalid memory address or nil pointer dereference".
Definition indexOutOfRange : str := "index out of range [0] with length 0".

Definition errInvalidURL (url : str) : error :=
  "invalid YouTube URL, can't get video or playlist ID: '" ++ url ++ "'".
Definition errPlaylistNotVideo : error := "URL is a playlist, not a video".
Definition errInvalidDuration (durationStr : str) : error :=
  "invalid duration string: " ++ durationStr.
Definition errNotFound (videoId : str) : error :=
  "no video found with ID: " ++ videoId.
Definition errNoSuitableURL : error :=
  "no suitable transcript URL found after parsing captionTracks".
Definition errTranscriptNotFound : error :=
  "transcript not found in watch page HTML".
Definition errTranscriptUnavailable (e : error) : error :=
  "transcript not available. (" ++ e ++ ")".

(** The part of [GrabDuration] after the response is read: match the
    duration string, convert the three groups (conversion errors are
    dropped) and add up. *)
Definition parseDuration (durationStr : str) : Z * option error :=
  let matches := FindStringSubmatch durationPattern 3 durationStr in
  if Nat.eqb (List.length matches) 0 then (0%Z, Some (errInvalidDuration durationStr))
  else
    let hours := fst (Atoi (nth 1 matches [])) in
    let minutes := fst (Atoi (nth 2 matches [])) in
    let seconds := fst (Atoi (nth 3 matches [])) in
    (wrap64 (wrap64 (wrap64 (hours * 60) + minutes) + Z.quot seconds 60), None).

(** The conversion [int(seconds)]: the fraction is discarded.  A value
    that does not fit (or a NaN) converts to the least integer, as on
    amd64. *)
Definition int_of_float (f : float) : Z :=
  match Prim2SF f with
  | S754_zero _ => 0%Z
  | S754_finite s m e =>
      let a := (if (0 <=? e)%Z then Z.pos m * 2 ^ e else Z.pos m / 2 ^ (- e))%Z in
      let v := if s then (- a)%Z else a in
      if ((minInt64 <=? v) && (v <=? maxInt64))%Z then v else minInt64
  | _ => minInt64
  end.

Definition formatTimestamp (seconds : float) : str :=
  let hours := Z.quot (int_of_float seconds) 3600 in
  let minutes := Z.quot (Z.rem (int_of_float seconds) 3600) 60 in
  let secs := Z.rem (int_of_float seconds) 60 in
  fmt_02d hours ++ ":" ++ fmt_02d minutes ++ ":" ++ fmt_02d secs.

(** [strings.ReplaceAll s old new] for a non-empty [old]: the
    non-overlapping occurrences of [old], leftmost first.  [n] bounds the
    number of steps; the length of [s] is enough. *)
Fixpoint replaceAll (n : nat) (s old new : str) : str :=
  match n with
  | O => s
  | S n' =>
      match s with
      | [] => []
      | c :: s' =>
          if prefixb old s then new ++ replaceAll n' (skipn (List.length old) s) old new
          else c :: replaceAll n' s' old new
      end
  end.
Definition ReplaceAll (s old new : str) : str := replaceAll (List.length s) s old new.

Definition unescapeApostrophe (s : str) : str := ReplaceAll s "&#39;" "'".

(** The loop of [GrabTranscript] over the text tags. *)
Fixpoint writeTexts (textTags : list Node) : str :=
  match textTags with
  | [] => []
  | textTag :: rest => unescapeApostrophe (Text textTag) ++ " " ++ writeTexts rest
  end.

(** The first value of the query parameter [lang], when the URL parses
    and has one. *)
Definition langParam (L : Lib) (baseURL : str) : option str :=
  match urlParse L baseURL with
  | inr _ => None
  | inl rawQuery =>
      match List.find (fun kv => str_eqb (fst kv) "lang") (urlParseQuery L rawQuery) with
      | Some (_, v :: _) => Some v
      | _ => None
      end
  end.

(** ** The engine *)

Section Engine.

Variable W : World.
Variable L : Lib.

Definition initService : M (option error) :=
  s <- getService ;;
  if s then ret None
  else
    err <- request EvNewService (NewService W) ;;
    _ <- setService (match err with None => true | Some _ => false end)
                    (Some normalizePattern) ;;
    ret err.

Definition GetVideoOrPlaylistId (url : str) : M (str * str * option error) :=
  err <- initService ;;
  match err with
  | Some e => ret ([], [], Some e)
  | None =>
      let videoMatch := FindStringSubmatch videoPattern 1 url in
      let videoId := if (1 <? List.length videoMatch)%nat then nth 1 videoMatch [] else [] in
      let playlistMatch := FindStringSubmatch playlistPattern 1 url in
      let playlistId := if (1 <? List.length playlistMatch)%nat then nth 1 playlistMatch [] else [] in
      if isEmpty videoId && isEmpty playlistId
      then ret (videoId, playlistId, Some (errInvalidURL url))
      else ret (videoId, playlistId, None)
  end.

Definition GrabMetadata (videoId : str) : M (option VideoMetadata * option error) :=
  err <- initService ;;
  match err with
  | Some e => ret (None, Some e)
  | None =>
      response <- request (EvVideosList ["snippet" : str; "statistics" : str] videoId)
                          (fun n => VideosList W n ["snippet" : str; "statistics" : str] videoId) ;;
      match response with
      | inr e => ret (None, Some ("error getting video metadata: " ++ e))
      | inl response =>
          match api.Items response with
          | [] => ret (None, Some (errNotFound videoId))
          | video :: _ =>
              match api.Statistics video, api.Snippet video with
              | Some statistics, Some snippet =>
                  ret (Some {| Id := api.Id video;
                               Title := api.Title snippet;
                               Description := api.Description snippet;
                               PublishedAt := api.PublishedAt snippet;
                               ChannelId := api.ChannelId snippet;
                               ChannelTitle := api.ChannelTitle snippet;
                               CategoryId := api.CategoryId snippet;
                               Tags := api.Tags snippet;
                               ViewCount := api.ViewCount statistics;
                               LikeCount := api.LikeCount statistics |}, None)
              | _, _ => panic nilDeref
              end
          end
      end
  end.

Definition GrabDuration (videoId : str) : M (Z * option error) :=
  s <- getService ;;
  if negb s then panic nilDeref
  else
    videoResponse <- request (EvVideosList ["contentDetails" : str] videoId)
                             (fun n => VideosList W n ["contentDetails" : str] videoId) ;;
    match videoResponse with
    | inr e => ret (0%Z, Some ("error getting video details: " ++ e))
    | inl videoResponse =>
        match api.Items videoResponse with
        | [] => panic indexOutOfRange
        | item :: _ =>
            match api.ContentDetails item with
            | None => panic nilDeref
            | Some contentDetails => ret (parseDuration (api.Duration contentDetails))
            end
        end
    end.

(** [comment.Snippet.TextDisplay]; [None] when a pointer on the way is
    nil. *)
Definition textDisplay (comment : option api.Comment.t) : option str :=
  match comment with
  | None => None
  | Some comment =>
      match api.Comment.Snippet comment with
      | None => None
      | Some snippet => Some (api.TextDisplay snippet)
      end
  end.

(** The loop of [GrabComments] over the replies of a thread; [None] when
    it dereferences a nil pointer. *)
Fixpoint appendReplies (comments : list (option api.Comment.t)) (ret : list str)
  : option (list str) :=
  match comments with
  | [] => Some ret
  | reply :: rest =>
      match textDisplay reply with
      | None => None
      | Some replyText => appendReplies rest (ret ++ ["    - " ++ replyText])
      end
  end.

(** The loop of [GrabComments] over the threads. *)
Fixpoint appendThreads (items : list api.CommentThread.t) (ret : list str)
  : option (list str) :=
  match items with
  | [] => Some ret
  | item :: rest =>
      match api.CommentThread.Snippet item with
      | None => None
      | Some snippet =>
          match textDisplay (api.CommentThreadSnippet.TopLevelComment snippet) with
          | None => None
          | Some topLevelComment =>
              let ret := ret ++ [topLevelComment] in
              match api.CommentThread.Replies item with
              | None => appendThreads rest ret
              | Some replies =>
                  match appendReplies (api.CommentThreadReplies.Comments replies) ret with
                  | None => None
                  | Some ret => appendThreads rest ret
                  end
              end
          end
      end
  end.

Definition GrabComments (videoId : str) : M (list str * option error) :=
  err <- initService ;;
  match err with
  | Some e => ret ([], Some e)
  | None =>
      response <- request (EvCommentThreadsList videoId)
                          (fun n => CommentThreadsList W n videoId) ;;
      match response with
      | inr e => ret ([], Some e)
      | inl response =>
          match appendThreads (api.Threads response) [] with
          | None => panic nilDeref
          | Some ret_ => ret (ret_, None)
          end
      end
  end.

(** The loop over the caption tracks: the first track whose URL parses
    and whose [lang] parameter is the requested language. *)
Fixpoint findLangMatch (language : str) (captionTracks : list CaptionTrack) : option str :=
  match captionTracks with
  | [] => None
  | captionTrack :: rest =>
      match langParam L (BaseURL captionTrack) with
      | Some v => if str_eqb v language then Some (BaseURL captionTrack)
                  else findLangMatch language rest
      | None => findLangMatch language rest
      end
  end.

(** The selection of [GrabTranscriptBase] for a non-empty track list:
    the language match, else the first track; an empty URL is refused. *)
Definition selectTrack (language : str) (captionTracks : list CaptionTrack) : str + error :=
  let finalTranscriptURL :=
    match findLangMatch language captionTracks with
    | Some u => u
    | None => match captionTracks with
              | first :: _ => BaseURL first
              | [] => []
              end
    end in
  if isEmpty finalTranscriptURL then inr errNoSuitableURL else inl finalTranscriptURL.

Definition fetchTranscript (finalTranscriptURL : str) : M (str * option error) :=
  match httpNewRequest L finalTranscriptURL with
  | Some reqErr =>
      ret ([], Some ("error creating transcript request for " ++ finalTranscriptURL ++ ": " ++ reqErr))
  | None =>
      resp <- request (EvHttpGet finalTranscriptURL) (fun n => httpDo W n finalTranscriptURL) ;;
      match resp with
      | inr doErr =>
          ret ([], Some ("error fetching transcript from " ++ finalTranscriptURL ++ ": " ++ doErr))
      | inl transcriptHttpResp =>
          if negb (Z.eqb (api.StatusCode transcriptHttpResp) 200) then
            ret ([], Some ("error fetching transcript from " ++ finalTranscriptURL
                           ++ ": status code " ++ itoa (api.StatusCode transcriptHttpResp)))
          else
            match api.Body transcriptHttpResp with
            | inr readErr =>
                ret ([], Some ("error reading transcript body from " ++ finalTranscriptURL
                               ++ ": " ++ readErr))
            | inl transcriptBody => ret (transcriptBody, None)
            end
      end
  end.

(** The loop of [GrabTranscriptBase] over the script tags. *)
Fixpoint scanScripts (language : str) (scriptTags : list Node) : M (str * option error) :=
  match scriptTags with
  | [] => ret ([], Some errTranscriptNotFound)
  | scriptTag :: rest =>
      if Contains (Text scriptTag) "captionTracks" then
        let m := FindStringSubmatch captionTracksPattern 1 (Text scriptTag) in
        if (1 <? List.length m)%nat then
          match jsonUnmarshalTracks L (nth 1 m []) with
          | inr e => ret ([], Some ("error unmarshalling captionTracks: " ++ e))
          | inl captionTracks =>
              match captionTracks with
              | [] => scanScripts language rest
              | _ :: _ =>
                  match selectTrack language captionTracks with
                  | inr e => ret ([], Some e)
                  | inl finalTranscriptURL => fetchTranscript finalTranscriptURL
                  end
              end
          end
        else scanScripts language rest
      else scanScripts language rest
  end.

Definition GrabTranscriptBase (videoId language : str) : M (str * option error) :=
  err <- initService ;;
  match err with
  | Some e => ret ([], Some ("error initializing YouTube service: " ++ e))
  | None =>
      let watchUrl : str := "https://www.youtube.com/watch?v=" ++ videoId in
      match httpNewRequest L watchUrl with
      | Some e => ret ([], Some ("error creating request: " ++ e))
      | None =>
          httpResp <- request (EvHttpGet watchUrl) (fun n => httpDo W n watchUrl) ;;
          match httpResp with
          | inr e => ret ([], Some ("error fetching YouTube page: " ++ e))
          | inl httpResp =>
              if negb (Z.eqb (api.StatusCode httpResp) 200) then
                ret ([], Some ("error fetching YouTube page: status code "
                               ++ itoa (api.StatusCode httpResp)))
              else
                match api.Body httpResp with
                | inr e => ret ([], Some ("error reading response body: " ++ e))
                | inl pageContent =>
                    scanScripts language (soupFindAll L pageContent "script")
                end
          end
      end
  end.

Definition GrabTranscript (videoId language : str) : M (str * option error) :=
  '(transcript, err) <- GrabTranscriptBase videoId language ;;
  match err with
  | Some e => ret ([], Some (errTranscriptUnavailable e))
  | None => ret (writeTexts (soupFindAll L transcript "text"), None)
  end.

Definition parseFloat (s : str) : float := ParseFloat64 L s.

(** The loop of [GrabTranscriptWithTimestamps] over the text tags. *)
Fixpoint writeTimestamped (textTags : list Node) : str :=
  match textTags with
  | [] => []
  | textTag :: rest =>
      let start := lookup "start" (Attrs textTag) in
      let dur := lookup "dur" (Attrs textTag) in
      let end_ := fmt_f L (parseFloat start + parseFloat dur)%float in
      let startFormatted := formatTimestamp (parseFloat start) in
      let endFormatted := formatTimestamp (parseFloat end_) in
      let text := unescapeApostrophe (Text textTag) in
      ("[" ++ startFormatted ++ " - " ++ endFormatted ++ "] " ++ text ++ [ascii_of_nat 10])
        ++ writeTimestamped rest
  end.

Definition GrabTranscriptWithTimestamps (videoId language : str) : M (str * option error) :=
  '(transcript, err) <- GrabTranscriptBase videoId language ;;
  match err with
  | Some e => ret ([], Some (errTranscriptUnavailable e))
  | None => ret (writeTimestamped (soupFindAll L transcript "text"), None)
  end.

(** One requested field of [Grab]: the call assigns the value it
    returned to its slot, also when it failed; on an error [Grab] returns
    at once with the error (wrapped where the source wraps it). *)
Definition grabField {A : Type} (requested : bool) (call : M (A * option error))
    (store : VideoInfo.t -> A -> VideoInfo.t) (wrap : error -> error)
    (r : VideoInfo.t)
    (next : VideoInfo.t -> M (option VideoInfo.t * option error))
  : M (option VideoInfo.t * option error) :=
  if requested then
    '(v, err) <- call ;;
    match err with
    | Some e => ret (Some (store r v), Some (wrap e))
    | None => next (store r v)
    end
  else next r.

Definition setMetadata (r : VideoInfo.t) (v : option VideoMetadata) : VideoInfo.t :=
  {| VideoInfo.Transcript := VideoInfo.Transcript r; VideoInfo.Duration := VideoInfo.Duration r;
     VideoInfo.Comments := VideoInfo.Comments r; VideoInfo.Metadata := v |}.
Definition setDuration (r : VideoInfo.t) (v : Z) : VideoInfo.t :=
  {| VideoInfo.Transcript := VideoInfo.Transcript r; VideoInfo.Duration := v;
     VideoInfo.Comments := VideoInfo.Comments r; VideoInfo.Metadata := VideoInfo.Metadata r |}.
Definition setComments (r : VideoInfo.t) (v : list str) : VideoInfo.t :=
  {| VideoInfo.Transcript := VideoInfo.Transcript r; VideoInfo.Duration := VideoInfo.Duration r;
     VideoInfo.Comments := v; VideoInfo.Metadata := VideoInfo.Metadata r |}.
Definition setTranscript (r : VideoInfo.t) (v : str) : VideoInfo.t :=
  {| VideoInfo.Transcript := v; VideoInfo.Duration := VideoInfo.Duration r;
     VideoInfo.Comments := VideoInfo.Comments r; VideoInfo.Metadata := VideoInfo.Metadata r |}.

Definition Grab (url : str) (options : Options.t) : M (option VideoInfo.t * option error) :=
  '(videoId, playlistId, err) <- GetVideoOrPlaylistId url ;;
  match err with
  | Some e => ret (None, Some e)
  | None =>
      if isEmpty videoId && negb (isEmpty playlistId) then ret (None, Some errPlaylistNotVideo)
      else
        grabField (Options.Metadata options) (GrabMetadata videoId) setMetadata
          (fun e => "error getting video metadata: " ++ e) VideoInfo.zero (fun r =>
        grabField (Options.Duration options) (GrabDuration videoId) setDuration
          (fun e => "error parsing video duration: " ++ e) r (fun r =>
        grabField (Options.Comments options) (GrabComments videoId) setComments
          (fun e => "error getting comments: " ++ e) r (fun r =>
        grabField (Options.Transcript options) (GrabTranscript videoId "en") setTranscript
          (fun e => e) r (fun r =>
        grabField (Options.TranscriptWithTimestamps options)
          (GrabTranscriptWithTimestamps videoId "en") setTranscript
          (fun e => e) r (fun r =>
        ret (Some r, None))))))
  end.

End Engine.

(** ** Package encoding/csv

    The writer and the reader with their default settings: the comma as
    delimiter, no CRLF line ends, no lazy quotes, no comment character,
    no trimming, and the field count of the first record imposed on the
    others. *)

Module csv.

Definition LF : ascii := ascii_of_nat 10.
Definition CR : ascii := ascii_of_nat 13.
Definition comma : ascii := ","%char.

Definition special (c : ascii) : bool :=
  Ascii.eqb c LF || Ascii.eqb c CR || Ascii.eqb c dquote || Ascii.eqb c comma.

Section Writer.

(** [unicode.IsSpace] of the first rune of a non-empty field. *)
Variable firstRuneIsSpace : str -> bool.

Definition fieldNeedsQuotes (field : str) : bool :=
  if isEmpty field then false
  else if str_eqb field "\." then true
  else if existsb special field then true
  else firstRuneIsSpace field.

(** Inside the quotes a quote is doubled; CR and LF are copied. *)
Fixpoint escape (field : str) : str :=
  match field with
  | [] => []
  | c :: rest => if Ascii.eqb c dquote then dquote :: dquote :: escape rest
                 else c :: escape rest
  end.

Definition encodeField (field : str) : str :=
  if fieldNeedsQuotes field then dquote :: escape field ++ [dquote] else field.

Fixpoint encodeFields (record : list str) : str :=
  match record with
  | [] => []
  | [field] => encodeField field
  | field :: rest => encodeField field ++ comma :: encodeFields rest
  end.

(** What [Writer.Write record] appends to the output. *)
Definition encodeRecord (record : list str) : str := encodeFields record ++ [LF].

End Writer.

(** The reader's [readLine] turns a CR LF at the end of every line into
    LF and drops a CR that ends the input. *)
Fixpoint normalize (s : str) : str :=
  match s with
  | [] => []
  | c :: rest =>
      match rest with
      | [] => if Ascii.eqb c CR then [] else [c]
      | d :: _ => if Ascii.eqb c CR && Ascii.eqb d LF then normalize rest
                  else c :: normalize rest
      end
  end.

Inductive mode : Type :=
| RecordStart      (* at the start of a line, outside any record *)
| FieldStart       (* after a comma *)
| Unquoted
| Quoted
| QuoteSeen.       (* after a quote inside a quoted field *)

Inductive ParseError : Type := ErrBareQuote | ErrQuote | ErrFieldCount.

(** The records read so far (latest first) and the field count the first
    record fixed. *)
Definition endRecord (fields : list str) (records : list (list str))
  : list (list str) + ParseError :=
  match rev records with
  | [] => inl (fields :: records)
  | first :: _ => if Nat.eqb (List.length first) (List.length fields)
                  then inl (fields :: records) else inr ErrFieldCount
  end.

(** [readRecord], one character at a time over the normalized input.
    [field] and [fields] are the current field and record, reversed. *)
Fixpoint parse (m : mode) (field : str) (fields : list str)
    (records : list (list str)) (input : str) : list (list str) + ParseError :=
  match input with
  | [] =>
      match m with
      | RecordStart => inl (rev records)
      | FieldStart | Unquoted | QuoteSeen =>
          match endRecord (rev (rev field :: fields)) records with
          | inl records' => inl (rev records')
          | inr e => inr e
          end
      | Quoted => inr ErrQuote
      end
  | c :: rest =>
      match m with
      | RecordStart =>
          if Ascii.eqb c LF then parse RecordStart [] [] records rest
          else if Ascii.eqb c dquote then parse Quoted [] [] records rest
          else if Ascii.eqb c comma then parse FieldStart [] [[]] records rest
          else parse Unquoted [c] [] records rest
      | FieldStart =>
          if Ascii.eqb c LF then
            match endRecord (rev ([] :: fields)) records with
            | inl records' => parse RecordStart [] [] records' rest
            | inr e => inr e
            end
          else if Ascii.eqb c dquote then parse Quoted [] fields records rest
          else if Ascii.eqb c comma then parse FieldStart [] ([] :: fields) records rest
          else parse Unquoted [c] fields records rest
      | Unquoted =>
          if Ascii.eqb c LF then
            match endRecord (rev (rev field :: fields)) records with
            | inl records' => parse RecordStart [] [] records' rest
            | inr e => inr e
            end
          else if Ascii.eqb c comma then parse FieldStart [] (rev field :: fields) records rest
          else if Ascii.eqb c dquote then inr ErrBareQuote
          else parse Unquoted (c :: field) fields records rest
      | Quoted =>
          if Ascii.eqb c dquote then parse QuoteSeen field fields records rest
          else parse Quoted (c :: field) fields records rest
      | QuoteSeen =>
          if Ascii.eqb c dquote then parse Quoted (c :: field) fields records rest
          else if Ascii.eqb c comma then parse FieldStart [] (rev field :: fields) records rest
          else if Ascii.eqb c LF then
            match endRecord (rev (rev field :: fields)) records with
            | inl records' => parse RecordStart [] [] records' rest
            | inr e => inr e
            end
          else inr ErrQuote
      end
  end.

(** [Reader.ReadAll] over the content of a file. *)
Definition ReadAll (content : str) : list (list str) + ParseError :=
  parse RecordStart [] [] [] (normalize content).

End csv.

(** ** The CSV export *)

Section CsvExport.

Variable W : World.
Variable L : Lib.

(** The loop of [SaveVideosToCSV]: [n] writes were made before; [out] is
    what the writer holds. *)
Fixpoint writeVideos (n : nat) (out : str) (videos : list VideoMeta.t) : str * option error :=
  match videos with
  | [] => (out, None)
  | record :: rest =>
      let row := [VideoMeta.Id record; VideoMeta.Title record] in
      match csvWrite W n row with
      | Some e => (out, Some e)
      | None => writeVideos (S n) (out ++ csv.encodeRecord (firstRuneIsSpace L) row) rest
      end
  end.

Definition csvHeader : list str := ["VideoID" : str; "Title" : str].

(** The deferred [Flush] and [Close] run on every path after the file
    was created. *)
Definition SaveVideosToCSV (filename : str) (videos : list VideoMeta.t) : M (option error) :=
  created <- request (EvCreate filename) (fun n => osCreate W n filename) ;;
  match created with
  | Some e => ret (Some e)
  | None =>
      let '(out, err) :=
        match csvWrite W 0 csvHeader with
        | Some e => ([], Some e)
        | None => writeVideos 1 (csv.encodeRecord (firstRuneIsSpace L) csvHeader) videos
        end in
      _ <- request (EvClose filename out) (fun _ => tt) ;;
      ret err
  end.

End CsvExport.

(** ** The specification's words, for comparison with the code *)

(** The fields of the aggregate in the order the specification fixes. *)
Inductive Field : Type :=
| FMetadata | FDuration | FComments | FTranscript | FTranscriptWithTimestamps.

Definition fieldOrder : list Field :=
  [FMetadata; FDuration; FComments; FTranscript; FTranscriptWithTimestamps].

Definition requested (options : Options.t) (f : Field) : bool :=
  match f with
  | FMetadata => Options.Metadata options
  | FDuration => Options.Duration options
  | FComments => Options.Comments options
  | FTranscript => Options.Transcript options
  | FTranscriptWithTimestamps => Options.TranscriptWithTimestamps options
  end.

Section Aggregate.

Variable W : World.
Variable L : Lib.

(** Fetching one field: the per-field operation of the engine, the
    update that stores its value in the result, and its error as the
    aggregate reports it. *)
Definition fetchField (videoId : str) (f : Field)
  : M ((VideoInfo.t -> VideoInfo.t) * option error) :=
  match f with
  | FMetadata =>
      '(v, err) <- GrabMetadata W videoId ;;
      ret (fun r => setMetadata r v, option_map (fun e => "error getting video metadata: " ++ e) err)
  | FDuration =>
      '(v, err) <- GrabDuration W videoId ;;
      ret (fun r => setDuration r v, option_map (fun e => "error parsing video duration: " ++ e) err)
  | FComments =>
      '(v, err) <- GrabComments W videoId ;;
      ret (fun r => setComments r v, option_map (fun e => "error getting comments: " ++ e) err)
  | FTranscript =>
      '(v, err) <- GrabTranscript W L videoId "en" ;;
      ret (fun r => setTranscript r v, err)
  | FTranscriptWithTimestamps =>
      '(v, err) <- GrabTranscriptWithTimestamps W L videoId "en" ;;
      ret (fun r => setTranscript r v, err)
  end.

(** The policy as the specification words it: the requested fields in
    the fixed order; on the first failure, what was populated so far and
    that error, nothing later attempted.  [onFailure f r] is the result
    returned when field [f] fails with [r] populated. *)
Fixpoint failFast (onFailure : Field -> VideoInfo.t -> VideoInfo.t)
    (videoId : str) (options : Options.t) (fields : list Field) (r : VideoInfo.t)
  : M (VideoInfo.t * option error) :=
  match fields with
  | [] => ret (r, None)
  | f :: rest =>
      if requested options f then
        '(store, err) <- fetchField videoId f ;;
        match err with
        | Some e => ret (onFailure f r, Some e)
        | None => failFast onFailure videoId options rest (store r)
        end
      else failFast onFailure videoId options rest r
  end.

Definition aggregate (onFailure : Field -> VideoInfo.t -> VideoInfo.t)
    (url : str) (options : Options.t) : M (option VideoInfo.t * option error) :=
  '(videoId, playlistId, err) <- GetVideoOrPlaylistId W url ;;
  match err with
  | Some e => ret (None, Some e)
  | None =>
      if isEmpty videoId && negb (isEmpty playlistId) then ret (None, Some errPlaylistNotVideo)
      else
        '(r, err) <- failFast onFailure videoId options fieldOrder VideoInfo.zero ;;
        ret (Some r, err)
  end.

(** As specified: every field populated so far is returned as it is. *)
Definition GrabAsSpecified : str -> Options.t -> M (option VideoInfo.t * option error) :=
  aggregate (fun _ r => r).

(** As the code has it: the two transcript fields share one slot of the
    result, and a failed timestamped fetch leaves that slot empty. *)
Definition sharedSlot (f : Field) (r : VideoInfo.t) : VideoInfo.t :=
  match f with
  | FTranscriptWithTimestamps => setTranscript r []
  | _ => r
  end.
Definition GrabSharedSlot : str -> Options.t -> M (option VideoInfo.t * option error) :=
  aggregate sharedSlot.

End Aggregate.

(** The texts joined with single spaces between them. *)
Fixpoint joinWithSpace (texts : list str) : str :=
  match texts with
  | [] => []
  | [t] => t
  | t :: rest => t ++ " " ++ joinWithSpace rest
  end.

(** Every text followed by one space. *)
Definition eachFollowedBySpace (texts : list str) : str :=
  flat_map (fun t => t ++ " ") texts.

(** The track the specification selects: the first whose [lang]
    parameter is the requested language, else the first of the list. *)
Definition langIs (L : Lib) (language : str) (t : CaptionTrack) : bool :=
  match langParam L (BaseURL t) with
  | Some v => str_eqb v language
  | None => false
  end.
Definition selectedURL (L : Lib) (language : str) (captionTracks : list CaptionTrack) : str :=
  match List.find (langIs L language) captionTracks with
  | Some t => BaseURL t
  | None => match captionTracks with
            | first :: _ => BaseURL first
            | [] => []
            end
  end.

(** A duration string has structure when a P is directly followed by a
    T somewhere in it, in either case. *)
Fixpoint hasPT (s : str) : bool :=
  match s with
  | a :: t => match t with
              | b :: _ => (eqb_fold "P" a && eqb_fold "T" b) || hasPT t
              | [] => false
              end
  | [] => false
  end.

(** No carriage return is directly followed by a line feed. *)
Fixpoint noCRLF (s : str) : bool :=
  match s with
  | c :: t => match t with
              | d :: _ => negb (Ascii.eqb c csv.CR && Ascii.eqb d csv.LF) && noCRLF t
              | [] => true
              end
  | [] => true
  end.

Definition csvRow (v : VideoMeta.t) : list str := [VideoMeta.Id v; VideoMeta.Title v].

(** ** A small world to run the engine in

    One video, [abc], whose watch page lists a Spanish and an English
    caption track, in that order. *)

Module Fixture.

Definition quoted (s : str) : str := dquote :: s ++ [dquote].

Definition esURL : str := "https://www.youtube.com/api/timedtext?v=abc&lang=es".
Definition enURL : str := "https://www.youtube.com/api/timedtext?v=abc&lang=en".
Definition watchURL : str := "https://www.youtube.com/watch?v=abc".

Definition tracksJSON : str :=
  "[{" ++ quoted "baseUrl" ++ ":" ++ quoted esURL ++ "},{"
       ++ quoted "baseUrl" ++ ":" ++ quoted enURL ++ "}]".
Definition scriptText : str :=
  "var ytInitialPlayerResponse = {" ++ quoted "captionTracks" ++ ":" ++ tracksJSON ++ "};".
Definition watchPage : str := "<html><script>" ++ scriptText ++ "</script></html>".
Definition enDoc : str :=
  "<transcript><text>it&amp;#39;s</text><text>fine</text></transcript>".
Definition esDoc : str := "<transcript><text>hola</text></transcript>".

Definition textNode (t : str) : Node := {| Text := t; Attrs := [] |}.

(** A comment and a thread with every pointer set. *)
Definition comment (text : str) : option api.Comment.t :=
  Some {| api.Comment.Snippet := Some {| api.TextDisplay := text |} |}.
Definition thread (topLevelComment : str) (replies : option (list str))
  : api.CommentThread.t :=
  {| api.CommentThread.Snippet :=
       Some {| api.CommentThreadSnippet.TopLevelComment := comment topLevelComment |};
     api.CommentThread.Replies :=
       option_map (fun texts => {| api.CommentThreadReplies.Comments := map comment texts |})
                  replies |}.

Fixpoint splitOn (sep : ascii) (s : str) : list str :=
  match s with
  | [] => [[]]
  | c :: t =>
      if Ascii.eqb c sep then [] :: splitOn sep t
      else match splitOn sep t with
           | h :: r => (c :: h) :: r
           | [] => [[c]]
           end
  end.

Fixpoint afterQuestionMark (s : str) : str :=
  match s with
  | [] => []
  | c :: t => if Ascii.eqb c "?" then t else afterQuestionMark t
  end.

(** The library functions, right on the documents of this world: the
    parsed documents are tabulated, a query is split at [&] and [=], no
    timing attribute is present. *)
Definition lib : Lib := {|
  soupFindAll := fun doc tag =>
    if str_eqb doc watchPage && str_eqb tag "script" then [textNode scriptText]
    else if str_eqb doc enDoc && str_eqb tag "text" then [textNode "it&#39;s"; textNode "fine"]
    else if str_eqb doc esDoc && str_eqb tag "text" then [textNode "hola"]
    else [];
  jsonUnmarshalTracks := fun s =>
    if str_eqb s tracksJSON then inl [ {| BaseURL := esURL |}; {| BaseURL := enURL |} ]
    else inr ("unexpected end of JSON input" : str);
  httpNewRequest := fun _ => None;
  urlParse := fun u => inl (afterQuestionMark u);
  urlParseQuery := fun q =>
    map (fun kv => match splitOn "=" kv with
                   | k :: v :: _ => (k, [v])
                   | k :: [] => (k, [[]])
                   | [] => ([], [])
                   end) (splitOn "&" q);
  ParseFloat64 := fun _ => 0%float;
  fmt_f := fun _ => "0.000000" : str;
  firstRuneIsSpace := fun s => match s with c :: _ => is_space c | [] => false end |}.

Definition video : api.Video := {|
  api.Id := "abc";
  api.Snippet := Some {| api.Title := "A title"; api.Description := "";
                         api.PublishedAt := "2024-01-01T00:00:00Z";
                         api.ChannelId := "UC1"; api.ChannelTitle := "Channel";
                         api.CategoryId := "22"; api.Tags := [] |};
  api.ContentDetails := Some {| api.Duration := "PT1H2M3S" |};
  api.Statistics := Some {| api.ViewCount := 10; api.LikeCount := 2 |} |}.

(** What [GrabMetadata] makes of [video]. *)
Definition metadata : VideoMetadata := {|
  Id := "abc"; Title := "A title"; Description := [];
  PublishedAt := "2024-01-01T00:00:00Z"; ChannelId := "UC1";
  ChannelTitle := "Channel"; CategoryId := "22"; Tags := [];
  ViewCount := 10; LikeCount := 2 |}.

(** The engine with its service initialised, after the given requests. *)
Definition after (requests : list Event) : YouTube :=
  {| service := true; normalizeRegex := Some normalizePattern; calls := requests |}.

Definition ok200 (body : str) : api.HttpResponse + error :=
  inl {| api.StatusCode := 200; api.Body := inl body |}.

(** The world: [videos] answers the two kinds of video request;
    the request number [flaky] (if any) fails in transport. *)
Definition world (videos : list str -> api.VideoListResponse + error)
    (flaky : option nat) : World := {|
  NewService := fun _ => None;
  VideosList := fun _ part _ => videos part;
  CommentThreadsList := fun _ _ =>
    inl {| api.Threads := [ thread "first" (Some ["reply" : str]) ] |};
  httpDo := fun n url =>
    if match flaky with Some k => Nat.eqb n k | None => false end
    then inr ("connection reset" : str)
    else if str_eqb url watchURL then ok200 watchPage
    else if str_eqb url enURL then ok200 enDoc
    else if str_eqb url esURL then ok200 esDoc
    else inl {| api.StatusCode := 404; api.Body := inl [] |};
  osCreate := fun _ _ => None;
  csvWrite := fun _ _ => None |}.

Definition allVideos (_ : list str) : api.VideoListResponse + error :=
  inl {| api.Items := [video] |}.
Definition noDetails (part : list str) : api.VideoListResponse + error :=
  if list_eq_dec (list_eq_dec ascii_dec) part ["contentDetails" : str]
  then inr ("quotaExceeded" : str) else allVideos part.
Definition noVideos (_ : list str) : api.VideoListResponse + error :=
  inl {| api.Items := [] |}.

Definition options (metadata duration comments transcript timestamps : bool) (lang : str)
  : Options.t := {|
  Options.Duration := duration; Options.Transcript := transcript;
  Options.TranscriptWithTimestamps := timestamps; Options.Comments := comments;
  Options.Lang := lang; Options.Metadata := metadata |}.

End Fixture.

(** Two decimal digits. *)
Definition digit (z : Z) : ascii := ascii_of_nat (48 + Z.to_nat z).
Definition two (z : Z) : str := [digit (z / 10); digit (z mod 10)].

(** ** Vocabulary of the statements *)

(** [t] is what remains of [s] after some prefix. *)
Definition suffix (t s : str) : Prop := exists pre, s = pre ++ t.

Definition notSlash (a : ascii) : bool := negb (Ascii.eqb a "/").

(** [rest] is empty or starts with a character outside the class. *)
Definition startsOutside (p : cls) (rest : str) : bool :=
  match rest with [] => true | a :: _ => negb (p a) end.

(** What the optional scheme and the optional [www.] can match. *)
Definition videoPrefixes : list str :=
  ["" : str; "www." : str; "http://" : str; "https://" : str;
   "http://www." : str; "https://www." : str].

Definition startsInside (p : cls) (s : str) : Prop :=
  match s with a :: _ => p a = true | [] => False end.

(** A duration string [PT], then the hours, minutes and seconds that
    are present, each a run of digits and its unit letter. *)
Definition unitGroup (ds : option str) (u : ascii) : str :=
  match ds with Some d => d ++ [u] | None => [] end.
Definition durationString (hs ms ss : option str) : str :=
  "PT" ++ unitGroup hs "H" ++ unitGroup ms "M" ++ unitGroup ss "S".
Definition digitsOK (ds : option str) : Prop :=
  match ds with Some d => d <> [] /\ forallb is_digit d = true | None => True end.
(** What the code makes of a group: [Atoi] of its text, 0 when absent. *)
Definition valueOf (ds : option str) : Z :=
  match ds with Some d => fst (Atoi d) | None => 0%Z end.

(** The captures after an optional group. *)
Definition capsOf (n : nat) (g : option str) (c : caps) : caps :=
  match g with Some d => (n, d) :: c | None => c end.

(** [R] does not start with digits followed by the unit [u]. *)
Definition noUnit (u : ascii) (R : str) : Prop :=
  exists ds tail, R = ds ++ tail /\ forallb is_digit ds = true
                  /\ startsOutside is_digit tail = true
                  /\ match tail with
                     | v :: _ => eqb_fold u v = false /\ Ascii.eqb (ascii_of_nat 197) v = false
                     | [] => True
                     end.

(** The number a run of decimal digits denotes. *)
Definition decimal (d : str) : Z := fold_left (fun acc c => (acc * 10 + digit_val c)%Z) d 0%Z.
Definition decimalOf (g : option str) : Z :=
  match g with Some d => decimal d | None => 0%Z end.

Definition entity : str := "&#39;".
Definition apostrophe : str := "'".

(** The options with another language. *)
Definition setLang (options : Options.t) (lang : str) : Options.t :=
  {| Options.Duration := Options.Duration options;
     Options.Transcript := Options.Transcript options;
     Options.TranscriptWithTimestamps := Options.TranscriptWithTimestamps options;
     Options.Comments := Options.Comments options;
     Options.Lang := lang;
     Options.Metadata := Options.Metadata options |}.

(** The options with both transcript flags cleared. *)
Definition withoutTranscripts (options : Options.t) : Options.t :=
  {| Options.Duration := Options.Duration options;
     Options.Transcript := false;
     Options.TranscriptWithTimestamps := false;
     Options.Comments := Options.Comments options;
     Options.Lang := Options.Lang options;
     Options.Metadata := Options.Metadata options |}.

(** The video identifier the URL resolves to. *)
Definition resolvedId (W : World) (url : str) (o : YouTube) : str :=
  match GetVideoOrPlaylistId W url o with
  | Done (videoId, _, _) _ => videoId
  | Panic _ _ => []
  end.

(** The transcripts the options ask for, fetched in [language] for the
    result [r] of the other fields: the plain one, then the timestamped
    one into the same slot; a failure ends the aggregate with that
    error. *)
Definition transcriptsIn (W : World) (L : Lib) (language videoId : str)
    (options : Options.t) (r : VideoInfo.t) : M (option VideoInfo.t * option error) :=
  fun o =>
    let timestamped r o :=
      if Options.TranscriptWithTimestamps options then
        match GrabTranscriptWithTimestamps W L videoId language o with
        | Done (t, err) o' => Done (Some (setTranscript r t), err) o'
        | Panic msg o' => Panic msg o'
        end
      else Done (Some r, None) o in
    if Options.Transcript options then
      match GrabTranscript W L videoId language o with
      | Done (t, Some e) o' => Done (Some (setTranscript r t), Some e) o'
      | Done (t, None) o' => timestamped (setTranscript r t) o'
      | Panic msg o' => Panic msg o'
      end
    else timestamped r o.

(** A field without line ends, quotes and commas. *)
Definition plain (f : str) : bool := negb (existsb csv.special f).

Definition pairRecord (p : str * str) : list str := [fst p; snd p].

Definition firstIsLF (s : str) : bool :=
  match s with c :: _ => Ascii.eqb c csv.LF | [] => false end.
Fixpoint lastIsCR (s : str) : bool :=
  match s with
  | [] => false
  | c :: t => match t with [] => Ascii.eqb c csv.CR | _ :: _ => lastIsCR t end
  end.
(** Content the reader's line normalization leaves as it is. *)
Definition clean (s : str) : Prop := noCRLF s = true /\ lastIsCR s = false.

(** ** The per-URL operations *)

Section UrlOperations.

Variable W : World.
Variable L : Lib.

Definition GrabTranscriptForUrl (url language : str) : M (str * option error) :=
  '(videoId, playlistId, err) <- GetVideoOrPlaylistId W url ;;
  match err with
  | Some e => ret ([], Some e)
  | None =>
      if isEmpty videoId && negb (isEmpty playlistId) then ret ([], Some errPlaylistNotVideo)
      else GrabTranscript W L videoId language
  end.

Definition GrabDurationForUrl (url : str) : M (Z * option error) :=
  err <- initService W ;;
  match err with
  | Some e => ret (0%Z, Some e)
  | None =>
      '(videoId, playlistId, err) <- GetVideoOrPlaylistId W url ;;
      match err with
      | Some e => ret (0%Z, Some e)
      | None =>
          if isEmpty videoId && negb (isEmpty playlistId) then ret (0%Z, Some errPlaylistNotVideo)
          else GrabDuration W videoId
      end
  end.

End UrlOperations.

(** The hosts and paths after which the video pattern takes an identifier
    (besides [watch?v=]). *)
Definition videoShapes : list str :=
  ["youtu.be/" : str; "youtube.com/live/" : str; "youtube.com/embed/" : str;
   "youtube.com/e/" : str; "youtube.com/v/" : str; "youtube.com/shorts/" : str].

(** The number of slashes of a string. *)
Definition slashes (s : str) : nat := count_occ ascii_dec s "/"%char.

(** Neither [?] nor [&]. *)
Definition notQuery (a : ascii) : bool := negb (one_of "?&" a).

(** One of the two hosts of the video pattern begins the string. *)
Definition hostAt (s : str) : bool := prefixb "youtube.com/" s || prefixb "youtu.be/" s.

(** No host begins inside [pre], in [pre ++ tail]. *)
Fixpoint noHostInside (pre tail : str) : bool :=
  match pre with
  | [] => true
  | a :: pre' => negb (hostAt ((a :: pre') ++ tail)) && noHostInside pre' tail
  end.

(** The paths after [youtube.com/] that the video pattern tries before
    the query alternative (besides the two-segment path). *)
Definition pathShapes : list str :=
  ["live/" : str; "v/" : str; "e/" : str; "embed/" : str; "shorts/" : str].

(** Neither white space nor [?] nor [&]. *)
Definition pathSafe (a : ascii) : bool := nonSpace a && notQuery a.

(** The remainders of a string, from the whole string to the empty one. *)
Fixpoint tails (s : str) : list str :=
  s :: match s with [] => [] | _ :: t => tails t end.

(** ** File names and playlists *)

(** [Regexp.ReplaceAllString] for a replacement without [$]: every match,
    leftmost first, is replaced; the search goes on where the match
    ended, or one character further after an empty match; an empty match
    directly after another match is not replaced.  [afterMatch] tells
    that a match ended here; [fuel] bounds the steps. *)
Fixpoint replaceMatches (fuel : nat) (r : re) (repl : str) (afterMatch : bool) (s : str) : str :=
  match fuel with
  | O => s
  | S n =>
      let copyOne := match s with
                     | [] => []
                     | c :: s' => c :: replaceMatches n r repl false s'
                     end in
      match run r s [] with
      | x :: _ =>
          if (List.length (fst x) <? List.length s)%nat
          then repl ++ replaceMatches n r repl true (fst x)
          else (if afterMatch then [] else repl) ++ copyOne
      | [] => copyOne
      end
  end.

Definition ReplaceAllString (r : re) (src repl : str) : str :=
  replaceMatches (S (List.length src)) r repl false src.

Definition normalizeFileName (name : str) : M str :=
  fun o => match normalizeRegex o with
           | None => Panic nilDeref o
           | Some r => Done (ReplaceAllString r name "_") o
           end.

Definition isAlnum (a : ascii) : bool := is_alpha a || is_digit a.

(** Every run of other characters becomes one underscore. [inRun] tells
    that the run has begun. *)
Fixpoint collapse (inRun : bool) (s : str) : str :=
  match s with
  | [] => []
  | c :: s' =>
      if isAlnum c then c :: collapse false s'
      else if inRun then collapse true s' else "_"%char :: collapse true s'
  end.

Fixpoint dropRun (p : cls) (s : str) : str :=
  match s with
  | c :: s' => if p c then dropRun p s' else s
  | [] => []
  end.

Definition nonAlnum (a : ascii) : bool := negb (is_alpha a || is_digit a).

Definition nameChar (a : ascii) : bool := isAlnum a || Ascii.eqb a "_".

Definition startsWithUnderscore (s : str) : bool :=
  match s with c :: _ => Ascii.eqb c "_" | [] => false end.

(** The playlist records of the platform API; the snippet of an item and
    its resource identifier are pointers. *)
Module playlistapi.
Record Resource := { VideoId : str }.
Record PlaylistItemSnippet := { Title : str; ResourceId : option Resource }.
Record PlaylistItem := { Snippet : option PlaylistItemSnippet }.
Record PlaylistItemListResponse := { Items : list PlaylistItem; NextPageToken : str }.
End playlistapi.

(** What the playlist operations do, in order: page requests, pauses
    and lines printed, and the file events of the save
    [FetchAndSavePlaylist] runs, in their place among them. *)
Inductive PlaylistEvent : Type :=
| EvPlaylistItemsList (playlistID pageToken : str)
| EvSleep (seconds : Z)
| EvPrint (text : str)
| EvFile (ev : Event).

Definition isPageRequest (ev : PlaylistEvent) : bool :=
  match ev with EvPlaylistItemsList _ _ => true | _ => false end.

(** The answer to a page request may depend on how many page requests
    came before. *)
Record PlaylistWorld := {
  PlaylistItemsList : nat -> str -> str -> playlistapi.PlaylistItemListResponse + error }.

(** The engine together with a journal of the events of kind [E] that
    its callers cause. *)
Record Process (E : Type) : Type := { engine : YouTube; journal : list E }.
Arguments Build_Process {E} engine journal.
Arguments engine {E} p.
Arguments journal {E} p.

Inductive result (E A : Type) : Type :=
| Returned (a : A) (p : Process E)
| Panicked (msg : str) (p : Process E).
Arguments Returned {E A} a p.
Arguments Panicked {E A} msg p.

Definition P (E A : Type) : Type := Process E -> result E A.
Definition pret {E A} (a : A) : P E A := fun p => Returned a p.
Definition pbind {E A B} (m : P E A) (k : A -> P E B) : P E B :=
  fun p => match m p with
           | Returned a p' => k a p'
           | Panicked msg p' => Panicked msg p'
           end.
Definition ppanic {E A} (msg : str) : P E A := fun p => Panicked msg p.
Definition lift {E A} (m : M A) : P E A :=
  fun p => match m (engine p) with
           | Done a o => Returned a {| engine := o; journal := journal p |}
           | Panic msg o => Panicked msg {| engine := o; journal := journal p |}
           end.
(** An engine computation whose requests are also entered in the
    journal, as [inj] shows them, where they happen. *)
Definition liftRecording {E A} (inj : Event -> E) (m : M A) : P E A :=
  fun p =>
    let made o := map inj (skipn (List.length (calls (engine p))) (calls o)) in
    match m (engine p) with
    | Done a o => Returned a {| engine := o; journal := journal p ++ made o |}
    | Panic msg o => Panicked msg {| engine := o; journal := journal p ++ made o |}
    end.
Definition emit {E} (ev : E) : P E unit :=
  fun p => Returned tt {| engine := engine p; journal := journal p ++ [ev] |}.
Definition pageRequest {A} (ev : PlaylistEvent) (ask : nat -> A) : P PlaylistEvent A :=
  fun p => Returned (ask (List.length (filter isPageRequest (journal p))))
                    {| engine := engine p; journal := journal p ++ [ev] |}.

Section Playlists.

Variable W : World.
Variable L : Lib.
Variable PW : PlaylistWorld.

(** The inner loop of [FetchPlaylistVideos] over the items of a page. *)
Fixpoint appendItems (items : list playlistapi.PlaylistItem) (ret : list VideoMeta.t)
  : P PlaylistEvent (list VideoMeta.t) :=
  match items with
  | [] => pret ret
  | item :: rest =>
      match playlistapi.Snippet item with
      | None => ppanic nilDeref
      | Some snippet =>
          match playlistapi.ResourceId snippet with
          | None => ppanic nilDeref
          | Some resourceId =>
              let videoID := playlistapi.VideoId resourceId in
              let title := playlistapi.Title snippet in
              pbind (lift (normalizeFileName title)) (fun normalized =>
              appendItems rest
                (ret ++ [ {| VideoMeta.Id := videoID; VideoMeta.Title := title;
                             VideoMeta.TitleNormalized := normalized |} ]))
          end
      end
  end.

(** The loop of [FetchPlaylistVideos] over the pages; it ends when a
    page has no next token or a request fails.  [None]: still looping
    after [fuel] pages. *)
Fixpoint fetchPages (fuel : nat) (playlistID nextPageToken : str) (ret : list VideoMeta.t)
  : P PlaylistEvent (option (list VideoMeta.t * option error)) :=
  match fuel with
  | O => pret None
  | S n =>
      pbind (pageRequest (EvPlaylistItemsList playlistID nextPageToken)
               (fun k => PlaylistItemsList PW k playlistID nextPageToken)) (fun response =>
      match response with
      | inr e => pret (Some (ret, Some e))
      | inl response =>
          pbind (appendItems (playlistapi.Items response) ret) (fun ret =>
          if isEmpty (playlistapi.NextPageToken response) then pret (Some (ret, None))
          else pbind (emit (EvSleep 1)) (fun _ =>
               fetchPages n playlistID (playlistapi.NextPageToken response) ret))
      end)
  end.

Definition FetchPlaylistVideos (fuel : nat) (playlistID : str)
  : P PlaylistEvent (option (list VideoMeta.t * option error)) :=
  pbind (lift (initService W)) (fun err =>
  match err with
  | Some e => pret (Some ([], Some e))
  | None => fetchPages fuel playlistID [] []
  end).

Definition FetchAndSavePlaylist (fuel : nat) (playlistID filename : str)
  : P PlaylistEvent (option (option error)) :=
  pbind (FetchPlaylistVideos fuel playlistID) (fun fetched =>
  match fetched with
  | None => pret None
  | Some (_, Some e) => pret (Some (Some ("error fetching playlist videos: " ++ e)))
  | Some (videos, None) =>
      pbind (liftRecording EvFile (SaveVideosToCSV W L filename videos)) (fun err =>
      match err with
      | Some e => pret (Some (Some ("error saving videos to CSV: " ++ e)))
      | None =>
          pbind (emit (EvPrint ("Playlist saved to " ++ filename ++ [csv.LF]))) (fun _ =>
          pret (Some None))
      end)
  end).

Definition printVideo (video : VideoMeta.t) : PlaylistEvent :=
  EvPrint (VideoMeta.Id video ++ ": " ++ VideoMeta.Title video ++ [csv.LF]).

Fixpoint printVideos (videos : list VideoMeta.t) : P PlaylistEvent unit :=
  match videos with
  | [] => pret tt
  | video :: rest => pbind (emit (printVideo video)) (fun _ => printVideos rest)
  end.

Definition FetchAndPrintPlaylist (fuel : nat) (playlistID : str)
  : P PlaylistEvent (option (option error)) :=
  pbind (FetchPlaylistVideos fuel playlistID) (fun fetched =>
  match fetched with
  | None => pret None
  | Some (_, Some e) => pret (Some (Some ("error fetching playlist videos: " ++ e)))
  | Some (videos, None) =>
      pbind (emit (EvPrint ("Playlist: " ++ playlistID ++ [csv.LF]))) (fun _ =>
      pbind (emit (EvPrint ("VideoId: Title" ++ [csv.LF]))) (fun _ =>
      pbind (printVideos videos) (fun _ =>
      pret (Some None))))
  end).

End Playlists.

(** A well-formed item of a page, from its video identifier and title. *)
Definition itemOf (entry : str * str) : playlistapi.PlaylistItem :=
  {| playlistapi.Snippet :=
       Some {| playlistapi.Title := snd entry;
               playlistapi.ResourceId := Some {| playlistapi.VideoId := fst entry |} |} |}.

Definition pageOf (entries : list (str * str)) (next : str)
  : playlistapi.PlaylistItemListResponse :=
  {| playlistapi.Items := map itemOf entries; playlistapi.NextPageToken := next |}.

(** The record the enumeration keeps of an entry. *)
Definition metaOf (entry : str * str) : VideoMeta.t :=
  {| VideoMeta.Id := fst entry; VideoMeta.Title := snd entry;
     VideoMeta.TitleNormalized := collapse false (snd entry) |}.

(** A finite run of the platform: from request number [k] on, asked with
    [token], it serves [pages] (entries and next token) one after the
    other, each asked with the token of the one before; the run ends
    with a page without next token ([final = None]) or, after the pages,
    with a failing request ([final = Some e]). *)
Fixpoint serves (PW : PlaylistWorld) (playlistID : str) (k : nat) (token : str)
    (pages : list (list (str * str) * str)) (final : option error) : Prop :=
  match pages with
  | [] => match final with
          | Some e => PlaylistItemsList PW k playlistID token = inr e
          | None => False
          end
  | page :: rest =>
      PlaylistItemsList PW k playlistID token = inl (pageOf (fst page) (snd page))
      /\ (if isEmpty (snd page) then rest = [] /\ final = None
          else serves PW playlistID (S k) (snd page) rest final)
  end.

(** The events of such a run. *)
Fixpoint pageTrace (playlistID token : str) (pages : list (list (str * str) * str))
  : list PlaylistEvent :=
  match pages with
  | [] => [EvPlaylistItemsList playlistID token]
  | page :: rest =>
      EvPlaylistItemsList playlistID token
      :: (if isEmpty (snd page) then []
          else EvSleep 1 :: pageTrace playlistID (snd page) rest)
  end.

Definition isSleep (ev : PlaylistEvent) : bool :=
  match ev with EvSleep _ => true | _ => false end.

Definition entriesOf (pages : list (list (str * str) * str)) : list (str * str) :=
  flat_map fst pages.

(** The engine's invariant: a service comes with the pattern. *)
Definition patternReady (o : YouTube) : Prop :=
  service o = true -> normalizeRegex o = Some normalizePattern.

Definition withJournal {E} (o : YouTube) (j : list E) : Process E :=
  {| engine := o; journal := j |}.

Module PlaylistFixture.

(** A platform that serves the given pages by request number, whatever
    the token, and then fails or serves empty last pages. *)
Definition world (pages : list (list (str * str) * str)) (failure : option error)
  : PlaylistWorld :=
  {| PlaylistItemsList := fun k _ _ =>
       match nth_error pages k with
       | Some page => inl (pageOf (fst page) (snd page))
       | None => match failure with
                 | Some e => inr e
                 | None => inl (pageOf [] [])
                 end
       end |}.

Definition twoPages : list (list (str * str) * str) :=
  [ ([("a1" : str, "First video" : str); ("b2" : str, "Second, part 2" : str)], "t1" : str);
    ([("c3" : str, "Third" : str)], [] : str) ].

Definition firstPage : list (list (str * str) * str) :=
  [ ([("a1" : str, "First video" : str); ("b2" : str, "Second, part 2" : str)], "t1" : str) ].

Definition start : Process PlaylistEvent := withJournal NewYouTube [].

Definition engineWorld : World := Fixture.world Fixture.allVideos None.

End PlaylistFixture.

Definition malformed (item : playlistapi.PlaylistItem) : bool :=
  match playlistapi.Snippet item with
  | None => true
  | Some snippet => match playlistapi.ResourceId snippet with None => true | Some _ => false end
  end.

Definition printEntry (entry : str * str) : PlaylistEvent :=
  EvPrint (fst entry ++ ": " ++ snd entry ++ [csv.LF]).

(** ** Requests of the single operations *)

(** The engine after further requests. *)
Definition extend (o : YouTube) (requests : list Event) : YouTube :=
  {| service := service o; normalizeRegex := normalizeRegex o;
     calls := calls o ++ requests |}.

Definition watchUrlOf (videoId : str) : str := "https://www.youtube.com/watch?v=" ++ videoId.

Definition mentionsTracks (scriptTag : Node) : bool :=
  Contains (Text scriptTag) "captionTracks".

Definition replyPrefix : str := "    - ".

Definition isReplyLine (line : str) : bool := prefixb replyPrefix line.

(** A thread all of whose pointers are set. *)
Definition present (reply : option api.Comment.t) : bool :=
  match textDisplay reply with Some _ => true | None => false end.
Definition complete (thread : api.CommentThread.t) : bool :=
  match api.CommentThread.Snippet thread with
  | None => false
  | Some snippet =>
      match textDisplay (api.CommentThreadSnippet.TopLevelComment snippet) with
      | None => false
      | Some _ =>
          match api.CommentThread.Replies thread with
          | None => true
          | Some replies =>
              forallb present (api.CommentThreadReplies.Comments replies)
          end
      end
  end.

(** The text of the top-level comment and the texts of the replies of a
    thread. *)
Definition topOf (thread : api.CommentThread.t) : str :=
  match api.CommentThread.Snippet thread with
  | Some snippet =>
      match textDisplay (api.CommentThreadSnippet.TopLevelComment snippet) with
      | Some text => text
      | None => []
      end
  | None => []
  end.
Definition repliesOf (thread : api.CommentThread.t) : list str :=
  match api.CommentThread.Replies thread with
  | Some replies =>
      flat_map (fun reply => match textDisplay reply with Some text => [text] | None => [] end)
               (api.CommentThreadReplies.Comments replies)
  | None => []
  end.

(** The lines of a thread: its comment, then its replies with the
    prefix. *)
Definition threadLines (thread : api.CommentThread.t) : list str :=
  topOf thread :: map (fun replyText => replyPrefix ++ replyText) (repliesOf thread).

(** The platform serves only complete threads for the video. *)
Definition threadsComplete (W : World) (videoId : str) : Prop :=
  forall n response,
    CommentThreadsList W n videoId = inl response ->
    forallb complete (api.Threads response) = true.

Module EdgeFixture.

(** A platform whose watch pages have one script, without caption
    tracks, and whose third row cannot be written. *)
Definition world : World := {|
  NewService := fun _ => None;
  VideosList := fun _ part _ => Fixture.allVideos part;
  CommentThreadsList := fun _ _ =>
    inl {| api.Threads :=
             [ Fixture.thread "first" (Some ["yes" : str; "no" : str]);
               Fixture.thread "second" None ] |};
  httpDo := fun _ _ => Fixture.ok200 "<html><script>var x = 1;</script></html>";
  osCreate := fun _ _ => None;
  csvWrite := fun n _ => if Nat.eqb n 2 then Some ("disk full" : str) else None |}.

Definition lib : Lib := {|
  soupFindAll := fun _ tag =>
    if str_eqb tag "script" then [Fixture.textNode "var x = 1;"] else [];
  jsonUnmarshalTracks := jsonUnmarshalTracks Fixture.lib;
  httpNewRequest := httpNewRequest Fixture.lib;
  urlParse := urlParse Fixture.lib;
  urlParseQuery := urlParseQuery Fixture.lib;
  ParseFloat64 := ParseFloat64 Fixture.lib;
  fmt_f := fmt_f Fixture.lib;
  firstRuneIsSpace := firstRuneIsSpace Fixture.lib |}.

Definition videos : list VideoMeta.t :=
  [ {| VideoMeta.Id := "a1"; VideoMeta.Title := "First"; VideoMeta.TitleNormalized := "First" |};
    {| VideoMeta.Id := "b2"; VideoMeta.Title := "Second"; VideoMeta.TitleNormalized := "Second" |};
    {| VideoMeta.Id := "c3"; VideoMeta.Title := "Third"; VideoMeta.TitleNormalized := "Third" |} ].

End EdgeFixture.

(** ** The REST handlers *)

Notation "x <~ m ;; k" := (pbind m (fun x => k))
  (at level 61, m at next level, right associativity).
Notation "' p <~ m ;; k" := (pbind m (fun x => let 'p := x in k))
  (at level 61, p pattern, m at next level, right associativity).

Module YouTubeRequest.
Record t := {
  URL : str; Pattern : str; Language : str;
  WithComments : bool; WithMetadata : bool; Model : str }.
End YouTubeRequest.

(** The JSON object the handlers answer with: a key is present when its
    field is [Some]; [errors] holds the error map, in the order the
    keys were set, and the key is present when it is not empty. *)
Module YouTubeResult.
Record t := {
  transcript : option str;
  pattern_result : option str;
  comments : option (list str);
  metadata : option VideoMetadata;
  errors : list (str * str) }.
End YouTubeResult.

Inductive Body : Type :=
| ErrorBody (error : str)
| ResultBody (result : YouTubeResult.t).

Record Reply := { status : Z; body : Body }.

Definition StatusOK : Z := 200.
Definition StatusBadRequest : Z := 400.

(** What the handlers ask of the registry.  Log lines are left out. *)
Inductive HandlerEvent : Type :=
| EvGetChatter (model : str)
| EvSend (model patternName content : str).

(** The chat side of the registry: [GetChatter] answers with an error
    or a chatter; [Send] with an error or a session, which may be nil
    ([None]) and whose last message may be nil ([Some None]).  The
    answers may depend on the number of earlier requests. *)
Record Registry := {
  GetChatter : nat -> str -> option error;
  Send : nat -> str -> str -> str -> option (option str) + error }.

Definition ask {A} (ev : HandlerEvent) (answer : nat -> A) : P HandlerEvent A :=
  fun p => Returned (answer (List.length (journal p)))
                    {| engine := engine p; journal := journal p ++ [ev] |}.

Definition defaultModel : str := "gemini-2.0-flash-exp".

Definition presentText (s : str) : option str := if isEmpty s then None else Some s.
Definition presentList (l : list str) : option (list str) :=
  match l with [] => None | _ :: _ => Some l end.

Section Handlers.

Variable W : World.
Variable L : Lib.
Variable R : Registry.

(** The pattern step, the same in both handlers: only for a pattern
    and a non-empty transcript. *)
Definition processPattern (request : YouTubeRequest.t) (transcript : str)
    (errorResponse : list (str * str)) : P HandlerEvent (option str * list (str * str)) :=
  if negb (isEmpty (YouTubeRequest.Pattern request)) && negb (isEmpty transcript) then
    chatterErr <~ ask (EvGetChatter (YouTubeRequest.Model request))
                      (fun n => GetChatter R n (YouTubeRequest.Model request)) ;;
    match chatterErr with
    | Some err =>
        pret (None, errorResponse ++ [("pattern_error" : str, "Error creating chatter: " ++ err)])
    | None =>
        sent <~ ask (EvSend (YouTubeRequest.Model request) (YouTubeRequest.Pattern request)
                            transcript)
                    (fun n => Send R n (YouTubeRequest.Model request)
                                   (YouTubeRequest.Pattern request) transcript) ;;
        match sent with
        | inr err =>
            pret (None, errorResponse
                        ++ [("pattern_error" : str, "Error processing pattern: " ++ err)])
        | inl None => pret (None, errorResponse)
        | inl (Some None) =>
            pret (None, errorResponse
                        ++ [("pattern_error" : str,
                             "No response received from pattern processing" : str)])
        | inl (Some (Some content)) => pret (Some content, errorResponse)
        end
    end
  else pret (None, errorResponse).

(** The transcript step of both handlers. *)
Definition grabTranscript (videoId language : str) : P HandlerEvent (str * str * list (str * str)) :=
  '(transcript, err) <~ lift (GrabTranscript W L videoId language) ;;
  match err with
  | Some err =>
      pret (transcript, [], [("transcript_error" : str, "Failed to get transcript: " ++ err)])
  | None => pret (transcript, transcript, [])
  end.

Definition withDefaults (request : YouTubeRequest.t) : YouTubeRequest.t :=
  {| YouTubeRequest.URL := YouTubeRequest.URL request;
     YouTubeRequest.Pattern := YouTubeRequest.Pattern request;
     YouTubeRequest.Language :=
       if isEmpty (YouTubeRequest.Language request) then "en"
       else YouTubeRequest.Language request;
     YouTubeRequest.WithComments := YouTubeRequest.WithComments request;
     YouTubeRequest.WithMetadata := YouTubeRequest.WithMetadata request;
     YouTubeRequest.Model :=
       if negb (isEmpty (YouTubeRequest.Pattern request)) && isEmpty (YouTubeRequest.Model request)
       then defaultModel else YouTubeRequest.Model request |}.

(** [HandleYouTube], from the outcome of binding the JSON body on. *)
Definition HandleYouTube (bound : YouTubeRequest.t + error) : P HandlerEvent Reply :=
  match bound with
  | inr err =>
      pret {| status := StatusBadRequest; body := ErrorBody ("Invalid request format: " ++ err) |}
  | inl request =>
      let request := withDefaults request in
      '(videoId, _, err) <~ lift (GetVideoOrPlaylistId W (YouTubeRequest.URL request)) ;;
      match err with
      | Some err =>
          pret {| status := StatusBadRequest;
                  body := ErrorBody ("Invalid YouTube URL: " ++ err) |}
      | None =>
          '(transcript, responseTranscript, errorResponse) <~
             grabTranscript videoId (YouTubeRequest.Language request) ;;
          '(responsePattern, errorResponse) <~
             processPattern request transcript errorResponse ;;
          '(responseComments, errorResponse) <~
             (if YouTubeRequest.WithComments request then
                '(comments, err) <~ lift (GrabComments W videoId) ;;
                match err with
                | Some err =>
                    pret ([], errorResponse
                              ++ [("comments_error" : str, "Failed to get comments: " ++ err)])
                | None => pret (comments, errorResponse)
                end
              else pret ([], errorResponse)) ;;
          '(responseMetadata, errorResponse) <~
             (if YouTubeRequest.WithMetadata request then
                '(metadata, err) <~ lift (GrabMetadata W videoId) ;;
                match err with
                | Some err =>
                    pret (None, errorResponse
                                ++ [("metadata_error" : str, "Failed to get metadata: " ++ err)])
                | None =>
                    match metadata with
                    | Some metadata => pret (Some metadata, errorResponse)
                    | None => ppanic nilDeref
                    end
                end
              else pret (None, errorResponse)) ;;
          pret {| status := StatusOK;
                  body := ResultBody
                    {| YouTubeResult.transcript := presentText responseTranscript;
                       YouTubeResult.pattern_result := responsePattern;
                       YouTubeResult.comments := presentList responseComments;
                       YouTubeResult.metadata := responseMetadata;
                       YouTubeResult.errors := errorResponse |} |}
      end
  end.

(** [HandleCanonicalYouTube], from the two path parameters on. *)
Definition HandleCanonicalYouTube (videoId pattern : str) : P HandlerEvent Reply :=
  let url : str := "https://www.youtube.com/watch?v=" ++ videoId in
  let request :=
    {| YouTubeRequest.URL := url; YouTubeRequest.Pattern := pattern;
       YouTubeRequest.Language := "en";
       YouTubeRequest.WithComments := false; YouTubeRequest.WithMetadata := false;
       YouTubeRequest.Model := defaultModel |} in
  '(transcript, responseTranscript, errorResponse) <~
     grabTranscript videoId (YouTubeRequest.Language request) ;;
  '(responsePattern, errorResponse) <~ processPattern request transcript errorResponse ;;
  pret {| status := StatusOK;
          body := ResultBody
            {| YouTubeResult.transcript := presentText responseTranscript;
               YouTubeResult.pattern_result := responsePattern;
               YouTubeResult.comments := None;
               YouTubeResult.metadata := None;
               YouTubeResult.errors := errorResponse |} |}.

End Handlers.

Module HandlerFixture.

(** A registry whose chatter answers every pattern with a summary. *)
Definition registry : Registry := {|
  GetChatter := fun _ _ => None;
  Send := fun _ _ _ _ => inl (Some (Some ("summary" : str))) |}.

Definition start : Process HandlerEvent := withJournal NewYouTube [].

Definition request (url pattern : str) (withComments withMetadata : bool) : YouTubeRequest.t :=
  {| YouTubeRequest.URL := url; YouTubeRequest.Pattern := pattern;
     YouTubeRequest.Language := [];
     YouTubeRequest.WithComments := withComments;
     YouTubeRequest.WithMetadata := withMetadata;
     YouTubeRequest.Model := [] |}.

End HandlerFixture.

(** * Properties *)

Unset Implicit Arguments.

Lemma str_eqb_eq (a b : str) : str_eqb a b = true <-> a = b.
Proof.
  unfold str_eqb. destruct (list_eq_dec ascii_dec a b); split; congruence.
Qed.

Lemma str_eqb_refl (a : str) : str_eqb a a = true.
Proof. now apply str_eqb_eq. Qed.

(** ** The regexp engine and the patterns *)

Lemma leftmost_head (r : re) (s : str) x tl :
  run r s [] = x :: tl -> leftmost r s = Some (consumed s (fst x), snd x).
Proof. intros H. destruct s; simpl; rewrite H; reflexivity. Qed.

Lemma flat_map_nil {A B} (f : A -> list B) (l : list A) :
  (forall x, In x l -> f x = []) -> flat_map f l = [].
Proof.
  induction l as [|a l IH]; intros H; simpl; [reflexivity|].
  rewrite (H a) by now left. apply IH. intros x Hx. apply H. now right.
Qed.

Lemma suffix_refl s : suffix s s.
Proof. now exists []. Qed.

Lemma suffix_cons a t s : suffix t s -> suffix t (a :: s).
Proof. intros [pre ->]. now exists (a :: pre). Qed.

Lemma suffix_length t s : suffix t s -> (List.length t <= List.length s)%nat.
Proof. intros [pre ->]. rewrite length_app. lia. Qed.

Lemma star_greedy_suffix p s t : In t (star_greedy p s) -> suffix t s.
Proof.
  induction s as [|a s IH]; simpl.
  - intros [<-|[]]. apply suffix_refl.
  - destruct (p a).
    + rewrite in_app_iff. intros [H|[<-|[]]].
      * now apply suffix_cons, IH.
      * apply suffix_refl.
    + intros [<-|[]]. apply suffix_refl.
Qed.

Lemma star_lazy_suffix p s t : In t (star_lazy p s) -> suffix t s.
Proof.
  induction s as [|a s IH]; simpl.
  - intros [<-|[]]. apply suffix_refl.
  - intros [<-|H]; [apply suffix_refl|].
    destruct (p a); [|destruct H]. now apply suffix_cons, IH.
Qed.

Lemma star_greedy_head p X rest :
  forallb p X = true ->
  match rest with [] => true | a :: _ => negb (p a) end = true ->
  exists tl, star_greedy p (X ++ rest) = rest :: tl.
Proof.
  intros HX Hr. induction X as [|a X IH]; simpl in *.
  - destruct rest as [|b rest]; [now exists []|].
    apply negb_true_iff in Hr. simpl. rewrite Hr. now exists [].
  - apply andb_true_iff in HX as [Ha HX]. rewrite Ha.
    destruct (IH HX) as [tl ->]. eexists. reflexivity.
Qed.

Lemma run_Plus_in p s c x :
  In x (run (Plus p) s c) ->
  exists a s', s = a :: s' /\ p a = true /\ suffix (fst x) s' /\ snd x = c.
Proof.
  unfold Plus. cbn [run]. rewrite in_flat_map. intros (y & Hy & Hx).
  destruct s as [|a s']; [destruct Hy|].
  destruct (p a) eqn:Ha; [|destruct Hy]. destruct Hy as [<-|[]].
  cbn [fst snd] in Hx. rewrite in_map_iff in Hx. destruct Hx as (t & <- & Ht).
  exists a, s'. repeat split; auto. now apply star_greedy_suffix with p.
Qed.

Lemma run_Lit_in l s c x : In x (run (Lit l) s c) -> s = l ++ fst x /\ snd x = c.
Proof.
  revert s. induction l as [|a l IH]; intros s; unfold Lit; simpl.
  - intros [<-|[]]. auto.
  - rewrite in_flat_map. intros (y & Hy & Hx).
    destruct s as [|b s]; [destruct Hy|].
    destruct (Ascii.eqb a b) eqn:E; [|destruct Hy]. destruct Hy as [<-|[]].
    apply Ascii.eqb_eq in E. subst b. simpl in Hx.
    destruct (IH _ Hx) as [-> ->]. auto.
Qed.

Lemma run_Lit_app l s c : run (Lit l) (l ++ s) c = [(s, c)].
Proof.
  induction l as [|a l IH]; unfold Lit; simpl; [reflexivity|].
  rewrite Ascii.eqb_refl. simpl. fold (Lit l). rewrite IH. reflexivity.
Qed.

Lemma consumed_app pre t : consumed (pre ++ t) t = pre.
Proof.
  unfold consumed. rewrite length_app, Nat.add_sub.
  rewrite firstn_app, Nat.sub_diag, firstn_all. simpl. apply app_nil_r.
Qed.

Lemma leftmost_some r s whole c :
  leftmost r s = Some (whole, c) ->
  exists t x, suffix t s /\ In x (run r t []) /\ c = snd x.
Proof.
  induction s as [|a s IH]; simpl.
  - destruct (run r [] []) as [|x tl] eqn:E; [discriminate|].
    intros [= <- <-]. exists [], x. rewrite E. repeat split; [apply suffix_refl|now left].
  - destruct (run r (a :: s) []) as [|x tl] eqn:E.
    + intros H. destruct (IH H) as (t & x & Hs & Hx & Hc).
      exists t, x. repeat split; auto. now apply suffix_cons.
    + intros [= <- <-]. exists (a :: s), x. rewrite E. repeat split; [apply suffix_refl|now left].
Qed.

Lemma playlist_capture_nonempty url whole c :
  leftmost playlistPattern url = Some (whole, c) -> group 1 c <> [].
Proof.
  intros H. apply leftmost_some in H as (t & x & _ & Hx & ->).
  unfold playlistPattern in Hx. cbn [run] in Hx.
  rewrite in_flat_map in Hx. destruct Hx as (y & Hy & Hx).
  rewrite in_flat_map in Hx. destruct Hx as (z & Hz & Hx).
  rewrite in_map_iff in Hx. destruct Hx as (w & <- & Hw).
  apply run_Plus_in in Hw as (a & s' & Hs & _ & Hsuf & _).
  cbn [snd group Nat.eqb]. rewrite Hs. apply suffix_length in Hsuf.
  unfold consumed. cbn [List.length].
  rewrite Nat.sub_succ_l by exact Hsuf.
  discriminate.
Qed.

Lemma idChar_notSlash a : idChar a = true -> notSlash a = true.
Proof.
  destruct a as [[] [] [] [] [] [] [] []]; vm_compute; congruence.
Qed.

Lemma altPath_no_slash s c :
  forallb notSlash s = true -> run altPath s c = [].
Proof.
  intros Hs. unfold altPath. cbn [run]. apply flat_map_nil. intros x Hx.
  apply run_Plus_in in Hx as (a & s' & -> & _ & [pre Hsuf] & _).
  apply flat_map_nil. intros y Hy. exfalso.
  apply run_Lit_in in Hy as [Hy _]. rewrite Hy in Hsuf. rewrite Hsuf in Hs.
  simpl in Hs. apply andb_true_iff in Hs as [_ Hs].
  rewrite forallb_app in Hs. apply andb_true_iff in Hs as [_ Hs].
  simpl in Hs. discriminate.
Qed.

Lemma altQuery_watch Y c :
  exists tl, run altQuery ("watch?v=" ++ Y) c = (Y, c) :: tl.
Proof.
  unfold altQuery. eexists. cbn. reflexivity.
Qed.

Lemma videoPathAlts_watch Y c :
  forallb notSlash Y = true ->
  exists tl, run videoPathAlts ("watch?v=" ++ Y) c = (Y, c) :: tl.
Proof.
  intros HY. unfold videoPathAlts. cbn [run].
  rewrite altPath_no_slash by exact HY.
  destruct (altQuery_watch Y c) as [tl ->].
  eexists. reflexivity.
Qed.

Lemma videoHost_watch Y c :
  forallb notSlash Y = true ->
  exists tl, run videoHost ("youtube.com/watch?v=" ++ Y) c = (Y, c) :: tl.
Proof.
  intros HY. unfold videoHost. cbn [run].
  change (list_ascii_of_string "youtube.com/watch?v=" ++ Y)
    with (list_ascii_of_string "youtube.com/" ++ (list_ascii_of_string "watch?v=" ++ Y)).
  rewrite run_Lit_app. cbn [flat_map fst snd].
  destruct (videoPathAlts_watch Y c HY) as [tl ->].
  eexists. reflexivity.
Qed.

Lemma videoTail_watch X rest c :
  forallb idChar X = true -> forallb notSlash rest = true ->
  startsOutside idChar rest = true ->
  exists tl, run videoTail ("youtube.com/watch?v=" ++ X ++ rest) c
             = (rest, (1, X) :: c) :: tl.
Proof.
  intros HX Hrest Hout. unfold videoTail. cbn [run].
  assert (HY : forallb notSlash (X ++ rest) = true).
  { rewrite forallb_app, Hrest, andb_true_r. apply forallb_forall. intros a Ha.
    apply idChar_notSlash. rewrite forallb_forall in HX. now apply HX. }
  destruct (videoHost_watch (X ++ rest) c HY) as [tl ->].
  cbn [flat_map fst snd run].
  destruct (star_greedy_head idChar X rest HX Hout) as [tl' ->].
  cbn [map fst snd app]. rewrite consumed_app. eexists. reflexivity.
Qed.

Lemma videoPattern_watch prefix X rest :
  In prefix videoPrefixes ->
  forallb idChar X = true -> forallb notSlash rest = true ->
  startsOutside idChar rest = true ->
  FindStringSubmatch videoPattern 1 (prefix ++ "youtube.com/watch?v=" ++ X ++ rest)
  = [prefix ++ "youtube.com/watch?v=" ++ X; X].
Proof.
  intros Hp HX Hrest Hout.
  assert (Hrun : exists tl,
             run videoPattern (prefix ++ "youtube.com/watch?v=" ++ X ++ rest) []
             = (rest, [(1, X)]) :: tl).
  { change videoPattern with
      (Cat (Quest (Cat (Lit "http") (Cat (Quest (Lit "s")) (Lit "://"))))
           (Cat (Quest (Lit "www.")) videoTail)).
    destruct (videoTail_watch X rest [] HX Hrest Hout) as [tl Htl].
    remember videoTail as T eqn:HT.
    remember (X ++ rest) as Y eqn:HY.
    simpl in Hp.
    destruct Hp as [<-|[<-|[<-|[<-|[<-|[<-|[]]]]]]]; cbn; cbn in Htl; rewrite Htl;
      eexists; reflexivity. }
  destruct Hrun as [tl Hrun].
  unfold FindStringSubmatch. erewrite leftmost_head by exact Hrun.
  cbn [fst snd seq map group Nat.eqb].
  replace (prefix ++ "youtube.com/watch?v=" ++ X ++ rest)
    with ((prefix ++ "youtube.com/watch?v=" ++ X) ++ rest)
    by (rewrite <- !app_assoc; reflexivity).
  rewrite consumed_app. reflexivity.
Qed.

Lemma star_greedy_run p ds tail :
  forallb p ds = true -> startsOutside p tail = true ->
  exists tl, star_greedy p (ds ++ tail) = tail :: tl /\ Forall (startsInside p) tl.
Proof.
  intros Hd Ht. induction ds as [|a ds IH]; simpl in *.
  - exists []. split; [|constructor].
    destruct tail as [|b t]; [reflexivity|]. simpl in *.
    apply negb_true_iff in Ht. now rewrite Ht.
  - apply andb_true_iff in Hd as [Ha Hd]. rewrite Ha.
    destruct (IH Hd) as (tl & -> & Htl).
    exists (tl ++ [a :: ds ++ tail]). split; [reflexivity|].
    apply Forall_app. split; [exact Htl|]. constructor; [exact Ha|constructor].
Qed.

Lemma not_digit_fold u : 
  In u ["H"%char; "M"%char; "S"%char] -> forall a, is_digit a = true -> eqb_fold u a = false.
Proof.
  intros Hu a. destruct Hu as [<-|[<-|[<-|[]]]];
  destruct a as [[] [] [] [] [] [] [] []]; vm_compute; congruence.
Qed.

Lemma digit_ascii a : is_digit a = true -> Ascii.eqb (ascii_of_nat 197) a = false.
Proof. destruct a as [[] [] [] [] [] [] [] []]; vm_compute; congruence. Qed.

(** A unit letter against the next character, when that is not the
    first byte of a long s. *)
Lemma run_foldUnit u v rest c :
  In u ["H"%char; "M"%char; "S"%char] ->
  Ascii.eqb (ascii_of_nat 197) v = false ->
  run (LitFold [u]) (v :: rest) c = if eqb_fold u v then [(rest, c)] else [].
Proof.
  intros Hu Hv. destruct Hu as [<-|[<-|[<-|[]]]].
  - change (LitFold ["H"%char]) with (Cat (Char (eqb_fold "H")) Empty).
    cbn [run flat_map]. destruct (eqb_fold "H" v); reflexivity.
  - change (LitFold ["M"%char]) with (Cat (Char (eqb_fold "M")) Empty).
    cbn [run flat_map]. destruct (eqb_fold "M" v); reflexivity.
  - change (LitFold ["S"%char]) with (Cat (Or (Char (eqb_fold "S")) (Lit longS)) Empty).
    assert (Hlong : run (Lit longS) (v :: rest) c = []).
    { unfold Lit, longS. cbn [fold_right run]. now rewrite Hv. }
    cbn [run]. rewrite Hlong, app_nil_r.
    destruct (eqb_fold "S" v); reflexivity.
Qed.

Lemma unitRe_run n u ds tail c :
  forallb is_digit ds = true -> startsOutside is_digit tail = true ->
  In u ["H"%char; "M"%char; "S"%char] ->
  match tail with v :: _ => Ascii.eqb (ascii_of_nat 197) v = false | [] => True end ->
  run (unitRe n u) (ds ++ tail) c =
  match ds, tail with
  | _ :: _, v :: rest => if eqb_fold u v then [(rest, (n, ds) :: c)] else []
  | _, _ => []
  end.
Proof.
  intros Hd Ht Hu Hv. unfold unitRe, Plus. cbn [run].
  destruct ds as [|d ds].
  - simpl. destruct tail as [|v rest]; [reflexivity|].
    simpl in Ht. apply negb_true_iff in Ht. rewrite Ht. reflexivity.
  - simpl in Hd. apply andb_true_iff in Hd as [Hd0 Hd].
    cbn [app]. rewrite Hd0. cbn [flat_map fst snd app].
    destruct (star_greedy_run is_digit ds tail Hd Ht) as (tl & -> & Htl).
    rewrite app_nil_r. cbn [map flat_map fst snd].
    assert (Hc : consumed (d :: ds ++ tail) tail = d :: ds)
      by (change (d :: ds ++ tail) with ((d :: ds) ++ tail); apply consumed_app).
    rewrite Hc.
    match goal with |- _ ++ ?F = _ => assert (Htail : F = []) end.
    { apply flat_map_nil. intros x Hx.
      rewrite map_map in Hx. apply in_map_iff in Hx as (s' & <- & Hs').
      rewrite Forall_forall in Htl. specialize (Htl s' Hs').
      destruct s' as [|a s']; [destruct Htl|]. simpl in Htl.
      cbn [fst snd]. rewrite (run_foldUnit u a s' _ Hu (digit_ascii a Htl)).
      now rewrite (not_digit_fold u Hu a Htl). }
    rewrite Htail, app_nil_r.
    destruct tail as [|v rest];
      [destruct Hu as [<-|[<-|[<-|[]]]]; reflexivity|].
    rewrite (run_foldUnit u v rest _ Hu Hv).
    destruct (eqb_fold u v); reflexivity.
Qed.

Lemma run_Quest r s c : run (Quest r) s c = run r s c ++ [(s, c)].
Proof. reflexivity. Qed.

Lemma quest_unit n u g R c :
  In u ["H"%char; "M"%char; "S"%char] -> digitsOK g -> noUnit u R ->
  exists tl, run (Quest (unitRe n u)) (unitGroup g u ++ R) c = (R, capsOf n g c) :: tl.
Proof.
  intros Hu Hg (ds & tail & HR & Hds & Htail & Hv). rewrite run_Quest.
  destruct g as [d|]; cbn [unitGroup capsOf].
  - destruct Hg as [Hne Hd]. rewrite <- app_assoc. cbn [app].
    assert (Hout : startsOutside is_digit (u :: R) = true).
    { destruct Hu as [<-|[<-|[<-|[]]]]; reflexivity. }
    assert (Hascii : Ascii.eqb (ascii_of_nat 197) u = false).
    { destruct Hu as [<-|[<-|[<-|[]]]]; reflexivity. }
    rewrite (unitRe_run n u d (u :: R) c Hd Hout Hu Hascii).
    destruct d as [|d0 d]; [congruence|].
    assert (Huu : eqb_fold u u = true) by (unfold eqb_fold; now rewrite Ascii.eqb_refl).
    rewrite Huu. eexists. reflexivity.
  - cbn [app]. rewrite HR.
    assert (Hascii : match tail with
                     | v :: _ => Ascii.eqb (ascii_of_nat 197) v = false
                     | [] => True
                     end) by (destruct tail; [exact I|apply Hv]).
    rewrite (unitRe_run n u ds tail c Hds Htail Hu Hascii).
    exists []. destruct ds; [reflexivity|]. destruct tail; [reflexivity|].
    now rewrite (proj1 Hv).
Qed.

Lemma noUnit_nil u : noUnit u [].
Proof. exists [], []. repeat split. Qed.

Lemma noUnit_group u v g R :
  digitsOK g -> eqb_fold u v = false -> Ascii.eqb (ascii_of_nat 197) v = false ->
  is_digit v = false -> noUnit u R ->
  noUnit u (unitGroup g v ++ R).
Proof.
  intros Hg Huv Hascii Hv HR. destruct g as [d|]; cbn [unitGroup]; [|exact HR].
  destruct Hg as [_ Hd]. exists d, (v :: R). rewrite <- app_assoc.
  repeat split; auto. simpl. now rewrite Hv.
Qed.

Lemma duration_run hs ms ss :
  digitsOK hs -> digitsOK ms -> digitsOK ss ->
  exists tl, run durationPattern (durationString hs ms ss) []
             = ([], capsOf 3 ss (capsOf 2 ms (capsOf 1 hs []))) :: tl.
Proof.
  intros Hh Hm Hs.
  change durationPattern with
    (Cat (LitFold "PT") (Cat (Quest (unitRe 1 "H")) (Cat (Quest (unitRe 2 "M")) (Quest (unitRe 3 "S"))))).
  unfold durationString.
  assert (H1 : noUnit "H" (unitGroup ms "M" ++ unitGroup ss "S")).
  { apply noUnit_group; auto. rewrite <- (app_nil_r (unitGroup ss "S")).
    apply noUnit_group; auto. apply noUnit_nil. }
  assert (H2 : noUnit "M" (unitGroup ss "S")).
  { rewrite <- (app_nil_r (unitGroup ss "S")). apply noUnit_group; auto. apply noUnit_nil. }
  destruct (quest_unit 1 "H" hs (unitGroup ms "M" ++ unitGroup ss "S") []) as [tl1 E1];
    [simpl; auto | exact Hh | exact H1 |].
  destruct (quest_unit 2 "M" ms (unitGroup ss "S") (capsOf 1 hs [])) as [tl2 E2];
    [simpl; auto | exact Hm | exact H2 |].
  destruct (quest_unit 3 "S" ss [] (capsOf 2 ms (capsOf 1 hs []))) as [tl3 E3];
    [simpl; auto | exact Hs | apply noUnit_nil |].
  rewrite app_nil_r in E3.
  remember (Quest (unitRe 1 "H")) as Q1. remember (Quest (unitRe 2 "M")) as Q2.
  remember (Quest (unitRe 3 "S")) as Q3.
  change (LitFold "PT") with (Cat (Char (eqb_fold "P")) (Cat (Char (eqb_fold "T")) Empty)).
  change (list_ascii_of_string "PT" ++ ?x) with ("P"%char :: "T"%char :: x).
  cbn [run flat_map fst snd app].
  change (eqb_fold "P" "P") with true. cbn [flat_map fst snd app run].
  change (eqb_fold "T" "T") with true. cbn [flat_map fst snd app run].
  rewrite !app_nil_r. rewrite E1. cbn [flat_map fst snd]. rewrite E2. cbn [flat_map fst snd app].
  rewrite E3. eexists. reflexivity.
Qed.

Lemma group_capsOf hs ms ss :
  group 1 (capsOf 3 ss (capsOf 2 ms (capsOf 1 hs []))) = match hs with Some d => d | None => [] end
  /\ group 2 (capsOf 3 ss (capsOf 2 ms (capsOf 1 hs []))) = match ms with Some d => d | None => [] end
  /\ group 3 (capsOf 3 ss (capsOf 2 ms (capsOf 1 hs []))) = match ss with Some d => d | None => [] end.
Proof. destruct hs, ms, ss; repeat split. Qed.

Lemma parseDuration_formula hs ms ss :
  digitsOK hs -> digitsOK ms -> digitsOK ss ->
  parseDuration (durationString hs ms ss)
  = (wrap64 (wrap64 (wrap64 (valueOf hs * 60) + valueOf ms) + Z.quot (valueOf ss) 60), None).
Proof.
  intros Hh Hm Hs. destruct (duration_run hs ms ss Hh Hm Hs) as [tl Hrun].
  unfold parseDuration, FindStringSubmatch.
  erewrite leftmost_head by exact Hrun.
  cbn [fst snd seq map List.length Nat.eqb nth].
  destruct (group_capsOf hs ms ss) as (-> & -> & ->).
  destruct hs, ms, ss; reflexivity.
Qed.

Lemma digit_val_range a : is_digit a = true -> (0 <= digit_val a <= 9)%Z.
Proof.
  destruct a as [[] [] [] [] [] [] [] []]; vm_compute; intuition congruence.
Qed.

Lemma digit_not_sign a :
  is_digit a = true -> Ascii.eqb a "+" = false /\ Ascii.eqb a "-" = false.
Proof.
  destruct a as [[] [] [] [] [] [] [] []]; vm_compute; intuition congruence.
Qed.

Lemma fold_decimal_nonneg d acc :
  forallb is_digit d = true -> (0 <= acc)%Z ->
  (0 <= fold_left (fun acc c => (acc * 10 + digit_val c)%Z) d acc)%Z.
Proof.
  revert acc. induction d as [|a d IH]; intros acc Hd Hacc; simpl; [exact Hacc|].
  simpl in Hd. apply andb_true_iff in Hd as [Ha Hd].
  apply IH; [exact Hd|]. pose proof (digit_val_range a Ha). lia.
Qed.

Lemma decimal_nonneg d : forallb is_digit d = true -> (0 <= decimal d)%Z.
Proof. intros Hd. apply fold_decimal_nonneg; [exact Hd|lia]. Qed.

Lemma Atoi_decimal d :
  d <> [] -> forallb is_digit d = true -> (decimal d <= maxInt64)%Z ->
  Atoi d = (decimal d, None).
Proof.
  intros Hne Hd Hmax. pose proof (decimal_nonneg d Hd) as Hnn.
  destruct d as [|a t]; [congruence|].
  assert (Ha : is_digit a = true) by (simpl in Hd; now apply andb_true_iff in Hd).
  destruct (digit_not_sign a Ha) as [Hp Hm].
  unfold Atoi. rewrite Hp, Hm, Hd. fold (decimal (a :: t)).
  assert (Hmin : (minInt64 < 0)%Z) by reflexivity.
  destruct (Z.gtb_spec (decimal (a :: t)) maxInt64); [lia|].
  destruct (Z.ltb_spec (decimal (a :: t)) minInt64); [lia|]. reflexivity.
Qed.

Lemma wrap64_small z : (minInt64 <= z <= maxInt64)%Z -> wrap64 z = z.
Proof.
  unfold wrap64, minInt64, maxInt64. intros Hz.
  rewrite Z.mod_small; lia.
Qed.

Lemma run_PT t c :
  run (LitFold "PT") t c =
  match t with
  | a :: b :: t' => if eqb_fold "P" a && eqb_fold "T" b then [(t', c)] else []
  | _ => []
  end.
Proof.
  change (LitFold "PT") with (Cat (Char (eqb_fold "P")) (Cat (Char (eqb_fold "T")) Empty)).
  destruct t as [|a [|b t']]; cbn [run flat_map]; try reflexivity.
  - destruct (eqb_fold "P" a); reflexivity.
  - destruct (eqb_fold "P" a); cbn [flat_map fst snd run app andb]; [|reflexivity].
    destruct (eqb_fold "T" b); reflexivity.
Qed.

Lemma flat_map_last {A B} (f : A -> list B) (l : list A) (x : A) :
  f x <> [] -> flat_map f (l ++ [x]) <> [].
Proof.
  intros Hx H. rewrite flat_map_app in H. apply app_eq_nil in H as [_ H].
  simpl in H. rewrite app_nil_r in H. contradiction.
Qed.

Lemma durationGroups_nonempty s c : run durationGroups s c <> [].
Proof.
  unfold durationGroups. cbn [run]. rewrite !run_Quest.
  apply flat_map_last. cbn [fst snd]. rewrite run_Quest.
  apply flat_map_last. cbn [fst snd]. rewrite run_Quest.
  intros H. apply app_eq_nil in H as [_ H]. discriminate.
Qed.

Lemma durationPattern_run t :
  run durationPattern t [] =
  match t with
  | a :: b :: t' => if eqb_fold "P" a && eqb_fold "T" b then run durationGroups t' [] else []
  | _ => []
  end.
Proof.
  change durationPattern with (Cat (LitFold "PT") durationGroups).
  cbn [run]. rewrite run_PT.
  destruct t as [|a [|b t']]; try reflexivity.
  destruct (eqb_fold "P" a && eqb_fold "T" b); [|reflexivity].
  cbn [flat_map fst snd]. apply app_nil_r.
Qed.

Lemma leftmost_duration s :
  (hasPT s = false -> leftmost durationPattern s = None)
  /\ (hasPT s = true -> leftmost durationPattern s <> None).
Proof.
  induction s as [|a s IH].
  - split; [reflexivity|discriminate].
  - cbn [leftmost]. rewrite durationPattern_run. cbn [hasPT].
    destruct s as [|b t'].
    + split; [reflexivity|discriminate].
    + destruct (eqb_fold "P" a && eqb_fold "T" b) eqn:E; cbn [orb].
      * split; [discriminate|]. intros _.
        pose proof (durationGroups_nonempty t' []) as Hne.
        destruct (run durationGroups t' []); [contradiction|discriminate].
      * exact IH.
Qed.

Lemma parseDuration_fails_iff s :
  (hasPT s = false -> parseDuration s = (0%Z, Some (errInvalidDuration s)))
  /\ (hasPT s = true -> snd (parseDuration s) = None).
Proof.
  destruct (leftmost_duration s) as [Hn Hy]. unfold parseDuration, FindStringSubmatch.
  split; intros H.
  - rewrite (Hn H). reflexivity.
  - specialize (Hy H). destruct (leftmost durationPattern s) as [[whole c]|]; [|contradiction].
    reflexivity.
Qed.

Lemma valueOf_decimal g :
  digitsOK g -> (decimalOf g <= maxInt64)%Z -> valueOf g = decimalOf g /\ (0 <= decimalOf g)%Z.
Proof.
  destruct g as [d|]; simpl; [|lia]. intros [Hne Hd] Hmax.
  rewrite (Atoi_decimal d Hne Hd Hmax). split; [reflexivity|now apply decimal_nonneg].
Qed.

Lemma parseDuration_minutes hs ms ss :
  digitsOK hs -> digitsOK ms -> digitsOK ss ->
  (decimalOf ss <= maxInt64)%Z ->
  (decimalOf hs * 60 + decimalOf ms + decimalOf ss / 60 <= maxInt64)%Z ->
  parseDuration (durationString hs ms ss)
  = ((decimalOf hs * 60 + decimalOf ms + decimalOf ss / 60)%Z, None).
Proof.
  intros Hh Hm Hs Hsmax Hsum.
  assert (Hnn : (0 <= decimalOf hs /\ 0 <= decimalOf ms /\ 0 <= decimalOf ss)%Z).
  { repeat split; (match goal with |- (0 <= decimalOf ?g)%Z =>
      destruct g; simpl; [apply decimal_nonneg|lia] end);
      match goal with H : digitsOK (Some _) |- _ => apply H end. }
  destruct Hnn as (Hh0 & Hm0 & Hs0).
  assert (Hq : (0 <= decimalOf ss / 60)%Z) by (apply Z.div_pos; lia).
  destruct (valueOf_decimal hs Hh) as [Eh _]; [lia|].
  destruct (valueOf_decimal ms Hm) as [Em _]; [lia|].
  destruct (valueOf_decimal ss Hs Hsmax) as [Es _].
  rewrite parseDuration_formula by assumption.
  rewrite Eh, Em, Es, Z.quot_div_nonneg by lia.
  assert (Hmin : (minInt64 < 0)%Z) by reflexivity.
  rewrite (wrap64_small (decimalOf hs * 60)) by lia.
  rewrite (wrap64_small (decimalOf hs * 60 + decimalOf ms)) by lia.
  rewrite wrap64_small by lia. reflexivity.
Qed.

(** ** Timestamps *)

Lemma fmt_02d_two (z : Z) : (0 <= z < 100)%Z -> fmt_02d z = two z.
Proof.
  intros Hz.
  assert (Hall : forallb (fun n => str_eqb (fmt_02d (Z.of_nat n)) (two (Z.of_nat n)))
                         (seq 0 100) = true) by (vm_compute; reflexivity).
  rewrite forallb_forall in Hall.
  specialize (Hall (Z.to_nat z)).
  rewrite Z2Nat.id in Hall by lia.
  apply str_eqb_eq, Hall, in_seq. lia.
Qed.

(** C7. [formatTimestamp] prints a number of seconds as zero-padded
    HH:MM:SS after discarding the fraction: 0 gives 00:00:00, 3661 gives
    01:01:01 and 61.9 gives 00:01:01; in general the integer part
    h*3600 + m*60 + s prints as the two digits of h, of m and of s. *)
Theorem formatTimestamp_truncates :
  formatTimestamp 0%float = "00:00:00"
  /\ formatTimestamp 3661%float = "01:01:01"
  /\ formatTimestamp 0x1.ef33333333333p+5%float = "00:01:01"
  /\ int_of_float 0x1.ef33333333333p+5%float = 61%Z
  /\ forall (seconds : float) (h m s : Z),
       int_of_float seconds = (h * 3600 + m * 60 + s)%Z ->
       (0 <= h < 100)%Z -> (0 <= m < 60)%Z -> (0 <= s < 60)%Z ->
       formatTimestamp seconds = two h ++ ":" ++ two m ++ ":" ++ two s.
Proof.
  split; [vm_compute; reflexivity|].
  split; [vm_compute; reflexivity|].
  split; [vm_compute; reflexivity|].
  split; [vm_compute; reflexivity|].
  intros seconds h m s Hi Hh Hm Hs.
  unfold formatTimestamp. rewrite Hi.
  assert (Eh : Z.quot (h * 3600 + m * 60 + s) 3600 = h).
  { rewrite Z.quot_div_nonneg by lia. symmetry. apply Z.div_unique with (m * 60 + s)%Z; lia. }
  assert (Er : Z.rem (h * 3600 + m * 60 + s) 3600 = (m * 60 + s)%Z).
  { rewrite Z.rem_mod_nonneg by lia. symmetry. apply Z.mod_unique with h; lia. }
  assert (Em : Z.quot (m * 60 + s) 60 = m).
  { rewrite Z.quot_div_nonneg by lia. symmetry. apply Z.div_unique with s; lia. }
  assert (Es : Z.rem (h * 3600 + m * 60 + s) 60 = s).
  { rewrite Z.rem_mod_nonneg by lia. symmetry. apply Z.mod_unique with (h * 60 + m)%Z; lia. }
  rewrite Eh, Er, Em, Es, !fmt_02d_two by lia. reflexivity.
Qed.

Lemma formatTimestamp_truncates_witness :
  formatTimestamp 0x1.ef33333333333p+5%float = two 0 ++ ":" ++ two 1 ++ ":" ++ two 1.
Proof.
  apply (proj2 (proj2 (proj2 (proj2 formatTimestamp_truncates))));
    [vm_compute; reflexivity | lia | lia | lia].
Defined.

(** ** The duration request *)

(** C10. [GrabDuration] indexes the first item of the response without a
    check: on a response without items it panics (index out of range)
    where [GrabMetadata] returns the not-found error; it returns only
    when the response has an item, and with an item that carries its
    content details it returns the parsed duration. *)
Theorem GrabDuration_needs_an_item :
  forall (W : World) (videoId : str) (o : YouTube),
    service o = true ->
    (forall response,
        VideosList W (List.length (calls o)) ["contentDetails" : str] videoId = inl response ->
        (api.Items response = [] ->
         exists o', GrabDuration W videoId o = Panic indexOutOfRange o')
        /\ ((exists r o', GrabDuration W videoId o = Done r o') -> api.Items response <> [])
        /\ (forall item rest contentDetails,
               api.Items response = item :: rest ->
               api.ContentDetails item = Some contentDetails ->
               exists o', GrabDuration W videoId o
                          = Done (parseDuration (api.Duration contentDetails)) o'))
    /\ (forall response,
          VideosList W (List.length (calls o)) ["snippet" : str; "statistics" : str] videoId
            = inl response ->
          api.Items response = [] ->
          exists o', GrabMetadata W videoId o = Done (None, Some (errNotFound videoId)) o').
Proof.
  intros W videoId o Hs. split.
  - intros response Hr.
    unfold GrabDuration, bind, getService, request, panic, ret.
    rewrite Hs. cbn [negb]. rewrite Hr.
    repeat split.
    + intros ->. eexists. reflexivity.
    + intros (r & o' & Hd) Hnil. rewrite Hnil in Hd. discriminate.
    + intros item rest cd -> Hcd. rewrite Hcd. eexists. reflexivity.
  - intros response Hr Hnil.
    unfold GrabMetadata, initService, bind, getService, request, ret. rewrite Hs.
    rewrite Hr, Hnil. eexists. reflexivity.
Qed.

Lemma GrabDuration_needs_an_item_witness :
  (exists o', GrabDuration (Fixture.world Fixture.noVideos None) "abc"
                {| service := true; normalizeRegex := Some normalizePattern; calls := [EvNewService] |}
              = Panic indexOutOfRange o')
  /\ (exists o', GrabMetadata (Fixture.world Fixture.noVideos None) "abc"
                   {| service := true; normalizeRegex := Some normalizePattern; calls := [EvNewService] |}
                 = Done (None, Some (errNotFound "abc")) o').
Proof.
  pose proof (@GrabDuration_needs_an_item (Fixture.world Fixture.noVideos None) "abc"
                {| service := true; normalizeRegex := Some normalizePattern; calls := [EvNewService] |}
                eq_refl) as [Hd Hm].
  split.
  - exact (proj1 (Hd {| api.Items := [] |} eq_refl) eq_refl).
  - exact (Hm {| api.Items := [] |} eq_refl eq_refl).
Defined.

(** ** Identifier resolution *)

Lemma second_or_empty (m : list str) :
  (if (1 <? List.length m)%nat then nth 1 m [] else []) = nth 1 m [].
Proof. destruct m as [|a [|b t]]; reflexivity. Qed.

Lemma isEmpty_nil (s : str) : isEmpty s = true <-> s = [].
Proof. destruct s; simpl; split; congruence. Qed.

(** What [GetVideoOrPlaylistId] returns once the service is there. *)
Lemma GetVideoOrPlaylistId_run (W : World) (url : str) (o o1 : YouTube) :
  initService W o = Done None o1 ->
  GetVideoOrPlaylistId W url o =
  Done (nth 1 (FindStringSubmatch videoPattern 1 url) [],
        nth 1 (FindStringSubmatch playlistPattern 1 url) [],
        if isEmpty (nth 1 (FindStringSubmatch videoPattern 1 url) [])
           && isEmpty (nth 1 (FindStringSubmatch playlistPattern 1 url) [])
        then Some (errInvalidURL url) else None) o1.
Proof.
  intros Hinit. unfold GetVideoOrPlaylistId, bind. rewrite Hinit.
  rewrite !second_or_empty.
  destruct (isEmpty (nth 1 (FindStringSubmatch videoPattern 1 url) [])
            && isEmpty (nth 1 (FindStringSubmatch playlistPattern 1 url) [])); reflexivity.
Qed.

Lemma playlistId_empty_iff (url : str) :
  nth 1 (FindStringSubmatch playlistPattern 1 url) [] = []
  <-> FindStringSubmatch playlistPattern 1 url = [].
Proof.
  unfold FindStringSubmatch.
  destruct (leftmost playlistPattern url) as [[whole c]|] eqn:E.
  - cbn [seq map nth]. split; [|discriminate].
    intros H. exfalso. exact (playlist_capture_nonempty url whole c E H).
  - split; reflexivity.
Qed.

(** C2, as the code has it. With the service initialised,
    [GetVideoOrPlaylistId] fails with the invalid-URL error exactly when
    the video pattern matches nowhere or matches with an empty
    identifier, and the playlist pattern matches nowhere; when it
    succeeds, one of the two identifiers is not empty. *)
Theorem GetVideoOrPlaylistId_invalid_iff_no_id :
  forall (W : World) (url : str) (o o1 : YouTube),
    initService W o = Done None o1 ->
    exists videoId playlistId err,
      GetVideoOrPlaylistId W url o = Done (videoId, playlistId, err) o1
      /\ (err = Some (errInvalidURL url) <->
          (FindStringSubmatch videoPattern 1 url = []
           \/ nth 1 (FindStringSubmatch videoPattern 1 url) [] = [])
          /\ FindStringSubmatch playlistPattern 1 url = [])
      /\ (err = None \/ err = Some (errInvalidURL url))
      /\ (err = None -> videoId <> [] \/ playlistId <> []).
Proof.
  intros W url o o1 Hinit.
  rewrite (GetVideoOrPlaylistId_run W url o o1 Hinit).
  do 3 eexists. split; [reflexivity|].
  rewrite <- playlistId_empty_iff.
  destruct (nth 1 (FindStringSubmatch videoPattern 1 url) []) as [|a v] eqn:Ev;
    destruct (nth 1 (FindStringSubmatch playlistPattern 1 url) []) as [|b p] eqn:Ep;
    cbn [isEmpty andb].
  - repeat split; auto. discriminate.
  - repeat split; auto; try discriminate. intros [_ H]; discriminate. intros _; now right.
  - repeat split; auto; try discriminate.
    + intros [[H|H] _]; [|discriminate].
      rewrite H in Ev. discriminate.
    + intros _; now left.
  - repeat split; auto; try discriminate. intros [_ H]; discriminate. intros _; now left.
Qed.

Lemma GetVideoOrPlaylistId_invalid_iff_no_id_witness :
  exists videoId playlistId err,
    GetVideoOrPlaylistId (Fixture.world Fixture.allVideos None) Fixture.watchURL NewYouTube
    = Done (videoId, playlistId, err)
           {| service := true; normalizeRegex := Some normalizePattern; calls := [EvNewService] |}
    /\ (err = None -> videoId <> [] \/ playlistId <> []).
Proof.
  destruct (GetVideoOrPlaylistId_invalid_iff_no_id
              (Fixture.world Fixture.allVideos None) Fixture.watchURL NewYouTube
              {| service := true; normalizeRegex := Some normalizePattern; calls := [EvNewService] |}
              eq_refl) as (v & p & e & Hrun & _ & _ & Hok).
  exists v, p, e. split; assumption.
Defined.

(** C2, as stated, fails: the video pattern matches [https://youtu.be/]
    (with an empty identifier), and the URL is refused as invalid. *)
Lemma youtu_be_without_id_is_invalid :
  FindStringSubmatch videoPattern 1 "https://youtu.be/" = ["https://youtu.be/" : str; []]
  /\ GetVideoOrPlaylistId (Fixture.world Fixture.allVideos None) "https://youtu.be/" NewYouTube
     = Done ([], [], Some (errInvalidURL "https://youtu.be/"))
            {| service := true; normalizeRegex := Some normalizePattern; calls := [EvNewService] |}.
Proof. split; vm_compute; reflexivity. Qed.

(** ** Durations *)

Lemma GrabDuration_run (W : World) (videoId : str) (o : YouTube)
    (response : api.VideoListResponse) (item : api.Video) (rest : list api.Video)
    (contentDetails : api.VideoContentDetails) :
  service o = true ->
  VideosList W (List.length (calls o)) ["contentDetails" : str] videoId = inl response ->
  api.Items response = item :: rest ->
  api.ContentDetails item = Some contentDetails ->
  GrabDuration W videoId o
  = Done (parseDuration (api.Duration contentDetails))
         {| service := service o; normalizeRegex := normalizeRegex o;
            calls := calls o ++ [EvVideosList ["contentDetails" : str] videoId] |}.
Proof.
  destruct o as [sv nr cl]. cbn [service normalizeRegex calls].
  intros -> Hr Hi Hc. unfold GrabDuration, bind, getService, request, ret.
  cbn [negb service normalizeRegex calls]. rewrite Hr, Hi, Hc. reflexivity.
Qed.

(** C4. [GrabDuration] returns what the duration string of the first
    item parses to: PT1H2M3S gives 62, PT15S gives 0 and PT gives 0,
    without error; a string where no P is directly followed by a T is
    refused as an invalid duration, every other string is accepted; and
    a string PT[h]H[m]M[s]S, each group optional, gives
    h*60 + m + s div 60 whole minutes (within the range of [int]). *)
Theorem parseDuration_whole_minutes :
  (forall (W : World) (videoId : str) (o : YouTube) response item rest contentDetails,
      service o = true ->
      VideosList W (List.length (calls o)) ["contentDetails" : str] videoId = inl response ->
      api.Items response = item :: rest ->
      api.ContentDetails item = Some contentDetails ->
      exists o', GrabDuration W videoId o
                 = Done (parseDuration (api.Duration contentDetails)) o')
  /\ parseDuration "PT1H2M3S" = (62%Z, None)
  /\ parseDuration "PT15S" = (0%Z, None)
  /\ parseDuration "PT" = (0%Z, None)
  /\ (forall s, hasPT s = false -> parseDuration s = (0%Z, Some (errInvalidDuration s)))
  /\ (forall s, hasPT s = true -> snd (parseDuration s) = None)
  /\ (forall hs ms ss : option str,
        digitsOK hs -> digitsOK ms -> digitsOK ss ->
        (decimalOf ss <= maxInt64)%Z ->
        (decimalOf hs * 60 + decimalOf ms + decimalOf ss / 60 <= maxInt64)%Z ->
        parseDuration (durationString hs ms ss)
        = ((decimalOf hs * 60 + decimalOf ms + decimalOf ss / 60)%Z, None)).
Proof.
  split.
  { intros W videoId o response item rest cd Hs Hr Hi Hc.
    eexists. exact (GrabDuration_run W videoId o response item rest cd Hs Hr Hi Hc). }
  split; [vm_compute; reflexivity|].
  split; [vm_compute; reflexivity|].
  split; [vm_compute; reflexivity|].
  split; [intros s; apply parseDuration_fails_iff|].
  split; [intros s; apply parseDuration_fails_iff|].
  exact parseDuration_minutes.
Qed.

Lemma parseDuration_whole_minutes_witness :
  parseDuration (durationString (Some ("1" : str)) (Some ("2" : str)) (Some ("63" : str)))
  = (63%Z, None).
Proof.
  apply (proj2 (proj2 (proj2 (proj2 (proj2 (proj2 parseDuration_whole_minutes)))))
           (Some ("1" : str)) (Some ("2" : str)) (Some ("63" : str)));
    try (split; [discriminate|reflexivity]); vm_compute; discriminate.
Defined.

(** ** Transcripts, track selection and the aggregate *)

Lemma prefixb_through_replace (q : str) :
  forallb (fun x => negb (Ascii.eqb x "&") && negb (Ascii.eqb x "'")) q = true ->
  forall n s, prefixb q (replaceAll n s entity apostrophe) = true -> prefixb q s = true.
Proof.
  induction q as [|x q IH]; intros Hq n s H; [reflexivity|].
  simpl in Hq. apply andb_true_iff in Hq as [Hx Hq].
  apply andb_true_iff in Hx as [_ Hx]. apply negb_true_iff in Hx.
  destruct n as [|n]; [exact H|].
  destruct s as [|c s]; [exact H|].
  cbn [replaceAll] in H.
  destruct (prefixb entity (c :: s)).
  - cbn in H. rewrite Hx in H. discriminate.
  - cbn [prefixb] in *. apply andb_true_iff in H as [Hc H].
    rewrite Hc. cbn [andb]. exact (IH Hq n s H).
Qed.

Lemma replaceAll_no_entity n s :
  (List.length s <= n)%nat -> Contains (replaceAll n s entity apostrophe) entity = false.
Proof.
  revert s. induction n as [|n IH]; intros s Hlen.
  - destruct s; [reflexivity|simpl in Hlen; lia].
  - destruct s as [|c s]; [reflexivity|].
    cbn [replaceAll]. destruct (prefixb entity (c :: s)) eqn:Ep.
    + change (apostrophe ++ ?r) with ("'"%char :: r).
      cbn [app apostrophe list_ascii_of_string Contains].
      rewrite IH.
      * reflexivity.
      * rewrite length_skipn. simpl in *. lia.
    + cbn [Contains]. rewrite IH by (simpl in Hlen; lia).
      rewrite orb_false_r.
      destruct (prefixb entity (c :: replaceAll n s entity apostrophe)) eqn:E; [|reflexivity].
      exfalso. change entity with ("&"%char :: list_ascii_of_string "#39;") in E, Ep.
      cbn [prefixb] in E, Ep. apply andb_true_iff in E as [Hc E].
      rewrite Hc in Ep. cbn [andb] in Ep.
      apply (prefixb_through_replace "#39;" eq_refl n s) in E.
      rewrite E in Ep. discriminate.
Qed.

Lemma unescape_no_entity s : Contains (unescapeApostrophe s) entity = false.
Proof. apply replaceAll_no_entity. apply Nat.le_refl. Qed.

Lemma prefixb_before_space (q : str) :
  forallb (fun x => negb (Ascii.eqb x " ")) q = true ->
  forall a b, prefixb q (a ++ " "%char :: b) = true -> prefixb q a = true.
Proof.
  induction q as [|x q IH]; intros Hq a b H; [reflexivity|].
  simpl in Hq. apply andb_true_iff in Hq as [Hx Hq]. apply negb_true_iff in Hx.
  destruct a as [|y a]; cbn [app prefixb] in *.
  - rewrite Hx in H. discriminate.
  - apply andb_true_iff in H as [Hy H]. rewrite Hy. exact (IH Hq a b H).
Qed.

Lemma Contains_space a b :
  Contains a entity = false -> Contains b entity = false ->
  Contains (a ++ " " ++ b) entity = false.
Proof.
  intros Ha Hb. change (" " ++ b) with (" "%char :: b).
  induction a as [|y a IH].
  - cbn [app Contains]. rewrite Hb. reflexivity.
  - cbn [app Contains] in *. apply orb_false_iff in Ha as [Hp Ha].
    rewrite (IH Ha), orb_false_r.
    destruct (prefixb entity (y :: a ++ " "%char :: b)) eqn:E; [|reflexivity].
    change (y :: a ++ " "%char :: b) with ((y :: a) ++ " "%char :: b) in E.
    rewrite (prefixb_before_space entity eq_refl _ _ E) in Hp. discriminate.
Qed.

Lemma writeTexts_no_entity textTags : Contains (writeTexts textTags) entity = false.
Proof.
  induction textTags as [|t rest IH]; [reflexivity|].
  cbn [writeTexts]. apply Contains_space; [apply unescape_no_entity|exact IH].
Qed.

Lemma writeTexts_eachFollowedBySpace textTags :
  writeTexts textTags
  = eachFollowedBySpace (map (fun n => unescapeApostrophe (Text n)) textTags).
Proof.
  induction textTags as [|t rest IH]; [reflexivity|].
  cbn [writeTexts map]. unfold eachFollowedBySpace in *. cbn [flat_map].
  rewrite IH, <- app_assoc. reflexivity.
Qed.

Lemma GrabTranscript_ok W L videoId language o transcript o' :
  GrabTranscriptBase W L videoId language o = Done (transcript, None) o' ->
  GrabTranscript W L videoId language o
  = Done (writeTexts (soupFindAll L transcript "text"), None) o'.
Proof. intros H. unfold GrabTranscript, bind. rewrite H. reflexivity. Qed.

Lemma GrabTranscript_result W L videoId language o r e o' :
  GrabTranscript W L videoId language o = Done (r, e) o' ->
  (exists transcript, r = writeTexts (soupFindAll L transcript "text") /\ e = None)
  \/ (r = [] /\ e <> None).
Proof.
  unfold GrabTranscript, bind.
  destruct (GrabTranscriptBase W L videoId language o) as [[t [err|]] o1|]; [| |discriminate].
  - intros [= <- <- <-]. right. split; [reflexivity|discriminate].
  - intros [= <- <- <-]. left. eexists. split; reflexivity.
Qed.

Lemma findLangMatch_find L language tracks :
  findLangMatch L language tracks
  = option_map BaseURL (List.find (langIs L language) tracks).
Proof.
  induction tracks as [|t rest IH]; [reflexivity|].
  cbn [findLangMatch List.find]. unfold langIs at 1.
  destruct (langParam L (BaseURL t)) as [v|]; [|exact IH].
  destruct (str_eqb v language); [reflexivity|exact IH].
Qed.

Lemma selectTrack_selected L language tracks :
  selectTrack L language tracks
  = if isEmpty (selectedURL L language tracks) then inr errNoSuitableURL
    else inl (selectedURL L language tracks).
Proof.
  unfold selectTrack, selectedURL. rewrite findLangMatch_find.
  destruct (List.find (langIs L language) tracks); reflexivity.
Qed.

Lemma initService_result W o r o' :
  initService W o = Done r o' -> r = None -> service o' = true.
Proof.
  unfold initService, bind, getService, request, setService, ret.
  destruct (service o) eqn:Es.
  - intros [= <- <-] _. exact Es.
  - destruct (NewService W (List.length (calls o))); intros [= <- <-]; [discriminate|reflexivity].
Qed.

Lemma GrabMetadata_error W videoId o v e o' :
  GrabMetadata W videoId o = Done (v, Some e) o' -> v = None.
Proof.
  unfold GrabMetadata, bind, request, ret, panic.
  destruct (initService W o) as [[err|] o1|]; [intros [= <- _ _]; reflexivity| |discriminate].
  destruct (VideosList _ _ _ _) as [response|err]; [|intros [= <- _ _]; reflexivity].
  destruct (api.Items response) as [|video rest]; [intros [= <- _ _]; reflexivity|].
  destruct (api.Statistics video), (api.Snippet video); discriminate.
Qed.

Lemma parseDuration_error s v e : parseDuration s = (v, Some e) -> v = 0%Z.
Proof.
  unfold parseDuration.
  destruct (Nat.eqb _ 0); intros [= <- _]; reflexivity.
Qed.

Lemma GrabDuration_error W videoId o v e o' :
  GrabDuration W videoId o = Done (v, Some e) o' -> v = 0%Z.
Proof.
  unfold GrabDuration, bind, getService, request, ret, panic.
  destruct (negb (service o)); [discriminate|].
  destruct (VideosList _ _ _ _) as [response|err]; [|intros [= <- _ _]; reflexivity].
  destruct (api.Items response) as [|item rest]; [discriminate|].
  destruct (api.ContentDetails item) as [cd|]; [|discriminate].
  intros [= H _]. exact (parseDuration_error _ _ _ H).
Qed.

Lemma GrabComments_error W videoId o v e o' :
  GrabComments W videoId o = Done (v, Some e) o' -> v = [].
Proof.
  unfold GrabComments, bind, request, ret, panic.
  destruct (initService W o) as [[err|] o1|]; [intros [= <- _ _]; reflexivity| |discriminate].
  destruct (CommentThreadsList _ _ _) as [response|err];
    [destruct (appendThreads _ _); discriminate|].
  intros [= <- _ _]; reflexivity.
Qed.

Lemma GrabTranscript_error W L videoId language o v e o' :
  GrabTranscript W L videoId language o = Done (v, Some e) o' -> v = [].
Proof.
  unfold GrabTranscript, bind, ret.
  destruct (GrabTranscriptBase W L videoId language o) as [[t [err|]] o1|]; [|discriminate|discriminate].
  intros [= <- _ _]; reflexivity.
Qed.

Lemma GrabTranscriptWithTimestamps_error W L videoId language o v e o' :
  GrabTranscriptWithTimestamps W L videoId language o = Done (v, Some e) o' -> v = [].
Proof.
  unfold GrabTranscriptWithTimestamps, bind, ret.
  destruct (GrabTranscriptBase W L videoId language o) as [[t [err|]] o1|]; [|discriminate|discriminate].
  intros [= <- _ _]; reflexivity.
Qed.

Ltac field call lemma :=
  match goal with
  | |- context [call ?o] =>
      let E := fresh "E" in
      destruct (call o) as [[? [?|]] ?|] eqn:E;
      [ apply lemma in E; subst; reflexivity
      | cbv beta iota delta [option_map]
      | reflexivity ]
  end.

Lemma Grab_refines W L url options o :
  Grab W L url options o = GrabSharedSlot W L url options o.
Proof.
  unfold Grab, GrabSharedSlot, aggregate, bind.
  destruct (GetVideoOrPlaylistId W url o) as [[[videoId playlistId] [err|]] o0|];
    [reflexivity| |reflexivity].
  destruct (isEmpty videoId && negb (isEmpty playlistId)); [reflexivity|].
  unfold fieldOrder. cbn [failFast requested]. unfold grabField, fetchField, bind, ret.
  cbv beta iota delta [option_map].
  destruct (Options.Metadata options);
    [field (GrabMetadata W videoId) GrabMetadata_error|];
  (destruct (Options.Duration options);
    [field (GrabDuration W videoId) GrabDuration_error|]);
  (destruct (Options.Comments options);
    [field (GrabComments W videoId) GrabComments_error|]);
  (destruct (Options.Transcript options);
    [field (GrabTranscript W L videoId "en") GrabTranscript_error|]);
  (destruct (Options.TranscriptWithTimestamps options);
    [field (GrabTranscriptWithTimestamps W L videoId "en") GrabTranscriptWithTimestamps_error|]);
  reflexivity.
Qed.

Lemma GetVideoOrPlaylistId_service W url o videoId playlistId o0 :
  GetVideoOrPlaylistId W url o = Done (videoId, playlistId, None) o0 -> service o0 = true.
Proof.
  unfold GetVideoOrPlaylistId, bind, ret.
  destruct (initService W o) as [[err|] o1|] eqn:E; [discriminate| |discriminate].
  pose proof (initService_result W o None o1 E eq_refl) as Hs.
  destruct (isEmpty _ && isEmpty _); intros [= _ _ <-]; exact Hs.
Qed.

Lemma initService_ready W o : service o = true -> initService W o = Done None o.
Proof. intros Hs. unfold initService, bind, getService, ret. now rewrite Hs. Qed.

Lemma GrabMetadata_calls W videoId o r o' :
  service o = true ->
  GrabMetadata W videoId o = Done r o' ->
  calls o' = calls o ++ [EvVideosList ["snippet" : str; "statistics" : str] videoId].
Proof.
  intros Hs. unfold GrabMetadata, bind. rewrite (initService_ready W o Hs).
  unfold request, ret, panic.
  destruct (VideosList _ _ _ _) as [response|err]; [|intros [= _ <-]; reflexivity].
  destruct (api.Items response) as [|video rest]; [intros [= _ <-]; reflexivity|].
  destruct (api.Statistics video), (api.Snippet video); try discriminate.
  intros [= _ <-]; reflexivity.
Qed.

Lemma GrabMetadata_ok W videoId o m o' :
  GrabMetadata W videoId o = Done (m, None) o' -> exists md, m = Some md.
Proof.
  unfold GrabMetadata, bind, request, ret, panic.
  destruct (initService W o) as [[err|] o1|]; [discriminate| |discriminate].
  destruct (VideosList _ _ _ _) as [response|err]; [|discriminate].
  destruct (api.Items response) as [|video rest]; [discriminate|].
  destruct (api.Statistics video), (api.Snippet video); try discriminate.
  intros [= <- _]. eexists. reflexivity.
Qed.

Lemma GrabDuration_calls W videoId o r o' :
  GrabDuration W videoId o = Done r o' ->
  calls o' = calls o ++ [EvVideosList ["contentDetails" : str] videoId].
Proof.
  unfold GrabDuration, bind, getService, request, ret, panic.
  destruct (negb (service o)); [discriminate|].
  destruct (VideosList _ _ _ _) as [response|err]; [|intros [= _ <-]; reflexivity].
  destruct (api.Items response) as [|item rest]; [discriminate|].
  destruct (api.ContentDetails item) as [cd|]; [|discriminate].
  intros [= _ <-]; reflexivity.
Qed.

Lemma Grab_duration_fails W L url options o videoId playlistId o0 m o1 d e o2 :
  GetVideoOrPlaylistId W url o = Done (videoId, playlistId, None) o0 ->
  isEmpty videoId && negb (isEmpty playlistId) = false ->
  Options.Metadata options = true -> Options.Duration options = true ->
  GrabMetadata W videoId o0 = Done (m, None) o1 ->
  GrabDuration W videoId o1 = Done (d, Some e) o2 ->
  Grab W L url options o
  = Done (Some {| VideoInfo.Transcript := []; VideoInfo.Duration := 0;
                  VideoInfo.Comments := []; VideoInfo.Metadata := m |},
          Some ("error parsing video duration: " ++ e)) o2
  /\ (exists md, m = Some md)
  /\ calls o2 = calls o0 ++ [EvVideosList ["snippet" : str; "statistics" : str] videoId;
                             EvVideosList ["contentDetails" : str] videoId].
Proof.
  intros Hid Hpl Hm Hd Em Ed. split; [|split].
  - unfold Grab, bind. rewrite Hid, Hpl. unfold grabField, bind, ret.
    rewrite Hm, Em, Hd, Ed. rewrite (GrabDuration_error _ _ _ _ _ _ Ed). reflexivity.
  - exact (GrabMetadata_ok _ _ _ _ _ Em).
  - rewrite (GrabDuration_calls _ _ _ _ _ Ed).
    rewrite (GrabMetadata_calls _ _ _ _ _ (GetVideoOrPlaylistId_service _ _ _ _ _ _ Hid) Em).
    rewrite <- app_assoc. reflexivity.
Qed.

Lemma Grab_ignores_Lang W L url options lang o :
  Grab W L url (setLang options lang) o = Grab W L url options o.
Proof. reflexivity. Qed.

Lemma Grab_transcript_only W L url lang o videoId playlistId o0 :
  GetVideoOrPlaylistId W url o = Done (videoId, playlistId, None) o0 ->
  isEmpty videoId && negb (isEmpty playlistId) = false ->
  Grab W L url (Fixture.options false false false true false lang) o
  = match GrabTranscript W L videoId "en" o0 with
    | Done (t, err) o1 => Done (Some (setTranscript VideoInfo.zero t), err) o1
    | Panic msg o1 => Panic msg o1
    end
  /\ Grab W L url (Fixture.options false false false false true lang) o
     = match GrabTranscriptWithTimestamps W L videoId "en" o0 with
       | Done (t, err) o1 => Done (Some (setTranscript VideoInfo.zero t), err) o1
       | Panic msg o1 => Panic msg o1
       end.
Proof.
  intros Hid Hpl. split; unfold Grab, bind; rewrite Hid, Hpl;
    unfold grabField, bind, ret; cbn [Fixture.options Options.Metadata Options.Duration
      Options.Comments Options.Transcript Options.TranscriptWithTimestamps].
  - destruct (GrabTranscript W L videoId "en" o0) as [[t [err|]] o1|]; reflexivity.
  - destruct (GrabTranscriptWithTimestamps W L videoId "en" o0) as [[t [err|]] o1|]; reflexivity.
Qed.

(** C6, as the code has it. The plain transcript is the text of every
    caption node of the caption document, apostrophe entity unescaped,
    each followed by one space (so a transcript with a node ends with a
    space); whatever [GrabTranscript] returns never contains the entity. *)
Theorem GrabTranscript_texts_and_no_entity :
  forall (W : World) (L : Lib) (videoId language : str) (o : YouTube),
    (forall transcript o',
        GrabTranscriptBase W L videoId language o = Done (transcript, None) o' ->
        GrabTranscript W L videoId language o
        = Done (eachFollowedBySpace
                  (map (fun n => unescapeApostrophe (Text n)) (soupFindAll L transcript "text")),
                None) o')
    /\ (forall r e o',
          GrabTranscript W L videoId language o = Done (r, e) o' ->
          Contains r entity = false)
    /\ unescapeApostrophe "it&#39;s" = "it's".
Proof.
  intros W L videoId language o. split; [|split].
  - intros transcript o' H.
    rewrite (GrabTranscript_ok W L videoId language o transcript o' H).
    now rewrite writeTexts_eachFollowedBySpace.
  - intros r e o' H.
    destruct (GrabTranscript_result W L videoId language o r e o' H)
      as [(t & -> & _)|[-> _]]; [apply writeTexts_no_entity|reflexivity].
  - vm_compute. reflexivity.
Qed.

Lemma GrabTranscript_texts_and_no_entity_witness :
  GrabTranscript (Fixture.world Fixture.allVideos None) Fixture.lib "abc" "en" NewYouTube
  = Done (eachFollowedBySpace
            (map (fun n => unescapeApostrophe (Text n))
                 (soupFindAll Fixture.lib Fixture.enDoc "text")), None)
         {| service := true; normalizeRegex := Some normalizePattern;
            calls := [EvNewService; EvHttpGet Fixture.watchURL; EvHttpGet Fixture.enURL] |}.
Proof.
  apply (proj1 (GrabTranscript_texts_and_no_entity
                  (Fixture.world Fixture.allVideos None) Fixture.lib "abc" "en" NewYouTube)).
  vm_compute. reflexivity.
Defined.

(** C6, as stated, fails: the two caption texts come out each followed
    by a space, not joined by single spaces. *)
Lemma transcript_ends_with_a_space :
  GrabTranscript (Fixture.world Fixture.allVideos None) Fixture.lib "abc" "en" NewYouTube
  = Done ("it's fine " : str, None)
         {| service := true; normalizeRegex := Some normalizePattern;
            calls := [EvNewService; EvHttpGet Fixture.watchURL; EvHttpGet Fixture.enURL] |}
  /\ joinWithSpace (map (fun n => unescapeApostrophe (Text n))
                        (soupFindAll Fixture.lib Fixture.enDoc "text"))
     = "it's fine"
  /\ ("it's fine " : str) <> "it's fine".
Proof. repeat split; try (vm_compute; reflexivity). discriminate. Qed.

(** C5, as the code has it. Selection takes the first track whose [lang]
    parameter is the requested language, else the first track of the
    list, and fails only when the URL so chosen is empty; with the tracks
    es, en it takes the second for en and the first for fr. *)
Theorem selectTrack_language_or_first :
  forall (L : Lib) (language : str) (captionTracks : list CaptionTrack),
    selectTrack L language captionTracks
    = (if isEmpty (selectedURL L language captionTracks) then inr errNoSuitableURL
       else inl (selectedURL L language captionTracks))
    /\ (forall first rest,
          captionTracks = first :: rest ->
          forallb (fun t => negb (langIs L language t)) captionTracks = true ->
          BaseURL first <> [] ->
          selectTrack L language captionTracks = inl (BaseURL first))
    /\ selectTrack Fixture.lib "en"
         [ {| BaseURL := Fixture.esURL |}; {| BaseURL := Fixture.enURL |} ] = inl Fixture.enURL
    /\ selectTrack Fixture.lib "fr"
         [ {| BaseURL := Fixture.esURL |}; {| BaseURL := Fixture.enURL |} ] = inl Fixture.esURL.
Proof.
  intros L language captionTracks. split; [apply selectTrack_selected|].
  split; [|split; vm_compute; reflexivity].
  intros first rest -> Hnone Hurl. rewrite selectTrack_selected. unfold selectedURL.
  assert (Hfind : List.find (langIs L language) (first :: rest) = None).
  { clear Hurl. induction (first :: rest) as [|t l IH]; [reflexivity|].
    cbn [forallb List.find] in *. apply andb_true_iff in Hnone as [Ht Hl].
    apply negb_true_iff in Ht. rewrite Ht. exact (IH Hl). }
  rewrite Hfind. destruct (BaseURL first); [congruence|reflexivity].
Qed.

Lemma selectTrack_language_or_first_witness :
  selectTrack Fixture.lib "fr"
    [ {| BaseURL := Fixture.esURL |}; {| BaseURL := Fixture.enURL |} ] = inl Fixture.esURL.
Proof.
  apply (proj1 (proj2 (selectTrack_language_or_first Fixture.lib "fr"
           [ {| BaseURL := Fixture.esURL |}; {| BaseURL := Fixture.enURL |} ]))
         {| BaseURL := Fixture.esURL |} [ {| BaseURL := Fixture.enURL |} ] eq_refl).
  - vm_compute. reflexivity.
  - vm_compute. discriminate.
Defined.

(** C5, as stated, fails: when the first track has no URL and no track
    has the language, selection fails instead of falling back. *)
Lemma fallback_to_empty_url_fails :
  selectTrack Fixture.lib "fr" [ {| BaseURL := [] |}; {| BaseURL := Fixture.enURL |} ]
  = inr errNoSuitableURL.
Proof. vm_compute. reflexivity. Qed.

Lemma Grab_transcripts_in_en W L url options o :
  Grab W L url options o
  = match Grab W L url (withoutTranscripts options) o with
    | Done (Some r, None) o1 => transcriptsIn W L "en" (resolvedId W url o) options r o1
    | other => other
    end.
Proof.
  unfold Grab, resolvedId, bind.
  destruct (GetVideoOrPlaylistId W url o) as [[[videoId playlistId] [err|]] o0|];
    [reflexivity| |reflexivity].
  destruct (isEmpty videoId && negb (isEmpty playlistId)); [reflexivity|].
  unfold grabField, transcriptsIn, bind, ret.
  cbn [withoutTranscripts Options.Metadata Options.Duration Options.Comments
       Options.Transcript Options.TranscriptWithTimestamps].
  destruct (Options.Metadata options);
    [destruct (GrabMetadata W videoId o0) as [[m [e|]] o1|]; [reflexivity| |reflexivity]|];
  (destruct (Options.Duration options);
    [destruct (GrabDuration W videoId _) as [[d [e|]] o2|]; [reflexivity| |reflexivity]|]);
  (destruct (Options.Comments options);
    [destruct (GrabComments W videoId _) as [[c [e|]] o3|]; [reflexivity| |reflexivity]|]);
  (destruct (Options.Transcript options);
    [destruct (GrabTranscript W L videoId "en" _) as [[t [e|]] o4|];
       [reflexivity| |reflexivity]|]);
  (destruct (Options.TranscriptWithTimestamps options);
    [destruct (GrabTranscriptWithTimestamps W L videoId "en" _) as [[t' [e|]] o5|]|]);
  reflexivity.
Qed.

(** C9. For every URL and every value of the options, [Grab] is [Grab]
    without the transcripts followed, when that succeeded, by the
    requested transcripts fetched in the language en for the video the
    URL resolves to: both transcript fetches use en, whatever else is
    requested; [Grab] never reads the language of its options, changing
    it changes nothing; a request for the transcript alone (plain or
    timestamped) is the per-field operation called with en.  In the
    small world, [Grab] asked for the metadata and the transcript in es
    returns the English transcript, where the same steps in es would
    return the Spanish one, as the per-field operation does. *)
Theorem Grab_fetches_transcripts_in_en :
  (forall (W : World) (L : Lib) (url : str) (options : Options.t) (o : YouTube),
      Grab W L url options o
      = match Grab W L url (withoutTranscripts options) o with
        | Done (Some r, None) o1 => transcriptsIn W L "en" (resolvedId W url o) options r o1
        | other => other
        end)
  /\ (forall (W : World) (L : Lib) (url : str) (options : Options.t) (lang : str) (o : YouTube),
        Grab W L url (setLang options lang) o = Grab W L url options o)
  /\ (forall (W : World) (L : Lib) (url lang : str) (o : YouTube) videoId playlistId o0,
        GetVideoOrPlaylistId W url o = Done (videoId, playlistId, None) o0 ->
        isEmpty videoId && negb (isEmpty playlistId) = false ->
        Grab W L url (Fixture.options false false false true false lang) o
        = match GrabTranscript W L videoId "en" o0 with
          | Done (t, err) o1 => Done (Some (setTranscript VideoInfo.zero t), err) o1
          | Panic msg o1 => Panic msg o1
          end
        /\ Grab W L url (Fixture.options false false false false true lang) o
           = match GrabTranscriptWithTimestamps W L videoId "en" o0 with
             | Done (t, err) o1 => Done (Some (setTranscript VideoInfo.zero t), err) o1
             | Panic msg o1 => Panic msg o1
             end)
  /\ (let W := Fixture.world Fixture.allVideos None in
      let options := Fixture.options true false false true false "es" in
      exists r o1 o' o'',
        Grab W Fixture.lib Fixture.watchURL (withoutTranscripts options) NewYouTube
        = Done (Some r, None) o1
        /\ Grab W Fixture.lib Fixture.watchURL options NewYouTube
           = Done (Some (setTranscript r "it's fine "), None) o'
        /\ transcriptsIn W Fixture.lib "es" "abc" options r o1
           = Done (Some (setTranscript r "hola "), None) o'')
  /\ (exists o',
        Grab (Fixture.world Fixture.allVideos None) Fixture.lib Fixture.watchURL
             (Fixture.options false false false true false "es") NewYouTube
        = Done (Some (setTranscript VideoInfo.zero "it's fine "), None) o')
  /\ (exists o',
        GrabTranscript (Fixture.world Fixture.allVideos None) Fixture.lib "abc" "es" NewYouTube
        = Done ("hola " : str, None) o').
Proof.
  split; [exact Grab_transcripts_in_en|].
  split; [exact Grab_ignores_Lang|].
  split; [exact Grab_transcript_only|].
  split; [cbn zeta; do 4 eexists; split; [|split]; vm_compute; reflexivity|].
  split; eexists; vm_compute; reflexivity.
Qed.

Lemma Grab_fetches_transcripts_in_en_witness :
  Grab (Fixture.world Fixture.allVideos None) Fixture.lib Fixture.watchURL
       (Fixture.options false false false true false "es") NewYouTube
  = match GrabTranscript (Fixture.world Fixture.allVideos None) Fixture.lib "abc" "en"
            {| service := true; normalizeRegex := Some normalizePattern;
               calls := [EvNewService] |} with
    | Done (t, err) o1 => Done (Some (setTranscript VideoInfo.zero t), err) o1
    | Panic msg o1 => Panic msg o1
    end.
Proof.
  apply (proj1 (proj1 (proj2 (proj2 Grab_fetches_transcripts_in_en))
                  (Fixture.world Fixture.allVideos None) Fixture.lib Fixture.watchURL "es"
                  NewYouTube "abc" []
                  {| service := true; normalizeRegex := Some normalizePattern;
                     calls := [EvNewService] |} eq_refl eq_refl)).
Defined.

(** C1, as the code has it. [Grab] evaluates the requested fields in the
    order Metadata, Duration, Comments, Transcript,
    TranscriptWithTimestamps and returns at the first failure with that
    field's error and the fields populated before it, nothing later
    being attempted; the two transcript fields share one slot of the
    result, which a failed timestamped fetch leaves empty. In particular,
    with Metadata and Duration requested and the duration fetch failing,
    the result has the metadata, a zero duration and the duration error,
    and only the two video requests were made. *)
Theorem Grab_fail_fast :
  (forall (W : World) (L : Lib) (url : str) (options : Options.t) (o : YouTube),
      Grab W L url options o = GrabSharedSlot W L url options o)
  /\ (forall (W : World) (L : Lib) (url : str) (options : Options.t) (o : YouTube)
             videoId playlistId o0 m o1 d e o2,
        GetVideoOrPlaylistId W url o = Done (videoId, playlistId, None) o0 ->
        isEmpty videoId && negb (isEmpty playlistId) = false ->
        Options.Metadata options = true -> Options.Duration options = true ->
        GrabMetadata W videoId o0 = Done (m, None) o1 ->
        GrabDuration W videoId o1 = Done (d, Some e) o2 ->
        Grab W L url options o
        = Done (Some {| VideoInfo.Transcript := []; VideoInfo.Duration := 0;
                        VideoInfo.Comments := []; VideoInfo.Metadata := m |},
                Some ("error parsing video duration: " ++ e)) o2
        /\ (exists md, m = Some md)
        /\ calls o2 = calls o0 ++ [EvVideosList ["snippet" : str; "statistics" : str] videoId;
                                   EvVideosList ["contentDetails" : str] videoId]).
Proof. split; [exact Grab_refines|exact Grab_duration_fails]. Qed.

Lemma Grab_fail_fast_witness :
  Grab (Fixture.world Fixture.noDetails None) Fixture.lib Fixture.watchURL
       (Fixture.options true true true true false "en") NewYouTube
  = Done (Some {| VideoInfo.Transcript := []; VideoInfo.Duration := 0;
                  VideoInfo.Comments := []; VideoInfo.Metadata := Some Fixture.metadata |},
          Some ("error parsing video duration: " ++ "error getting video details: quotaExceeded"))
         (Fixture.after [EvNewService;
                         EvVideosList ["snippet" : str; "statistics" : str] "abc";
                         EvVideosList ["contentDetails" : str] "abc"]).
Proof.
  apply (proj2 Grab_fail_fast
           (Fixture.world Fixture.noDetails None) Fixture.lib Fixture.watchURL
           (Fixture.options true true true true false "en") NewYouTube
           "abc" [] (Fixture.after [EvNewService])
           (Some Fixture.metadata)
           (Fixture.after [EvNewService;
                           EvVideosList ["snippet" : str; "statistics" : str] "abc"])
           0%Z ("error getting video details: quotaExceeded" : str)
           (Fixture.after [EvNewService;
                           EvVideosList ["snippet" : str; "statistics" : str] "abc";
                           EvVideosList ["contentDetails" : str] "abc"]));
    vm_compute; reflexivity.
Defined.

(** C1, as stated, fails: with both transcripts requested, the plain one
    fetched and the timestamped fetch failing, the result comes back with
    an empty transcript, not with the transcript populated before. *)
Lemma failed_timestamps_empty_the_transcript :
  exists e o',
    Grab (Fixture.world Fixture.allVideos (Some 3)) Fixture.lib Fixture.watchURL
         (Fixture.options false false false true true "en") NewYouTube
    = Done (Some VideoInfo.zero, Some e) o'
    /\ GrabAsSpecified (Fixture.world Fixture.allVideos (Some 3)) Fixture.lib Fixture.watchURL
         (Fixture.options false false false true true "en") NewYouTube
       = Done (Some (setTranscript VideoInfo.zero "it's fine "), Some e) o'
    /\ Grab (Fixture.world Fixture.allVideos (Some 3)) Fixture.lib Fixture.watchURL
         (Fixture.options false false false true true "en") NewYouTube
       <> GrabAsSpecified (Fixture.world Fixture.allVideos (Some 3)) Fixture.lib Fixture.watchURL
            (Fixture.options false false false true true "en") NewYouTube.
Proof.
  do 2 eexists. split; [vm_compute; reflexivity|].
  split; [vm_compute; reflexivity|]. vm_compute. discriminate.
Qed.

(** ** The CSV writer and reader *)

Import csv.

Section Roundtrip.

Variable sp : str -> bool.

Lemma special_false c :
  special c = false ->
  Ascii.eqb c LF = false /\ Ascii.eqb c CR = false
  /\ Ascii.eqb c dquote = false /\ Ascii.eqb c comma = false.
Proof.
  unfold special. intros H.
  apply orb_false_iff in H as [H Hc]. apply orb_false_iff in H as [H Hq].
  apply orb_false_iff in H as [Hl Hr]. auto.
Qed.

Lemma unquoted_plain f : fieldNeedsQuotes sp f = false -> plain f = true.
Proof.
  unfold fieldNeedsQuotes, plain. destruct f as [|c f]; [reflexivity|].
  cbn [isEmpty]. destruct (str_eqb (c :: f) "\."); [discriminate|].
  destruct (existsb special (c :: f)); [discriminate|reflexivity].
Qed.

Lemma parse_unquoted_run f : forall acc fields records rest,
  plain f = true ->
  parse Unquoted acc fields records (f ++ rest)
  = parse Unquoted (rev f ++ acc) fields records rest.
Proof.
  induction f as [|c f IH]; intros acc fields records rest Hf; [reflexivity|].
  unfold plain in Hf. cbn [existsb] in Hf. apply negb_true_iff in Hf.
  apply orb_false_iff in Hf as [Hc Hf].
  destruct (special_false c Hc) as (Hl & _ & Hq & Hm).
  cbn [app parse]. rewrite Hl, Hm, Hq.
  rewrite IH by (unfold plain; now rewrite Hf).
  cbn [rev]. now rewrite <- app_assoc.
Qed.

Lemma parse_quoted_run f : forall acc fields records rest,
  parse Quoted acc fields records (escape f ++ dquote :: rest)
  = parse QuoteSeen (rev f ++ acc) fields records rest.
Proof.
  induction f as [|c f IH]; intros acc fields records rest.
  - cbn [escape app parse rev]. now rewrite Ascii.eqb_refl.
  - cbn [escape]. destruct (Ascii.eqb c dquote) eqn:Ec.
    + apply Ascii.eqb_eq in Ec. subst c.
      cbn [app parse]. rewrite !Ascii.eqb_refl.
      rewrite IH. cbn [rev]. now rewrite <- app_assoc.
    + cbn [app parse]. rewrite Ec. rewrite IH. cbn [rev]. now rewrite <- app_assoc.
Qed.

Lemma comma_facts :
  Ascii.eqb comma LF = false /\ Ascii.eqb comma dquote = false
  /\ Ascii.eqb dquote LF = false /\ Ascii.eqb LF dquote = false
  /\ Ascii.eqb LF comma = false.
Proof. repeat split. Qed.

(** A field followed by a comma, read from the start of a record. *)
Lemma parse_first_field f records rest :
  parse RecordStart [] [] records (encodeField sp f ++ comma :: rest)
  = parse FieldStart [] [f] records rest.
Proof.
  destruct comma_facts as (Hcl & Hcq & Hql & Hlq & Hlc).
  unfold encodeField. destruct (fieldNeedsQuotes sp f) eqn:Eq.
  - cbn [app parse]. rewrite Hql, Ascii.eqb_refl.
    rewrite <- app_assoc. cbn [app]. rewrite parse_quoted_run.
    cbn [parse]. rewrite Hcq, Ascii.eqb_refl.
    now rewrite app_nil_r, rev_involutive.
  - apply unquoted_plain in Eq. destruct f as [|c f].
    + cbn [app parse]. now rewrite Hcl, Hcq, Ascii.eqb_refl.
    + unfold plain in Eq. cbn [existsb] in Eq. apply negb_true_iff in Eq.
      apply orb_false_iff in Eq as [Hc Hf].
      destruct (special_false c Hc) as (Hl & _ & Hq & Hm).
      cbn [app parse]. rewrite Hl, Hq, Hm.
      rewrite parse_unquoted_run by (unfold plain; now rewrite Hf).
      cbn [parse]. rewrite Hcl, Ascii.eqb_refl.
      now rewrite rev_app_distr, rev_involutive.
Qed.

(** The last field of a record, followed by the line end. *)
Lemma parse_last_field f fields records rest :
  parse FieldStart [] fields records (encodeField sp f ++ LF :: rest)
  = match endRecord (rev (f :: fields)) records with
    | inl records' => parse RecordStart [] [] records' rest
    | inr e => inr e
    end.
Proof.
  destruct comma_facts as (Hcl & Hcq & Hql & Hlq & Hlc).
  unfold encodeField. destruct (fieldNeedsQuotes sp f) eqn:Eq.
  - cbn [app parse]. rewrite Hql, Ascii.eqb_refl.
    rewrite <- app_assoc. cbn [app]. rewrite parse_quoted_run.
    cbn [parse]. rewrite Hlq, Hlc, Ascii.eqb_refl.
    now rewrite app_nil_r, rev_involutive.
  - apply unquoted_plain in Eq. destruct f as [|c f].
    + cbn [app parse]. now rewrite Ascii.eqb_refl.
    + unfold plain in Eq. cbn [existsb] in Eq. apply negb_true_iff in Eq.
      apply orb_false_iff in Eq as [Hc Hf].
      destruct (special_false c Hc) as (Hl & _ & Hq & Hm).
      cbn [app parse]. rewrite Hl, Hq, Hm.
      rewrite parse_unquoted_run by (unfold plain; now rewrite Hf).
      cbn [parse]. rewrite Ascii.eqb_refl.
      now rewrite rev_app_distr, rev_involutive.
Qed.

Lemma endRecord_two a b records :
  Forall (fun r => List.length r = 2%nat) records ->
  endRecord [a; b] records = inl ([a; b] :: records).
Proof.
  intros Hall. unfold endRecord.
  destruct (rev records) as [|first tl] eqn:E; [reflexivity|].
  assert (Hin : In first records) by (apply in_rev; rewrite E; now left).
  rewrite Forall_forall in Hall. rewrite (Hall first Hin). reflexivity.
Qed.

Lemma parse_record a b records rest :
  Forall (fun r => List.length r = 2%nat) records ->
  parse RecordStart [] [] records (encodeRecord sp [a; b] ++ rest)
  = parse RecordStart [] [] ([a; b] :: records) rest.
Proof.
  intros Hall. unfold encodeRecord. cbn [encodeFields].
  rewrite <- !app_assoc. cbn [app]. rewrite parse_first_field.
  rewrite parse_last_field. cbn [rev app]. now rewrite endRecord_two.
Qed.

Lemma parse_records rows : forall records,
  Forall (fun r => List.length r = 2%nat) records ->
  parse RecordStart [] [] records (flat_map (fun p => encodeRecord sp (pairRecord p)) rows)
  = inl (rev records ++ map pairRecord rows).
Proof.
  induction rows as [|p rows IH]; intros records Hall.
  - cbn. now rewrite app_nil_r.
  - cbn [flat_map map]. unfold pairRecord at 1. rewrite parse_record by exact Hall.
    rewrite IH by (constructor; [reflexivity|exact Hall]).
    cbn [rev]. now rewrite <- app_assoc.
Qed.

Lemma noCRLF_cons c t :
  noCRLF (c :: t) = negb (Ascii.eqb c CR && firstIsLF t) && noCRLF t.
Proof. destruct t; cbn [noCRLF firstIsLF]; [now rewrite andb_false_r|reflexivity]. Qed.

Lemma firstIsLF_app a b :
  firstIsLF (a ++ b) = if isEmpty a then firstIsLF b else firstIsLF a.
Proof. destruct a; reflexivity. Qed.

Lemma lastIsCR_app a b :
  lastIsCR (a ++ b) = if isEmpty b then lastIsCR a else lastIsCR b.
Proof.
  induction a as [|c a IH].
  - destruct b; reflexivity.
  - cbn [app lastIsCR]. destruct (a ++ b) as [|x y] eqn:E.
    + apply app_eq_nil in E as [-> ->]. reflexivity.
    + rewrite IH. destruct b as [|d b]; [|reflexivity].
      cbn [isEmpty]. rewrite app_nil_r in E. subst a. reflexivity.
Qed.

Lemma noCRLF_app a b :
  noCRLF a = true -> noCRLF b = true -> lastIsCR a && firstIsLF b = false ->
  noCRLF (a ++ b) = true.
Proof.
  induction a as [|c a IH]; intros Ha Hb Hab; [exact Hb|].
  cbn [app]. rewrite noCRLF_cons in *. apply andb_true_iff in Ha as [Hc Ha].
  rewrite firstIsLF_app. destruct a as [|d a].
  - cbn [isEmpty app]. cbn [lastIsCR] in Hab. rewrite Hab, Hb. reflexivity.
  - cbn [isEmpty]. rewrite Hc. cbn [andb]. apply IH; auto.
Qed.

Lemma clean_app a b : clean a -> clean b -> clean (a ++ b).
Proof.
  intros [Ha La] [Hb Lb]. split.
  - apply noCRLF_app; auto. now rewrite La.
  - rewrite lastIsCR_app. destruct (isEmpty b); assumption.
Qed.

Lemma normalize_clean s : clean s -> normalize s = s.
Proof.
  intros [Hn Hl]. induction s as [|c s IH]; [reflexivity|].
  cbn [normalize]. destruct s as [|d s].
  - cbn [lastIsCR] in Hl. now rewrite Hl.
  - cbn [noCRLF] in Hn. apply andb_true_iff in Hn as [Hc Hn].
    apply negb_true_iff in Hc. rewrite Hc. f_equal. apply IH; assumption.
Qed.

Lemma plain_clean f : plain f = true -> clean f.
Proof.
  unfold plain. intros Hf. apply negb_true_iff in Hf.
  induction f as [|c f IH]; [split; reflexivity|].
  cbn [existsb] in Hf. apply orb_false_iff in Hf as [Hc Hf].
  destruct (special_false c Hc) as (_ & Hr & _ & _).
  destruct (IH Hf) as [Hn Hl]. split.
  - rewrite noCRLF_cons, Hr, Hn. reflexivity.
  - cbn [lastIsCR]. destruct f; [exact Hr|exact Hl].
Qed.

Lemma firstIsLF_escape f : firstIsLF (escape f) = firstIsLF f.
Proof.
  destruct f as [|c f]; [reflexivity|]. cbn [escape].
  destruct (Ascii.eqb c dquote) eqn:E; [|reflexivity].
  apply Ascii.eqb_eq in E. subst c. reflexivity.
Qed.

Lemma noCRLF_escape f : noCRLF f = true -> noCRLF (escape f) = true.
Proof.
  induction f as [|c f IH]; intros Hf; [reflexivity|].
  rewrite noCRLF_cons in Hf. apply andb_true_iff in Hf as [Hc Hf].
  cbn [escape]. destruct (Ascii.eqb c dquote) eqn:E.
  - apply Ascii.eqb_eq in E. subst c.
    rewrite !noCRLF_cons. rewrite (IH Hf). reflexivity.
  - rewrite noCRLF_cons, firstIsLF_escape, Hc, (IH Hf). reflexivity.
Qed.

Lemma clean_encodeField f : noCRLF f = true -> clean (encodeField sp f).
Proof.
  intros Hf. unfold encodeField. destruct (fieldNeedsQuotes sp f) eqn:E.
  - split.
    + rewrite noCRLF_cons. change (Ascii.eqb dquote CR) with false. cbn [andb negb].
      apply noCRLF_app; [now apply noCRLF_escape|reflexivity|].
      cbn [firstIsLF]. change (Ascii.eqb dquote LF) with false. apply andb_false_r.
    + change (dquote :: escape f ++ [dquote]) with ((dquote :: escape f) ++ [dquote]).
      rewrite lastIsCR_app. reflexivity.
  - apply plain_clean. now apply unquoted_plain.
Qed.

Lemma clean_encodeRecord a b :
  noCRLF a = true -> noCRLF b = true -> clean (encodeRecord sp [a; b]).
Proof.
  intros Ha Hb. unfold encodeRecord. cbn [encodeFields].
  apply clean_app; [|split; reflexivity].
  apply clean_app; [now apply clean_encodeField|].
  change (comma :: encodeField sp b) with ([comma] ++ encodeField sp b).
  apply clean_app; [split; reflexivity|now apply clean_encodeField].
Qed.

Lemma clean_records rows :
  Forall (fun p => noCRLF (fst p) = true /\ noCRLF (snd p) = true) rows ->
  clean (flat_map (fun p => encodeRecord sp (pairRecord p)) rows).
Proof.
  induction 1 as [|p rows [Ha Hb] _ IH]; [split; reflexivity|].
  cbn [flat_map]. apply clean_app; [|exact IH].
  now apply clean_encodeRecord.
Qed.

(** Writing two-field records and reading them back. *)
Lemma ReadAll_encode rows :
  Forall (fun p => noCRLF (fst p) = true /\ noCRLF (snd p) = true) rows ->
  ReadAll (flat_map (fun p => encodeRecord sp (pairRecord p)) rows) = inl (map pairRecord rows).
Proof.
  intros Hrows. unfold ReadAll. rewrite normalize_clean by now apply clean_records.
  now rewrite parse_records by constructor.
Qed.

End Roundtrip.

(** ** The export *)

Lemma writeVideos_ok (W : World) (L : Lib) :
  (forall n row, csvWrite W n row = None) ->
  forall videos n out,
    writeVideos W L n out videos
    = (out ++ flat_map (fun v => encodeRecord (firstRuneIsSpace L) (csvRow v)) videos, None).
Proof.
  intros Hw. induction videos as [|v videos IH]; intros n out.
  - cbn. now rewrite app_nil_r.
  - cbn [writeVideos flat_map]. rewrite Hw, IH, <- app_assoc. reflexivity.
Qed.

Lemma flat_map_over_map {A B C : Type} (f : B -> list C) (g : A -> B) (l : list A) :
  flat_map f (map g l) = flat_map (fun x => f (g x)) l.
Proof. induction l as [|x l IH]; [reflexivity|]. cbn [map flat_map]. now rewrite IH. Qed.

Lemma SaveVideosToCSV_ok (W : World) (L : Lib) (filename : str)
    (videos : list VideoMeta.t) (o : YouTube) :
  osCreate W (List.length (calls o)) filename = None ->
  (forall n row, csvWrite W n row = None) ->
  SaveVideosToCSV W L filename videos o
  = Done None
      {| service := service o; normalizeRegex := normalizeRegex o;
         calls := (calls o ++ [EvCreate filename])
                  ++ [EvClose filename
                        (flat_map (encodeRecord (firstRuneIsSpace L))
                                  (csvHeader :: map csvRow videos))] |}.
Proof.
  intros Hc Hw. unfold SaveVideosToCSV, bind, request, ret.
  rewrite Hc, Hw, (writeVideos_ok W L Hw). cbn [flat_map].
  rewrite flat_map_over_map. reflexivity.
Qed.

Lemma rows_as_pairs (sp : str -> bool) (videos : list VideoMeta.t) :
  let rows := ("VideoID" : str, "Title" : str)
              :: map (fun v => (VideoMeta.Id v, VideoMeta.Title v)) videos in
  flat_map (encodeRecord sp) (csvHeader :: map csvRow videos)
  = flat_map (fun p => encodeRecord sp (pairRecord p)) rows
  /\ map pairRecord rows = csvHeader :: map csvRow videos.
Proof.
  cbn zeta. split.
  - cbn [flat_map map]. now rewrite !flat_map_over_map.
  - cbn [map]. now rewrite map_map.
Qed.

(** C8, as the code has it. When the file can be created and written,
    [SaveVideosToCSV] leaves in it the header row VideoID, Title followed
    by one row per item with the raw id and title, in list order; read
    back, the file gives exactly these rows whenever no id or title has
    a carriage return directly followed by a line feed; for an empty
    list it gives the header row alone. *)
Theorem SaveVideosToCSV_round_trip :
  forall (W : World) (L : Lib) (filename : str) (videos : list VideoMeta.t) (o : YouTube),
    osCreate W (List.length (calls o)) filename = None ->
    (forall n row, csvWrite W n row = None) ->
    let content := flat_map (encodeRecord (firstRuneIsSpace L))
                            (csvHeader :: map csvRow videos) in
    (exists o',
        SaveVideosToCSV W L filename videos o = Done None o'
        /\ calls o' = calls o ++ [EvCreate filename; EvClose filename content])
    /\ (Forall (fun v => noCRLF (VideoMeta.Id v) = true /\ noCRLF (VideoMeta.Title v) = true)
               videos ->
        ReadAll content = inl (csvHeader :: map csvRow videos))
    /\ (videos = [] -> ReadAll content = inl [csvHeader]).
Proof.
  intros W L filename videos o Hc Hw content.
  assert (Hread : Forall (fun v => noCRLF (VideoMeta.Id v) = true
                                   /\ noCRLF (VideoMeta.Title v) = true) videos ->
                  ReadAll content = inl (csvHeader :: map csvRow videos)).
  { intros Hv. unfold content.
    destruct (rows_as_pairs (firstRuneIsSpace L) videos) as [-> <-].
    apply ReadAll_encode. constructor; [split; reflexivity|].
    apply Forall_map. exact Hv. }
  split; [|split].
  - eexists. split; [exact (SaveVideosToCSV_ok W L filename videos o Hc Hw)|].
    cbn [calls]. now rewrite <- app_assoc.
  - exact Hread.
  - intros ->. apply Hread. constructor.
Qed.

Lemma SaveVideosToCSV_round_trip_witness :
  ReadAll (flat_map (encodeRecord (firstRuneIsSpace Fixture.lib))
             (csvHeader :: map csvRow
                [ {| VideoMeta.Id := "abc"; VideoMeta.Title := "Hello, world";
                     VideoMeta.TitleNormalized := "Hello_world" |} ]))
  = inl [csvHeader; ["abc" : str; "Hello, world" : str]].
Proof.
  apply (proj1 (proj2 (SaveVideosToCSV_round_trip
           (Fixture.world Fixture.allVideos None) Fixture.lib "out.csv"
           [ {| VideoMeta.Id := "abc"; VideoMeta.Title := "Hello, world";
                VideoMeta.TitleNormalized := "Hello_world" |} ]
           NewYouTube eq_refl (fun _ _ => eq_refl)))).
  constructor; [split; reflexivity|constructor].
Defined.

(** C8, as stated, fails: a title with a carriage return and a line feed
    is read back with the line feed alone. *)
Lemma crlf_title_does_not_round_trip :
  let title : str := "x" ++ [CR; LF] ++ "y" in
  let videos := [ {| VideoMeta.Id := "a"; VideoMeta.Title := title;
                     VideoMeta.TitleNormalized := "x_y" |} ] in
  exists content,
    SaveVideosToCSV (Fixture.world Fixture.allVideos None) Fixture.lib "out.csv" videos NewYouTube
    = Done None {| service := false; normalizeRegex := None;
                   calls := [EvCreate "out.csv"; EvClose "out.csv" content] |}
    /\ ReadAll content = inl [csvHeader; ["a" : str; "x" ++ [LF] ++ "y"]]
    /\ ReadAll content <> inl (csvHeader :: map csvRow videos).
Proof.
  cbn zeta. eexists. split; [vm_compute; reflexivity|].
  split; [vm_compute; reflexivity|]. vm_compute. discriminate.
Qed.

(** ** More of the identifier resolution *)

Lemma slashes_app a b : slashes (a ++ b) = (slashes a + slashes b)%nat.
Proof. apply count_occ_app. Qed.

Lemma slashes_none s : forallb notSlash s = true -> slashes s = 0%nat.
Proof.
  induction s as [|a s IH]; [reflexivity|]. cbn [forallb]. intros H.
  apply andb_true_iff in H as [Ha Hs]. unfold slashes in *. cbn [count_occ].
  destruct (ascii_dec a "/") as [->|_]; [discriminate|]. now apply IH.
Qed.

Lemma slashes_slash s : slashes ("/"%char :: s) = S (slashes s).
Proof. unfold slashes. cbn [count_occ]. destruct (ascii_dec "/" "/"); congruence. Qed.

Lemma slashes_suffix t s : suffix t s -> (slashes t <= slashes s)%nat.
Proof. intros [pre ->]. rewrite slashes_app. lia. Qed.

(** [altPath] needs two slashes. *)
Lemma altPath_needs_two_slashes s c : (slashes s <= 1)%nat -> run altPath s c = [].
Proof.
  intros Hs. unfold altPath. cbn [run]. apply flat_map_nil. intros x Hx.
  apply run_Plus_in in Hx as (a & s' & -> & _ & Hsuf & _).
  apply flat_map_nil. intros y Hy.
  apply run_Lit_in in Hy as [Hy _].
  apply flat_map_nil. intros z Hz.
  apply run_Plus_in in Hz as (b & s2 & Hy2 & _ & Hsuf2 & _).
  apply flat_map_nil. intros w Hw. exfalso.
  destruct (fst z) as [|a0 s0] eqn:Ez; [destruct Hw|].
  destruct (Ascii.eqb "/" a0) eqn:E0; [|destruct Hw].
  apply Ascii.eqb_eq in E0. subst a0.
  apply slashes_suffix in Hsuf. apply slashes_suffix in Hsuf2.
  rewrite Hy in Hsuf. rewrite Hy2 in Hsuf.
  unfold slashes in *. cbn [count_occ app list_ascii_of_string] in *.
  destruct (ascii_dec a "/"), (ascii_dec b "/"), (ascii_dec "/" "/"); try congruence; lia.
Qed.

Lemma videoPattern_after_prefix prefix S x tl :
  In prefix videoPrefixes ->
  run videoTail ("y"%char :: S) [] = x :: tl ->
  exists tl', run videoPattern (prefix ++ "y"%char :: S) [] = x :: tl'.
Proof.
  intros Hp Htl. unfold videoPattern.
  remember videoTail as T eqn:HT. simpl in Hp.
  destruct Hp as [<-|[<-|[<-|[<-|[<-|[<-|[]]]]]]]; cbn; rewrite Htl;
    eexists; reflexivity.
Qed.

Lemma videoTail_shape shape X rest c :
  In shape videoShapes ->
  forallb idChar X = true -> forallb notSlash rest = true ->
  startsOutside idChar rest = true ->
  exists tl, run videoTail (shape ++ X ++ rest) c = (rest, (1, X) :: c) :: tl.
Proof.
  intros Hshape HX Hrest Hout.
  assert (HY : slashes (X ++ rest) = 0%nat).
  { apply slashes_none. rewrite forallb_app, Hrest, andb_true_r. apply forallb_forall.
    intros a Ha. apply idChar_notSlash. rewrite forallb_forall in HX. now apply HX. }
  destruct (star_greedy_head idChar X rest HX Hout) as [tl' Hstar].
  assert (Hgroup : forall c0, exists tl, run (Group 1 (Star true idChar)) (X ++ rest) c0
                                  = (rest, (1, X) :: c0) :: tl).
  { intros c0. cbn [run]. rewrite Hstar. cbn [map fst snd]. rewrite consumed_app.
    eexists. reflexivity. }
  assert (Hpath : forall (A : str) c0, forallb notSlash A = true ->
                    run altPath (A ++ "/"%char :: X ++ rest) c0 = []).
  { intros A c0 HA. apply altPath_needs_two_slashes.
    rewrite slashes_app, (slashes_none A HA), slashes_slash, HY. lia. }
  unfold videoTail. cbn [run]. remember (X ++ rest) as Y eqn:EY.
  assert (Hhost : exists tl, run videoHost (shape ++ Y) c = (Y, c) :: tl).
  { unfold videoHost, videoPathAlts. simpl in Hshape.
    remember altPath as AP eqn:HAP.
    destruct Hshape as [<-|[<-|[<-|[<-|[<-|[<-|[]]]]]]].
    - eexists. cbn. reflexivity.
    - eexists. cbn. reflexivity.
    - pose proof (Hpath "embed" c eq_refl) as Hp. cbn in Hp.
      cbn. rewrite Hp. eexists. cbn. reflexivity.
    - pose proof (Hpath "e" c eq_refl) as Hp. cbn in Hp.
      cbn. rewrite Hp. eexists. cbn. reflexivity.
    - pose proof (Hpath "v" c eq_refl) as Hp. cbn in Hp.
      cbn. rewrite Hp. eexists. cbn. reflexivity.
    - pose proof (Hpath "shorts" c eq_refl) as Hp. cbn in Hp.
      cbn. rewrite Hp. eexists. cbn. reflexivity. }
  destruct Hhost as [tlh ->]. cbn [flat_map fst snd].
  destruct (Hgroup c) as [tlg Hg]. subst Y. cbn [run] in Hg. cbn [run]. rewrite Hg.
  eexists. reflexivity.
Qed.

Lemma videoPattern_shape prefix shape X rest :
  In prefix videoPrefixes -> In shape videoShapes ->
  forallb idChar X = true -> forallb notSlash rest = true ->
  startsOutside idChar rest = true ->
  FindStringSubmatch videoPattern 1 (prefix ++ shape ++ X ++ rest)
  = [prefix ++ shape ++ X; X].
Proof.
  intros Hp Hshape HX Hrest Hout.
  destruct (videoTail_shape shape X rest [] Hshape HX Hrest Hout) as [tl Htl].
  assert (Hrun : exists tl', run videoPattern (prefix ++ shape ++ X ++ rest) []
                             = (rest, [(1, X)]) :: tl').
  { simpl in Hshape.
    destruct Hshape as [<-|[<-|[<-|[<-|[<-|[<-|[]]]]]]];
      cbn [app list_ascii_of_string] in Htl |- *;
      exact (videoPattern_after_prefix prefix _ _ _ Hp Htl). }
  destruct Hrun as [tl' Hrun].
  unfold FindStringSubmatch. erewrite leftmost_head by exact Hrun.
  cbn [fst snd seq map group Nat.eqb].
  replace (prefix ++ shape ++ X ++ rest) with ((prefix ++ shape ++ X) ++ rest)
    by (rewrite <- !app_assoc; reflexivity).
  rewrite consumed_app. reflexivity.
Qed.

(** Every result of the engine is a remainder of the input. *)
Lemma run_suffix r : forall s c x, In x (run r s c) -> suffix (fst x) s.
Proof.
  induction r as [|p|r1 IH1 r2 IH2|r1 IH1 r2 IH2|g p|n r IH]; intros s c x Hx; cbn [run] in Hx.
  - destruct Hx as [<-|[]]. apply suffix_refl.
  - destruct s as [|a s]; [destruct Hx|]. destruct (p a); [|destruct Hx].
    destruct Hx as [<-|[]]. apply suffix_cons, suffix_refl.
  - apply in_flat_map in Hx as (y & Hy & Hx).
    apply IH1 in Hy as [pre1 ->]. apply IH2 in Hx as [pre2 Hx].
    exists (pre1 ++ pre2). rewrite Hx, app_assoc. reflexivity.
  - apply in_app_iff in Hx as [Hx|Hx]; [now apply IH1 in Hx|now apply IH2 in Hx].
  - apply in_map_iff in Hx as (t & <- & Ht). cbn [fst].
    destruct g; [now apply star_greedy_suffix in Ht|now apply star_lazy_suffix in Ht].
  - apply in_map_iff in Hx as (y & <- & Hy). cbn [fst]. now apply IH in Hy.
Qed.

Lemma leftmost_none r s :
  (forall t, suffix t s -> run r t [] = []) -> leftmost r s = None.
Proof.
  induction s as [|a s IH]; intros H; cbn [leftmost].
  - now rewrite (H [] (suffix_refl [])).
  - rewrite (H (a :: s) (suffix_refl _)). apply IH.
    intros t Ht. apply H. now apply suffix_cons.
Qed.

Lemma prefixb_app p s : prefixb p (p ++ s) = true.
Proof. induction p as [|a p IH]; [reflexivity|]. cbn. now rewrite Ascii.eqb_refl. Qed.

Lemma Contains_occurrence pre sub post : Contains (pre ++ sub ++ post) sub = true.
Proof.
  induction pre as [|a pre IH].
  - cbn [app]. destruct (sub ++ post) eqn:E; cbn [Contains]; rewrite <- E, prefixb_app; reflexivity.
  - cbn [app Contains]. rewrite IH. apply orb_true_r.
Qed.

Lemma videoHost_literal s c y :
  In y (run videoHost s c) ->
  (exists post, s = "youtube.com/" ++ post) \/ (exists post, s = "youtu.be/" ++ post).
Proof.
  unfold videoHost. cbn [run]. rewrite in_app_iff. intros [H|H].
  - apply in_flat_map in H as (z & Hz & _). apply run_Lit_in in Hz as [-> _]. left. eauto.
  - apply run_Lit_in in H as [-> _]. right. eauto.
Qed.

Lemma videoPattern_needs_host url :
  Contains url "youtube.com/" = false -> Contains url "youtu.be/" = false ->
  FindStringSubmatch videoPattern 1 url = [].
Proof.
  intros H1 H2. unfold FindStringSubmatch. rewrite leftmost_none; [reflexivity|].
  intros t [pre ->].
  destruct (run videoPattern t []) as [|x tl] eqn:E; [reflexivity|]. exfalso.
  assert (Hx : In x (run videoPattern t [])) by (rewrite E; now left).
  unfold videoPattern in Hx. cbn [run] in Hx.
  apply in_flat_map in Hx as (y1 & Hy1 & Hx).
  apply in_flat_map in Hx as (y2 & Hy2 & Hx).
  apply in_flat_map in Hx as (y3 & Hy3 & _).
  assert (Hs1 : suffix (fst y1) t).
  { apply (run_suffix (Quest (Cat (Lit "http") (Cat (Quest (Lit "s")) (Lit "://")))) t [] y1).
    exact Hy1. }
  assert (Hs2 : suffix (fst y2) (fst y1)).
  { apply (run_suffix (Quest (Lit "www.")) (fst y1) (snd y1) y2). exact Hy2. }
  destruct Hs1 as [p1 ->]. destruct Hs2 as [p2 E2].
  apply videoHost_literal in Hy3 as [[post E3]|[post E3]].
  - rewrite E2, E3 in H1.
    replace (pre ++ p1 ++ p2 ++ "youtube.com/" ++ post)
      with ((pre ++ p1 ++ p2) ++ "youtube.com/" ++ post) in H1
      by (rewrite <- !app_assoc; reflexivity).
    rewrite Contains_occurrence in H1. discriminate.
  - rewrite E2, E3 in H2.
    replace (pre ++ p1 ++ p2 ++ "youtu.be/" ++ post)
      with ((pre ++ p1 ++ p2) ++ "youtu.be/" ++ post) in H2
      by (rewrite <- !app_assoc; reflexivity).
    rewrite Contains_occurrence in H2. discriminate.
Qed.

Lemma idChar_notQuery a : idChar a = true -> notQuery a = true.
Proof. destruct a as [[] [] [] [] [] [] [] []]; vm_compute; congruence. Qed.

Lemma playlist_skip pre s :
  forallb notQuery pre = true ->
  leftmost playlistPattern (pre ++ s) = leftmost playlistPattern s.
Proof.
  induction pre as [|a pre IH]; intros H; [reflexivity|].
  cbn [forallb] in H. apply andb_true_iff in H as [Ha H].
  cbn [app leftmost]. unfold playlistPattern at 1. cbn [run].
  unfold notQuery in Ha. apply negb_true_iff in Ha. rewrite Ha. cbn [flat_map].
  exact (IH H).
Qed.

Lemma playlist_at_list q Y rest :
  one_of "?&" q = true ->
  Y <> [] -> forallb idChar Y = true -> startsOutside idChar rest = true ->
  leftmost playlistPattern (q :: "list=" ++ Y ++ rest) = Some (q :: "list=" ++ Y, [(1%nat, Y)]).
Proof.
  intros Hq Hne HY Hout. destruct Y as [|a Y]; [congruence|].
  cbn [forallb] in HY. apply andb_true_iff in HY as [Ha HY].
  destruct (star_greedy_head idChar Y rest HY Hout) as [tl Hstar].
  assert (Hrun : exists tl', run playlistPattern (q :: "list=" ++ (a :: Y) ++ rest) []
                             = (rest, [(1%nat, a :: Y)]) :: tl').
  { unfold playlistPattern.
    cbn [run]. rewrite Hq. cbn [flat_map fst snd].
    rewrite run_Lit_app. cbn [flat_map fst snd]. unfold Plus. cbn [run app].
    rewrite Ha. cbn [flat_map fst snd]. rewrite Hstar. cbn [map fst snd app].
    change (a :: Y ++ rest) with ((a :: Y) ++ rest). rewrite consumed_app.
    eexists. reflexivity. }
  destruct Hrun as [tl' Hrun]. erewrite leftmost_head by exact Hrun.
  cbn [fst snd].
  replace (q :: "list=" ++ (a :: Y) ++ rest) with ((q :: "list=" ++ a :: Y) ++ rest)
    by (cbn [app]; rewrite <- app_assoc; reflexivity).
  now rewrite consumed_app.
Qed.

Lemma playlist_in_watch_url prefix X Y rest :
  In prefix videoPrefixes ->
  forallb idChar X = true -> Y <> [] -> forallb idChar Y = true ->
  startsOutside idChar rest = true ->
  FindStringSubmatch playlistPattern 1
    (prefix ++ "youtube.com/watch?v=" ++ X ++ "&list=" ++ Y ++ rest)
  = ["&list=" ++ Y; Y].
Proof.
  intros Hp HX Hne HY Hout. unfold FindStringSubmatch.
  replace (prefix ++ "youtube.com/watch?v=" ++ X ++ "&list=" ++ Y ++ rest)
    with ((prefix ++ "youtube.com/watch") ++ "?"%char :: ("v=" ++ X) ++ "&list=" ++ Y ++ rest)
    by (rewrite <- !app_assoc; reflexivity).
  rewrite playlist_skip.
  2:{ simpl in Hp. destruct Hp as [<-|[<-|[<-|[<-|[<-|[<-|[]]]]]]]; reflexivity. }
  cbn [leftmost]. 
  assert (Hq : run playlistPattern ("?"%char :: ("v=" ++ X) ++ "&list=" ++ Y ++ rest) [] = [])
    by reflexivity.
  rewrite Hq. rewrite playlist_skip.
  2:{ cbn [app list_ascii_of_string forallb]. change (notQuery "v") with true.
      change (notQuery "=") with true. cbn [andb]. apply forallb_forall. intros a Ha.
      apply idChar_notQuery. rewrite forallb_forall in HX. now apply HX. }
  change ("&list=" ++ Y ++ rest) with ("&"%char :: "list=" ++ Y ++ rest).
  rewrite (playlist_at_list "&" Y rest eq_refl Hne HY Hout). reflexivity.
Qed.

Lemma suffix_tails t s : suffix t s -> In t (tails s).
Proof.
  intros [pre ->]. induction pre as [|a pre IH].
  - destruct t; now left.
  - cbn [app tails]. right. exact IH.
Qed.

Lemma suffix_app_split t C Z :
  suffix t (C ++ Z) ->
  (exists c', In c' (tails C) /\ c' <> [] /\ t = c' ++ Z) \/ suffix t Z.
Proof.
  revert t. induction C as [|a C IH]; intros t Ht.
  - now right.
  - destruct Ht as [pre Ht]. destruct pre as [|b pre].
    + left. exists (a :: C). split; [now left|]. split; [discriminate|exact (eq_sym Ht)].
    + cbn [app] in Ht. injection Ht as _ Ht.
      destruct (IH t (ex_intro _ pre Ht)) as [(c' & Hin & Hne & ->)|Hs]; [|now right].
      left. exists c'. split; [now right|]. split; [exact Hne|reflexivity].
Qed.

Lemma altQuery_needs_v s c : Contains s "v=" = false -> run altQuery s c = [].
Proof.
  intros Hs. unfold altQuery. cbn [run]. apply flat_map_nil. intros x Hx.
  apply in_map_iff in Hx as (t & <- & Ht). apply star_lazy_suffix in Ht as [pre ->].
  cbn [fst snd]. apply flat_map_nil. intros y Hy.
  destruct t as [|q t]; [destruct Hy|]. destruct (one_of "?&" q); [|destruct Hy].
  destruct Hy as [<-|[]]. cbn [fst snd].
  destruct (run (Lit "v=") t c) as [|z tl] eqn:E; [reflexivity|]. exfalso.
  assert (Hz : In z (run (Lit "v=") t c)) by (rewrite E; now left).
  apply run_Lit_in in Hz as [-> _].
  replace (pre ++ q :: "v=" ++ fst z) with ((pre ++ [q]) ++ "v=" ++ fst z) in Hs
    by (rewrite <- app_assoc; reflexivity).
  rewrite Contains_occurrence in Hs. discriminate.
Qed.

Lemma videoHost_inv s c y :
  In y (run videoHost s c) ->
  (exists post, s = "youtube.com/" ++ post /\ In y (run videoPathAlts post c))
  \/ (exists post, s = "youtu.be/" ++ post).
Proof.
  unfold videoHost. cbn [run]. rewrite in_app_iff. intros [H|H].
  - apply in_flat_map in H as (z & Hz & Hy). apply run_Lit_in in Hz as [Hs Hc].
    rewrite Hc in Hy. left. eauto.
  - apply run_Lit_in in H as [-> _]. right. eauto.
Qed.

Lemma videoPathAlts_playlist Z c :
  forallb notSlash Z = true -> Contains Z "v=" = false ->
  run videoPathAlts ("playlist?list=" ++ Z) c = [].
Proof.
  intros HZ Hv. unfold videoPathAlts. cbn [run].
  rewrite altPath_needs_two_slashes.
  2:{ rewrite slashes_app, (slashes_none Z HZ). cbn. lia. }
  rewrite altQuery_needs_v.
  2:{ remember Z as Z' in |- *. cbn. subst Z'. exact Hv. }
  reflexivity.
Qed.

Lemma host_contains_slash post h :
  h = ("youtube.com/" : str) \/ h = ("youtu.be/" : str) -> (1 <= slashes (h ++ post))%nat.
Proof. intros [->| ->]; rewrite slashes_app; cbn; lia. Qed.

Lemma video_not_in_playlist_url prefix Y rest :
  In prefix videoPrefixes ->
  forallb idChar Y = true -> forallb notSlash rest = true ->
  Contains (Y ++ rest) "v=" = false ->
  FindStringSubmatch videoPattern 1 (prefix ++ "youtube.com/playlist?list=" ++ Y ++ rest) = [].
Proof.
  intros Hp HY Hrest Hv.
  assert (HZ : forallb notSlash (Y ++ rest) = true).
  { rewrite forallb_app, Hrest, andb_true_r. apply forallb_forall. intros a Ha.
    apply idChar_notSlash. rewrite forallb_forall in HY. now apply HY. }
  remember (Y ++ rest) as Z eqn:EZ. clear EZ HY Hrest Y rest.
  unfold FindStringSubmatch. rewrite leftmost_none; [reflexivity|].
  intros t Ht.
  destruct (run videoPattern t []) as [|x tl] eqn:E; [reflexivity|]. exfalso.
  assert (Hx : In x (run videoPattern t [])) by (rewrite E; now left). clear E.
  unfold videoPattern, videoTail in Hx. cbn [run] in Hx.
  apply in_flat_map in Hx as (y1 & Hy1 & Hx).
  apply in_flat_map in Hx as (y2 & Hy2 & Hx).
  apply in_flat_map in Hx as (y3 & Hy3 & _).
  assert (Hs1 : suffix (fst y1) t).
  { apply (run_suffix (Quest (Cat (Lit "http") (Cat (Quest (Lit "s")) (Lit "://")))) t [] y1).
    exact Hy1. }
  assert (Hs2 : suffix (fst y2) (fst y1)).
  { apply (run_suffix (Quest (Lit "www.")) (fst y1) (snd y1) y2). exact Hy2. }
  assert (Hs3 : suffix (fst y2) ((prefix ++ "youtube.com/playlist?list=") ++ Z)).
  { destruct Hs1 as [p1 E1]. destruct Hs2 as [p2 E2]. destruct Ht as [p0 E0].
    exists (p0 ++ p1 ++ p2). rewrite <- app_assoc, E0, E1, E2.
    now rewrite <- !app_assoc. }
  clear Hs1 Hs2 Ht Hy1 Hy2.
  apply suffix_app_split in Hs3 as [(c' & Hin & Hne & Ec)|Hs3].
  - apply videoHost_inv in Hy3 as [(post & Epost & Halts)|(post & Epost)];
      rewrite Ec in Epost; clear Ec;
      simpl in Hp; destruct Hp as [<-|[<-|[<-|[<-|[<-|[<-|[]]]]]]];
      cbn in Hin;
      repeat (destruct Hin as [<-|Hin];
              [first [discriminate Epost | now (exfalso; apply Hne) | idtac]|]);
      try (destruct Hin);
      cbn in Epost; injection Epost as <-;
      rewrite (videoPathAlts_playlist Z _ HZ Hv) in Halts; destruct Halts.
  - apply videoHost_literal in Hy3.
    assert (Hh : (1 <= slashes (fst y2))%nat).
    { destruct Hy3 as [[post ->]|[post ->]]; apply host_contains_slash; auto. }
    apply slashes_suffix in Hs3. rewrite (slashes_none Z HZ) in Hs3. lia.
Qed.

Lemma playlist_in_playlist_url prefix Y rest :
  In prefix videoPrefixes ->
  Y <> [] -> forallb idChar Y = true -> startsOutside idChar rest = true ->
  FindStringSubmatch playlistPattern 1 (prefix ++ "youtube.com/playlist?list=" ++ Y ++ rest)
  = ["?list=" ++ Y; Y].
Proof.
  intros Hp Hne HY Hout. unfold FindStringSubmatch.
  replace (prefix ++ "youtube.com/playlist?list=" ++ Y ++ rest)
    with ((prefix ++ "youtube.com/playlist") ++ "?"%char :: "list=" ++ Y ++ rest)
    by (rewrite <- !app_assoc; reflexivity).
  rewrite playlist_skip.
  2:{ simpl in Hp. destruct Hp as [<-|[<-|[<-|[<-|[<-|[<-|[]]]]]]]; reflexivity. }
  rewrite (playlist_at_list "?" Y rest eq_refl Hne HY Hout). reflexivity.
Qed.

Lemma run_Lit_nil l s c : prefixb l s = false -> run (Lit l) s c = [].
Proof.
  intros H. destruct (run (Lit l) s c) as [|x tl] eqn:E; [reflexivity|]. exfalso.
  assert (Hx : In x (run (Lit l) s c)) by (rewrite E; now left).
  apply run_Lit_in in Hx as [-> _]. rewrite prefixb_app in H. discriminate.
Qed.

Lemma run_Quest_in r s c x : In x (run (Quest r) s c) -> In x (run r s c) \/ x = (s, c).
Proof.
  unfold Quest. cbn [run]. rewrite in_app_iff. intros [H|[<-|[]]]; auto.
Qed.

Lemma altQuery_path P T c :
  forallb pathSafe P = true ->
  exists tl, run altQuery (P ++ "?v=" ++ T) c = (T, c) :: tl.
Proof.
  intros HP. induction P as [|a P IH].
  - unfold altQuery. eexists. cbn. reflexivity.
  - cbn [forallb] in HP. apply andb_true_iff in HP as [Ha HP].
    unfold pathSafe in Ha. apply andb_true_iff in Ha as [Hs Hq].
    unfold notQuery in Hq. apply negb_true_iff in Hq.
    destruct (IH HP) as [tl Htl]. unfold altQuery in *. cbn [run] in *.
    cbn [app star_lazy map flat_map fst snd run]. rewrite Hs, Hq. cbn [app].
    rewrite Htl. eexists. reflexivity.
Qed.

Lemma altV_shape s c x :
  In x (run altV s c) ->
  prefixb "v/" s = true \/ prefixb "e/" s = true \/ prefixb "embed/" s = true.
Proof.
  unfold altV. cbn [run]. rewrite in_flat_map. intros (y & Hy & Hx).
  apply run_Lit_in in Hx as [Hx _]. apply in_app_iff in Hy as [Hy|Hy].
  - apply run_Lit_in in Hy as [-> _]. rewrite Hx. left. reflexivity.
  - apply in_flat_map in Hy as (z & Hz & Hy). apply run_Lit_in in Hz as [-> _].
    apply run_Quest_in in Hy as [Hy|Hy].
    + apply run_Lit_in in Hy as [-> _]. rewrite Hx. right. right. reflexivity.
    + rewrite Hy in Hx. cbn [fst] in Hx. rewrite Hx. right. left. reflexivity.
Qed.

Lemma altShorts_shape s c x : In x (run altShorts s c) -> prefixb "shorts/" s = true.
Proof.
  unfold altShorts. cbn [run]. rewrite in_flat_map. intros (y & Hy & Hx).
  apply run_Lit_in in Hy as [-> _]. apply in_flat_map in Hx as (z & Hz & Hx).
  apply run_Lit_in in Hz as [-> _]. apply run_Lit_in in Hx as [-> _]. reflexivity.
Qed.

Lemma nil_or_in {A : Type} (l : list A) : l = [] \/ exists x, In x l.
Proof. destruct l as [|x l]; [now left|right; exists x; now left]. Qed.

Lemma pathSafe_idChar_free P :
  forallb pathSafe P = true -> forallb nonSpace P = true.
Proof.
  intros H. apply forallb_forall. intros a Ha. rewrite forallb_forall in H.
  specialize (H a Ha). unfold pathSafe in H. now apply andb_true_iff in H as [H _].
Qed.

Lemma slashes_idChars X : forallb idChar X = true -> slashes X = 0%nat.
Proof.
  intros HX. apply slashes_none. apply forallb_forall. intros a Ha.
  apply idChar_notSlash. rewrite forallb_forall in HX. now apply HX.
Qed.

Lemma videoPathAlts_query mid X rest c :
  forallb pathSafe mid = true ->
  existsb (fun shape => prefixb shape (mid ++ "watch?v=" ++ X ++ rest)) pathShapes = false ->
  (slashes mid + slashes rest <= 1)%nat ->
  forallb idChar X = true ->
  exists tl, run videoPathAlts (mid ++ "watch?v=" ++ X ++ rest) c = (X ++ rest, c) :: tl.
Proof.
  intros Hmid Hshape Hsl HX.
  cbn [existsb pathShapes] in Hshape.
  apply orb_false_iff in Hshape as [Hlive Hshape].
  apply orb_false_iff in Hshape as [Hv Hshape].
  apply orb_false_iff in Hshape as [He Hshape].
  apply orb_false_iff in Hshape as [Hembed Hshape].
  apply orb_false_iff in Hshape as [Hshorts _].
  remember (mid ++ "watch?v=" ++ X ++ rest) as S eqn:ES.
  unfold videoPathAlts. cbn [run].
  unfold altLive. rewrite (run_Lit_nil _ _ _ Hlive). cbn [app].
  rewrite altPath_needs_two_slashes.
  2:{ subst S. rewrite !slashes_app, (slashes_idChars X HX). cbn. lia. }
  cbn [app].
  destruct (nil_or_in (run altV S c)) as [->|[x Hx]].
  2:{ exfalso. apply altV_shape in Hx as [H|[H|H]]; congruence. }
  cbn [app].
  destruct (nil_or_in (run altShorts S c)) as [->|[x Hx]].
  2:{ exfalso. apply altShorts_shape in Hx. congruence. }
  cbn [app]. subst S.
  replace (mid ++ "watch?v=" ++ X ++ rest) with ((mid ++ "watch") ++ "?v=" ++ X ++ rest)
    by (rewrite <- app_assoc; reflexivity).
  apply altQuery_path. rewrite forallb_app, Hmid. reflexivity.
Qed.

Lemma videoTail_query mid X rest c :
  forallb pathSafe mid = true ->
  existsb (fun shape => prefixb shape (mid ++ "watch?v=" ++ X ++ rest)) pathShapes = false ->
  (slashes mid + slashes rest <= 1)%nat ->
  forallb idChar X = true -> startsOutside idChar rest = true ->
  exists tl, run videoTail ("youtube.com/" ++ mid ++ "watch?v=" ++ X ++ rest) c
             = (rest, (1%nat, X) :: c) :: tl.
Proof.
  intros Hmid Hshape Hsl HX Hout. unfold videoTail, videoHost. cbn [run].
  rewrite run_Lit_app. cbn [flat_map fst snd]. rewrite app_nil_r.
  destruct (videoPathAlts_query mid X rest c Hmid Hshape Hsl HX) as [tl ->].
  cbn [app flat_map fst snd run].
  destruct (star_greedy_head idChar X rest HX Hout) as [tl' ->].
  cbn [map fst snd app]. rewrite consumed_app. eexists. reflexivity.
Qed.

(** What the optional scheme and [www.] of the video pattern take. *)
Lemma videoPattern_inv t x :
  In x (run videoPattern t []) ->
  exists q Y, In q videoPrefixes /\ t = q ++ Y /\ In x (run videoTail Y []).
Proof.
  unfold videoPattern. remember videoTail as T eqn:HT. cbn [run].
  rewrite in_flat_map. intros (y1 & Hy1 & Hx).
  apply in_flat_map in Hx as (y2 & Hy2 & Hx).
  assert (H1 : exists q1, (q1 = ([] : str) \/ q1 = ("http://" : str) \/ q1 = ("https://" : str))
                          /\ t = q1 ++ fst y1 /\ snd y1 = []).
  { apply in_app_iff in Hy1 as [Hy1|[<-|[]]]; [|exists []; auto].
    apply in_flat_map in Hy1 as (z1 & Hz1 & Hy1).
    apply run_Lit_in in Hz1 as [Ht Hc1].
    apply in_flat_map in Hy1 as (z2 & Hz2 & Hy1).
    apply run_Lit_in in Hy1 as [E3 Hc3].
    apply in_app_iff in Hz2 as [Hz2|[<-|[]]].
    - apply run_Lit_in in Hz2 as [E2 Hc2].
      exists ("https://" : str). split; [auto|]. split; [|congruence].
      rewrite Ht, E2, E3. reflexivity.
    - cbn [fst snd] in E3, Hc3.
      exists ("http://" : str). split; [auto|]. split; [|congruence].
      rewrite Ht, E3. reflexivity. }
  destruct H1 as (q1 & Hq1 & Ht & Hc1).
  assert (H2 : exists q2, (q2 = ([] : str) \/ q2 = ("www." : str))
                          /\ fst y1 = q2 ++ fst y2 /\ snd y2 = []).
  { apply in_app_iff in Hy2 as [Hy2|[<-|[]]]; [|exists []; auto].
    apply run_Lit_in in Hy2 as [E Hc]. exists ("www." : str). split; [auto|].
    split; [exact E|congruence]. }
  destruct H2 as (q2 & Hq2 & E1 & Hc2).
  exists (q1 ++ q2), (fst y2). rewrite Hc2 in Hx. split; [|split; [|exact Hx]].
  - destruct Hq1 as [->|[->| ->]], Hq2 as [->| ->]; cbn; tauto.
  - rewrite Ht, E1, app_assoc. reflexivity.
Qed.

Lemma videoTail_hostAt Y c x : In x (run videoTail Y c) -> hostAt Y = true.
Proof.
  unfold videoTail. cbn [run]. rewrite in_flat_map. intros (y & Hy & _).
  apply videoHost_literal in Hy as [[post ->]|[post ->]]; unfold hostAt.
  - now rewrite prefixb_app.
  - rewrite (prefixb_app "youtu.be/"). apply orb_true_r.
Qed.

Lemma noHostInside_suffix pre tail l :
  noHostInside pre tail = true -> suffix l pre -> l <> [] -> hostAt (l ++ tail) = false.
Proof.
  induction pre as [|a pre IH]; intros H [p Hl] Hne.
  - destruct p; [|discriminate]. cbn in Hl. congruence.
  - cbn [noHostInside] in H. apply andb_true_iff in H as [Ha H].
    destruct p as [|b p].
    + cbn [app] in Hl. subst l. now apply negb_true_iff in Ha.
    + cbn [app] in Hl. injection Hl as _ Hl. apply IH; [exact H|now exists p|exact Hne].
Qed.

Lemma videoPrefixes_no_y q : In q videoPrefixes -> forallb (fun a => negb (Ascii.eqb a "y")) q = true.
Proof. simpl. intros [<-|[<-|[<-|[<-|[<-|[<-|[]]]]]]]; reflexivity. Qed.

(** A match that begins inside [pre] takes the rest of [pre] as its
    optional scheme and [www.]. *)
Lemma match_inside_prefix pre S x :
  noHostInside pre ("y"%char :: S) = true ->
  In x (run videoPattern (pre ++ "y"%char :: S) []) ->
  In pre videoPrefixes.
Proof.
  intros Hno Hx. apply videoPattern_inv in Hx as (q & Y & Hq & Et & Hx).
  apply videoTail_hostAt in Hx.
  apply app_eq_app in Et as [l [[E1 E2]|[E1 E2]]].
  - destruct l as [|b l]; [rewrite app_nil_r in E1; congruence|].
    rewrite E2 in Hx.
    rewrite (noHostInside_suffix pre _ (b :: l) Hno) in Hx; [discriminate| |discriminate].
    exists q. exact E1.
  - destruct l as [|b l]; [rewrite app_nil_r in E1; congruence|].
    cbn [app] in E2. injection E2 as <- _.
    apply videoPrefixes_no_y in Hq. rewrite E1, forallb_app in Hq.
    apply andb_true_iff in Hq as [_ Hq]. discriminate.
Qed.

Lemma leftmost_first_host pre S x tl :
  noHostInside pre ("y"%char :: S) = true ->
  run videoTail ("y"%char :: S) [] = x :: tl ->
  exists whole, leftmost videoPattern (pre ++ "y"%char :: S) = Some (whole, snd x).
Proof.
  intros Hno Htl. induction pre as [|a pre IH].
  - destruct (videoPattern_after_prefix [] S x tl ltac:(cbn; tauto) Htl) as [tl' Hrun].
    cbn [app] in *. rewrite (leftmost_head _ _ _ _ Hrun). eexists. reflexivity.
  - destruct (run videoPattern ((a :: pre) ++ "y"%char :: S) []) as [|x' tl'] eqn:E.
    + cbn [app leftmost] in *. rewrite E. apply IH.
      cbn [noHostInside] in Hno. now apply andb_true_iff in Hno as [_ Hno].
    + assert (Hin : In x' (run videoPattern ((a :: pre) ++ "y"%char :: S) []))
        by (rewrite E; now left).
      pose proof (match_inside_prefix (a :: pre) S x' Hno Hin) as Hp.
      destruct (videoPattern_after_prefix (a :: pre) S x tl Hp Htl) as [tl'' Hrun].
      rewrite (leftmost_head _ _ _ _ Hrun). eexists. reflexivity.
Qed.

Lemma videoPattern_query pre mid X rest :
  noHostInside pre ("youtube.com/" ++ mid ++ "watch?v=" ++ X ++ rest) = true ->
  forallb pathSafe mid = true ->
  existsb (fun shape => prefixb shape (mid ++ "watch?v=" ++ X ++ rest)) pathShapes = false ->
  (slashes mid + slashes rest <= 1)%nat ->
  forallb idChar X = true -> startsOutside idChar rest = true ->
  nth 1 (FindStringSubmatch videoPattern 1
           (pre ++ "youtube.com/" ++ mid ++ "watch?v=" ++ X ++ rest)) [] = X.
Proof.
  intros Hno Hmid Hshape Hsl HX Hout.
  destruct (videoTail_query mid X rest [] Hmid Hshape Hsl HX Hout) as [tl Htl].
  change ("youtube.com/" ++ mid ++ "watch?v=" ++ X ++ rest)
    with ("y"%char :: "outube.com/" ++ mid ++ "watch?v=" ++ X ++ rest) in *.
  destruct (leftmost_first_host pre _ _ tl Hno Htl) as [whole Hl].
  unfold FindStringSubmatch. rewrite Hl. reflexivity.
Qed.

(** C3, as the code has it. Take a URL in which [youtube.com/], some
    path, [watch?v=], a run X of identifier characters and a rest follow
    any text in which no [youtube.com/] or [youtu.be/] begins; let the
    path between the host and [watch?v=] have no white space, [?] or
    [&], let what follows the host not begin with [live/], [v/], [e/],
    [embed/] or [shorts/], let the path and the rest have at most one
    slash together, and let the rest not begin with an identifier
    character.  Then resolution yields the video identifier X, without
    error when X is not empty, whenever the service can be created;
    when it cannot, resolution returns that error and no identifier;
    and one of the two is always the case. *)
Theorem watch_url_resolves_to_its_id :
  forall (W : World) (o : YouTube) (pre mid X rest : str),
    let path := mid ++ "watch?v=" ++ X ++ rest in
    let url := pre ++ "youtube.com/" ++ path in
    noHostInside pre ("youtube.com/" ++ path) = true ->
    forallb pathSafe mid = true ->
    existsb (fun shape => prefixb shape path) pathShapes = false ->
    (slashes mid + slashes rest <= 1)%nat ->
    forallb idChar X = true ->
    startsOutside idChar rest = true ->
    (forall o1, initService W o = Done None o1 ->
       exists playlistId err,
         GetVideoOrPlaylistId W url o = Done (X, playlistId, err) o1
         /\ (X <> [] -> err = None))
    /\ (forall e o1, initService W o = Done (Some e) o1 ->
          GetVideoOrPlaylistId W url o = Done ([], [], Some e) o1)
    /\ (exists err o1, initService W o = Done err o1).
Proof.
  intros W o pre mid X rest path url Hno Hmid Hshape Hsl HX Hout. split; [|split].
  - intros o1 Hinit. rewrite (GetVideoOrPlaylistId_run W _ o o1 Hinit).
    unfold url, path. rewrite (videoPattern_query pre mid X rest Hno Hmid Hshape Hsl HX Hout).
    do 2 eexists. split; [reflexivity|].
    intros HXne. destruct X; [congruence|reflexivity].
  - intros e o1 Hinit. unfold GetVideoOrPlaylistId, bind. now rewrite Hinit.
  - unfold initService, bind, getService, request, setService, ret.
    destruct (service o); [do 2 eexists; reflexivity|].
    destruct (NewService W (List.length (calls o))); do 2 eexists; reflexivity.
Qed.

Lemma watch_url_resolves_to_its_id_witness :
  exists playlistId err,
    GetVideoOrPlaylistId (Fixture.world Fixture.allVideos None)
      ("see https://m." ++ "youtube.com/" ++ "" ++ "watch?v=" ++ "abc123" ++ "&list=PL1/x")
      NewYouTube
    = Done ("abc123" : str, playlistId, err) (Fixture.after [EvNewService]).
Proof.
  destruct (proj1 (watch_url_resolves_to_its_id
                     (Fixture.world Fixture.allVideos None) NewYouTube
                     "see https://m." "" "abc123" "&list=PL1/x"
                     eq_refl eq_refl eq_refl ltac:(vm_compute; lia) eq_refl eq_refl)
                  (Fixture.after [EvNewService]) eq_refl) as (p & e & Hrun & _).
  exists p, e. exact Hrun.
Defined.

(** C3, as stated, fails: [watch?v=abc] alone does not decide.  On
    another host the URL has no video identifier; after an earlier
    [youtu.be/] the identifier is the one that follows that host; with
    two slashes after it, or after [youtube.com/live/], another
    alternative of the pattern takes the identifier from elsewhere. *)
Lemma watch_parameter_alone_does_not_decide :
  let W := Fixture.world Fixture.allVideos None in
  let o1 := Fixture.after [EvNewService] in
  GetVideoOrPlaylistId W "https://example.com/watch?v=abc" NewYouTube
  = Done ([], [], Some (errInvalidURL "https://example.com/watch?v=abc")) o1
  /\ GetVideoOrPlaylistId W "https://youtu.be/zzz?next=youtube.com/watch?v=abc" NewYouTube
     = Done ("zzz" : str, [], None) o1
  /\ GetVideoOrPlaylistId W "https://www.youtube.com/watch?v=abc/x/y" NewYouTube
     = Done ("y" : str, [], None) o1
  /\ GetVideoOrPlaylistId W "https://www.youtube.com/live/watch?v=abc" NewYouTube
     = Done ("watch" : str, [], None) o1.
Proof. cbn zeta. repeat split; vm_compute; reflexivity. Qed.

(** X1. The video pattern takes the identifier after [youtu.be/] and,
    on youtube.com, after [live/], [embed/], [e/], [v/] and [shorts/]:
    such a URL, with an optional scheme and [www.], resolves to that
    identifier when nothing with a slash follows it. *)
Theorem video_shapes_resolve :
  forall (W : World) (o o1 : YouTube) (prefix shape X rest : str),
    initService W o = Done None o1 ->
    In prefix videoPrefixes -> In shape videoShapes ->
    forallb idChar X = true -> X <> [] ->
    forallb notSlash rest = true -> startsOutside idChar rest = true ->
    exists playlistId,
      GetVideoOrPlaylistId W (prefix ++ shape ++ X ++ rest) o = Done (X, playlistId, None) o1.
Proof.
  intros W o o1 prefix shape X rest Hinit Hp Hs HX Hne Hrest Hout.
  rewrite (GetVideoOrPlaylistId_run W _ o o1 Hinit).
  rewrite (videoPattern_shape prefix shape X rest Hp Hs HX Hrest Hout). cbn [nth].
  eexists. destruct X; [congruence|reflexivity].
Qed.

Lemma video_shapes_resolve_witness :
  exists playlistId,
    GetVideoOrPlaylistId (Fixture.world Fixture.allVideos None)
      ("https://" ++ "youtube.com/shorts/" ++ "Xy_-1" ++ "?feature=share") NewYouTube
    = Done ("Xy_-1" : str, playlistId, None) (Fixture.after [EvNewService]).
Proof.
  apply (video_shapes_resolve (Fixture.world Fixture.allVideos None) NewYouTube
           (Fixture.after [EvNewService]) "https://" "youtube.com/shorts/" "Xy_-1"
           "?feature=share" eq_refl);
    try reflexivity; try discriminate; simpl; tauto.
Defined.

(** X2. A URL in which neither [youtube.com/] nor [youtu.be/] occurs
    never gives a video identifier: it resolves only through a [list=]
    parameter and is refused as invalid otherwise. *)
Theorem url_without_host_has_no_video_id :
  forall (W : World) (url : str) (o o1 : YouTube),
    initService W o = Done None o1 ->
    Contains url "youtube.com/" = false -> Contains url "youtu.be/" = false ->
    exists playlistId err,
      GetVideoOrPlaylistId W url o = Done ([], playlistId, err) o1
      /\ (FindStringSubmatch playlistPattern 1 url = [] -> err = Some (errInvalidURL url))
      /\ (FindStringSubmatch playlistPattern 1 url <> [] -> err = None /\ playlistId <> []).
Proof.
  intros W url o o1 Hinit H1 H2.
  rewrite (GetVideoOrPlaylistId_run W url o o1 Hinit).
  rewrite (videoPattern_needs_host url H1 H2). cbn [nth isEmpty andb].
  do 2 eexists. split; [reflexivity|].
  destruct (nth 1 (FindStringSubmatch playlistPattern 1 url) []) as [|a p] eqn:E.
  - apply playlistId_empty_iff in E. split; [reflexivity|]. intros Hne. contradiction.
  - split.
    + intros Hnil. rewrite Hnil in E. discriminate.
    + intros _. split; [reflexivity|discriminate].
Qed.

Lemma url_without_host_has_no_video_id_witness :
  exists playlistId err,
    GetVideoOrPlaylistId (Fixture.world Fixture.allVideos None)
      "https://vimeo.com/watch?v=abc" NewYouTube
    = Done ([], playlistId, err) (Fixture.after [EvNewService])
    /\ err = Some (errInvalidURL "https://vimeo.com/watch?v=abc").
Proof.
  destruct (url_without_host_has_no_video_id (Fixture.world Fixture.allVideos None)
              "https://vimeo.com/watch?v=abc" NewYouTube (Fixture.after [EvNewService])
              eq_refl eq_refl eq_refl) as (p & e & Hrun & Hbad & _).
  exists p, e. split; [exact Hrun|]. apply Hbad. reflexivity.
Defined.

Lemma GrabTranscriptForUrl_run (W : World) (L : Lib) (url language : str)
    (o o1 : YouTube) (videoId playlistId : str) :
  GetVideoOrPlaylistId W url o = Done (videoId, playlistId, None) o1 ->
  GrabTranscriptForUrl W L url language o
  = if isEmpty videoId && negb (isEmpty playlistId)
    then Done ([], Some errPlaylistNotVideo) o1
    else GrabTranscript W L videoId language o1.
Proof.
  intros H. unfold GrabTranscriptForUrl, bind. rewrite H.
  destruct (isEmpty videoId && negb (isEmpty playlistId)); reflexivity.
Qed.

Lemma GrabDurationForUrl_run (W : World) (url : str) (o o1 : YouTube)
    (videoId playlistId : str) :
  GetVideoOrPlaylistId W url o = Done (videoId, playlistId, None) o1 ->
  GrabDurationForUrl W url o
  = if isEmpty videoId && negb (isEmpty playlistId)
    then Done (0%Z, Some errPlaylistNotVideo) o1
    else GrabDuration W videoId o1.
Proof.
  intros H. pose proof (GetVideoOrPlaylistId_service W url o videoId playlistId o1 H) as Hs.
  unfold GrabDurationForUrl, bind.
  unfold GetVideoOrPlaylistId, bind in H |- *.
  destruct (initService W o) as [[e|] o2|msg o2] eqn:Ei; [| |discriminate].
  - discriminate.
  - assert (Ho : o2 = o1).
    { destruct (isEmpty _ && isEmpty _) in H; unfold ret in H; congruence. }
    subst o2. rewrite (initService_ready W o1 Hs).
    destruct (isEmpty _ && isEmpty _) in H |- *; unfold ret in H |- *; [discriminate|].
    injection H as -> ->.
    destruct (isEmpty videoId && negb (isEmpty playlistId)); reflexivity.
Qed.

(** X3. A watch URL with a [list=] parameter resolves to both
    identifiers, and the per-URL operations treat it as the video: the
    transcript and the duration for the URL are those of the video. *)
Theorem watch_url_with_list_is_a_video :
  forall (W : World) (L : Lib) (o o1 : YouTube) (prefix X Y rest : str),
    initService W o = Done None o1 ->
    In prefix videoPrefixes ->
    forallb idChar X = true -> X <> [] ->
    forallb idChar Y = true -> Y <> [] ->
    forallb notSlash rest = true -> startsOutside idChar rest = true ->
    let url := prefix ++ "youtube.com/watch?v=" ++ X ++ "&list=" ++ Y ++ rest in
    GetVideoOrPlaylistId W url o = Done (X, Y, None) o1
    /\ (forall language,
          GrabTranscriptForUrl W L url language o = GrabTranscript W L X language o1)
    /\ GrabDurationForUrl W url o = GrabDuration W X o1.
Proof.
  intros W L o o1 prefix X Y rest Hinit Hp HX HXne HY HYne Hrest Hout url.
  assert (Hrun : GetVideoOrPlaylistId W url o = Done (X, Y, None) o1).
  { rewrite (GetVideoOrPlaylistId_run W _ o o1 Hinit). unfold url.
    assert (Hr : forallb notSlash ("&list=" ++ Y ++ rest) = true).
    { change ("&list=" ++ Y ++ rest) with (("&list=" : str) ++ Y ++ rest).
      rewrite !forallb_app, Hrest, andb_true_r. apply andb_true_iff. split; [reflexivity|].
      apply forallb_forall. intros a Ha. apply idChar_notSlash.
      rewrite forallb_forall in HY. now apply HY. }
    rewrite (videoPattern_watch prefix X ("&list=" ++ Y ++ rest) Hp HX Hr eq_refl).
    rewrite (playlist_in_watch_url prefix X Y rest Hp HX HYne HY Hout). cbn [nth].
    destruct X; [congruence|]. destruct Y; [congruence|reflexivity]. }
  split; [exact Hrun|]. split.
  - intros language. rewrite (GrabTranscriptForUrl_run W L url language o o1 X Y Hrun).
    destruct X; [congruence|reflexivity].
  - rewrite (GrabDurationForUrl_run W url o o1 X Y Hrun).
    destruct X; [congruence|reflexivity].
Qed.

Lemma watch_url_with_list_is_a_video_witness :
  GetVideoOrPlaylistId (Fixture.world Fixture.allVideos None)
    ("https://www." ++ "youtube.com/watch?v=" ++ "abc" ++ "&list=" ++ "PL1" ++ "&index=2")
    NewYouTube
  = Done ("abc" : str, "PL1" : str, None) (Fixture.after [EvNewService]).
Proof.
  apply (watch_url_with_list_is_a_video (Fixture.world Fixture.allVideos None) Fixture.lib
           NewYouTube (Fixture.after [EvNewService]) "https://www." "abc" "PL1" "&index=2"
           eq_refl);
    try reflexivity; try discriminate; simpl; tauto.
Defined.

(** X4. A playlist URL, [youtube.com/playlist?list=Y], resolves to the
    playlist identifier alone; the aggregate and the per-URL operations
    refuse it as a playlist and make no request for the video. *)
Theorem playlist_url_is_not_a_video :
  forall (W : World) (L : Lib) (o o1 : YouTube) (prefix Y rest : str),
    initService W o = Done None o1 ->
    In prefix videoPrefixes ->
    forallb idChar Y = true -> Y <> [] ->
    forallb notSlash rest = true -> startsOutside idChar rest = true ->
    Contains (Y ++ rest) "v=" = false ->
    let url := prefix ++ "youtube.com/playlist?list=" ++ Y ++ rest in
    GetVideoOrPlaylistId W url o = Done ([], Y, None) o1
    /\ (forall options, Grab W L url options o = Done (None, Some errPlaylistNotVideo) o1)
    /\ (forall language,
          GrabTranscriptForUrl W L url language o = Done ([], Some errPlaylistNotVideo) o1)
    /\ GrabDurationForUrl W url o = Done (0%Z, Some errPlaylistNotVideo) o1.
Proof.
  intros W L o o1 prefix Y rest Hinit Hp HY HYne Hrest Hout Hv url.
  assert (Hrun : GetVideoOrPlaylistId W url o = Done ([], Y, None) o1).
  { rewrite (GetVideoOrPlaylistId_run W _ o o1 Hinit). unfold url.
    rewrite (video_not_in_playlist_url prefix Y rest Hp HY Hrest Hv).
    rewrite (playlist_in_playlist_url prefix Y rest Hp HYne HY Hout). cbn [nth].
    destruct Y; [congruence|reflexivity]. }
  split; [exact Hrun|]. split; [|split].
  - intros options. unfold Grab, bind. rewrite Hrun.
    destruct Y; [congruence|reflexivity].
  - intros language. rewrite (GrabTranscriptForUrl_run W L url language o o1 [] Y Hrun).
    destruct Y; [congruence|reflexivity].
  - rewrite (GrabDurationForUrl_run W url o o1 [] Y Hrun).
    destruct Y; [congruence|reflexivity].
Qed.

Lemma playlist_url_is_not_a_video_witness :
  Grab (Fixture.world Fixture.allVideos None) Fixture.lib
       ("https://www." ++ "youtube.com/playlist?list=" ++ "PL1" ++ "&si=xyz")
       (Fixture.options true true true true true "en") NewYouTube
  = Done (None, Some errPlaylistNotVideo) (Fixture.after [EvNewService]).
Proof.
  apply (proj1 (proj2 (playlist_url_is_not_a_video
           (Fixture.world Fixture.allVideos None) Fixture.lib NewYouTube
           (Fixture.after [EvNewService]) "https://www." "PL1" "&si=xyz" eq_refl
           (or_intror (or_intror (or_intror (or_intror (or_intror (or_introl eq_refl))))))
           eq_refl ltac:(discriminate) eq_refl eq_refl eq_refl))).
Defined.

(** ** File names and playlists *)

Lemma star_greedy_dropRun p s : exists tl, star_greedy p s = dropRun p s :: tl.
Proof.
  induction s as [|c s [tl IH]]; cbn [star_greedy dropRun]; [now exists []|].
  destruct (p c); [|now exists []]. rewrite IH. eexists. reflexivity.
Qed.

Lemma dropRun_length p s : (List.length (dropRun p s) <= List.length s)%nat.
Proof.
  induction s as [|c s IH]; cbn [dropRun]; [lia|].
  destruct (p c); cbn [List.length]; lia.
Qed.

Lemma normalizePattern_run c s :
  run normalizePattern (c :: s) [] =
  if nonAlnum c then
    match star_greedy nonAlnum s with
    | t :: tl => (t, []) :: map (fun s' => (s', [])) tl
    | [] => []
    end
  else [].
Proof.
  change normalizePattern with (Plus nonAlnum). unfold Plus. cbn [run].
  destruct (nonAlnum c); [|reflexivity]. cbn [flat_map fst snd]. rewrite app_nil_r.
  destruct (star_greedy nonAlnum s); reflexivity.
Qed.

Lemma collapse_true_dropRun s : collapse true s = collapse true (dropRun nonAlnum s).
Proof.
  induction s as [|c s IH]; [reflexivity|]. cbn [collapse dropRun]. unfold nonAlnum at 1.
  fold (isAlnum c). destruct (isAlnum c) eqn:E; cbn [negb]; [|exact IH].
  cbn [collapse]. now rewrite E.
Qed.

Lemma collapse_flag flag s :
  match s with c :: _ => isAlnum c = true | [] => True end ->
  collapse flag s = collapse false s.
Proof.
  destruct s as [|c s]; [reflexivity|]. intros Hc. cbn [collapse]. now rewrite Hc.
Qed.

Lemma dropRun_head s :
  match dropRun nonAlnum s with c :: _ => isAlnum c = true | [] => True end.
Proof.
  induction s as [|c s IH]; [exact I|]. cbn [dropRun]. unfold nonAlnum at 1. fold (isAlnum c).
  destruct (isAlnum c) eqn:E; cbn [negb]; [exact E|exact IH].
Qed.

Lemma replaceMatches_collapse n : forall s flag,
  (List.length s < n)%nat ->
  replaceMatches n normalizePattern "_" flag s = collapse false s.
Proof.
  induction n as [|n IH]; intros s flag Hlen; [lia|].
  destruct s as [|c s]; [reflexivity|].
  cbn [replaceMatches]. rewrite normalizePattern_run. cbn [collapse].
  unfold nonAlnum at 1. fold (isAlnum c). cbn [List.length] in Hlen.
  destruct (isAlnum c); cbn [negb].
  - rewrite IH by lia. reflexivity.
  - destruct (star_greedy_dropRun nonAlnum s) as [tl ->]. cbn [fst].
    pose proof (dropRun_length nonAlnum s) as Hd.
    assert (Hlt : (List.length (dropRun nonAlnum s) <? List.length (c :: s))%nat = true)
      by (apply Nat.ltb_lt; cbn [List.length]; lia).
    rewrite Hlt. rewrite IH by lia.
    rewrite collapse_true_dropRun.
    rewrite (collapse_flag true _ (dropRun_head s)). reflexivity.
Qed.

Lemma ReplaceAllString_collapse s :
  ReplaceAllString normalizePattern s "_" = collapse false s.
Proof. apply replaceMatches_collapse. lia. Qed.

Lemma collapse_nameChars flag s : forallb nameChar (collapse flag s) = true.
Proof.
  revert flag. induction s as [|c s IH]; intros flag; [reflexivity|].
  cbn [collapse]. destruct (isAlnum c) eqn:E.
  - cbn [forallb]. unfold nameChar at 1. rewrite E. cbn [orb andb]. apply IH.
  - destruct flag; [apply IH|]. cbn [forallb]. rewrite IH. reflexivity.
Qed.

Lemma underscore_not_alnum : isAlnum "_" = false.
Proof. reflexivity. Qed.

Lemma collapse_true_start s : startsWithUnderscore (collapse true s) = false.
Proof.
  induction s as [|c s IH]; [reflexivity|]. cbn [collapse].
  destruct (isAlnum c) eqn:E; [|exact IH].
  cbn [startsWithUnderscore]. destruct (Ascii.eqb c "_") eqn:Ec; [|reflexivity].
  apply Ascii.eqb_eq in Ec. subst c. discriminate.
Qed.

Lemma Contains_cons_underscores c t :
  Contains (c :: t) "__" = (Ascii.eqb c "_" && startsWithUnderscore t) || Contains t "__".
Proof.
  cbn [Contains]. f_equal. change ("__" : str) with ["_"%char; "_"%char].
  cbn [prefixb]. rewrite (Ascii.eqb_sym "_" c).
  destruct t as [|d t]; cbn [startsWithUnderscore]; [now rewrite andb_false_r|].
  now rewrite (Ascii.eqb_sym "_" d), andb_true_r.
Qed.

Lemma collapse_no_double flag s : Contains (collapse flag s) "__" = false.
Proof.
  revert flag. induction s as [|c s IH]; intros flag; [reflexivity|].
  cbn [collapse]. destruct (isAlnum c) eqn:E.
  - rewrite Contains_cons_underscores, IH, orb_false_r.
    destruct (Ascii.eqb c "_") eqn:Ec; [|reflexivity].
    apply Ascii.eqb_eq in Ec. subst c. discriminate.
  - destruct flag; [apply IH|].
    rewrite Contains_cons_underscores, IH, collapse_true_start. reflexivity.
Qed.

(** A name of alphanumerics and single underscores is left as it is. *)
Lemma collapse_fixed t :
  forallb nameChar t = true -> Contains t "__" = false ->
  collapse false t = t /\ (startsWithUnderscore t = false -> collapse true t = t).
Proof.
  induction t as [|c t IH]; intros Hc Hd; [split; reflexivity|].
  cbn [forallb] in Hc. apply andb_true_iff in Hc as [Hc Ht].
  rewrite Contains_cons_underscores in Hd. apply orb_false_iff in Hd as [Hcd Hd].
  destruct (IH Ht Hd) as [IHf IHt]. cbn [collapse].
  destruct (isAlnum c) eqn:E.
  - rewrite IHf. split; reflexivity.
  - unfold nameChar in Hc. rewrite E in Hc. cbn [orb] in Hc.
    rewrite Hc in Hcd. cbn [andb] in Hcd. apply Ascii.eqb_eq in Hc. subst c.
    rewrite (IHt Hcd). split; [reflexivity|]. cbn [startsWithUnderscore]. discriminate.
Qed.

Lemma collapse_idempotent s : collapse false (collapse false s) = collapse false s.
Proof. apply collapse_fixed; [apply collapse_nameChars|apply collapse_no_double]. Qed.

Lemma collapse_length flag s : (List.length (collapse flag s) <= List.length s)%nat.
Proof.
  revert flag. induction s as [|c s IH]; intros flag; [cbn; lia|].
  cbn [collapse]. destruct (isAlnum c); [cbn [List.length]; specialize (IH false); lia|].
  destruct flag; cbn [List.length]; specialize (IH true); lia.
Qed.

Lemma process_eta {E} (p : Process E) : p = withJournal (engine p) (journal p).
Proof. now destruct p. Qed.

Lemma initService_pattern W o o1 :
  patternReady o -> initService W o = Done None o1 ->
  service o1 = true /\ normalizeRegex o1 = Some normalizePattern.
Proof.
  unfold patternReady, initService, bind, getService, request, setService, ret.
  destruct (service o) eqn:Es.
  - intros Hp [= <-]. split; [exact Es|now apply Hp].
  - destruct (NewService W (List.length (calls o))); intros _ [= <-]. split; reflexivity.
Qed.

Lemma normalizeFileName_run name o :
  normalizeRegex o = Some normalizePattern ->
  normalizeFileName name o = Done (collapse false name) o.
Proof. intros H. unfold normalizeFileName. now rewrite H, ReplaceAllString_collapse. Qed.

Lemma appendItems_ok entries : forall ret o j,
  normalizeRegex o = Some normalizePattern ->
  appendItems (map itemOf entries) ret (withJournal o j)
  = Returned (ret ++ map metaOf entries) (withJournal o j).
Proof.
  induction entries as [|entry entries IH]; intros ret o j Hr.
  - cbn. now rewrite app_nil_r.
  - cbn [map appendItems itemOf playlistapi.Snippet playlistapi.ResourceId
         playlistapi.VideoId playlistapi.Title].
    unfold pbind, lift. cbn [engine journal withJournal].
    rewrite (normalizeFileName_run _ o Hr).
    change {| engine := o; journal := j |} with (withJournal o j).
    rewrite (IH _ o j Hr), <- app_assoc. reflexivity.
Qed.

Lemma pageRequests_app j ev :
  List.length (filter isPageRequest (j ++ [ev]))
  = (List.length (filter isPageRequest j) + (if isPageRequest ev then 1 else 0))%nat.
Proof.
  rewrite filter_app, length_app. cbn [filter]. destruct (isPageRequest ev); reflexivity.
Qed.

Lemma fetchPages_run PW playlistID o (Hr : normalizeRegex o = Some normalizePattern) final :
  forall pages fuel token ret j,
    serves PW playlistID (List.length (filter isPageRequest j)) token pages final ->
    (List.length pages < fuel)%nat ->
    fetchPages PW fuel playlistID token ret (withJournal o j)
    = Returned (Some (ret ++ map metaOf (entriesOf pages), final))
               (withJournal o (j ++ pageTrace playlistID token pages)).
Proof.
  induction pages as [|[entries next] rest IH]; intros fuel token ret j Hs Hf;
    (destruct fuel as [|fuel]; [cbn [List.length] in Hf; lia|]).
  - cbn [serves] in Hs. destruct final as [e|]; [|contradiction].
    cbn [fetchPages]. unfold pbind, pageRequest. cbn [engine journal withJournal].
    rewrite Hs. cbn [entriesOf flat_map map pageTrace]. now rewrite app_nil_r.
  - cbn [serves fst snd] in Hs. destruct Hs as [Hp Hs].
    cbn [fetchPages]. unfold pbind at 1, pageRequest. cbn [engine journal withJournal].
    rewrite Hp. unfold pbind at 1. cbn [pageOf playlistapi.Items playlistapi.NextPageToken].
    change {| engine := o; journal := ?j' |} with (withJournal o j').
    rewrite (appendItems_ok entries ret o _ Hr).
    cbn [pageTrace snd entriesOf flat_map fst]. rewrite map_app, app_assoc.
    destruct (isEmpty next) eqn:En.
    + destruct Hs as [-> ->]. cbn [flat_map map]. rewrite app_nil_r. reflexivity.
    + unfold pbind at 1, emit. cbn [engine journal withJournal].
      change {| engine := o; journal := ?j' |} with (withJournal o j').
      rewrite (IH fuel next _ ((j ++ [EvPlaylistItemsList playlistID token]) ++ [EvSleep 1])).
      * unfold entriesOf. rewrite <- !app_assoc. reflexivity.
      * rewrite !pageRequests_app. cbn [isPageRequest]. rewrite Nat.add_0_r, Nat.add_1_r.
        exact Hs.
      * cbn [List.length] in Hf. lia.
Qed.

Lemma FetchPlaylistVideos_run W PW playlistID p o1 final pages fuel :
  patternReady (engine p) ->
  initService W (engine p) = Done None o1 ->
  serves PW playlistID (List.length (filter isPageRequest (journal p))) [] pages final ->
  (List.length pages < fuel)%nat ->
  FetchPlaylistVideos W PW fuel playlistID p
  = Returned (Some (map metaOf (entriesOf pages), final))
             (withJournal o1 (journal p ++ pageTrace playlistID [] pages)).
Proof.
  intros Hp Hi Hs Hf. destruct (initService_pattern W _ _ Hp Hi) as [_ Hr].
  unfold FetchPlaylistVideos, pbind at 1, lift. rewrite Hi.
  change {| engine := o1; journal := ?j' |} with (withJournal o1 j').
  now rewrite (fetchPages_run PW playlistID o1 Hr final pages fuel [] [] (journal p) Hs Hf).
Qed.

(** The requests and pauses of a run that ends with a last page. *)
Lemma pageTrace_counts playlistID : forall pages token PW k,
  serves PW playlistID k token pages None ->
  List.length (filter isPageRequest (pageTrace playlistID token pages)) = List.length pages
  /\ S (List.length (filter isSleep (pageTrace playlistID token pages))) = List.length pages.
Proof.
  induction pages as [|[entries next] rest IH]; intros token PW k Hs; [contradiction|].
  cbn [serves snd] in Hs. destruct Hs as [_ Hs].
  cbn [pageTrace snd filter isPageRequest isSleep List.length].
  destruct (isEmpty next).
  - destruct Hs as [-> _]. split; reflexivity.
  - cbn [filter isPageRequest isSleep List.length].
    destruct (IH next PW (S k) Hs) as [-> <-]. split; reflexivity.
Qed.

Lemma patternReady_new : patternReady NewYouTube.
Proof. intros H. discriminate H. Qed.

Lemma printVideos_run entries : forall o j,
  printVideos (map metaOf entries) (withJournal o j)
  = Returned tt (withJournal o (j ++ map printEntry entries)).
Proof.
  induction entries as [|e entries IH]; intros o j; [cbn; now rewrite app_nil_r|].
  cbn [map printVideos]. unfold pbind, emit. cbn [engine journal withJournal].
  change {| engine := o; journal := ?j' |} with (withJournal o j').
  rewrite IH, <- app_assoc. reflexivity.
Qed.

Lemma appendItems_malformed items : forall ret o j,
  normalizeRegex o = Some normalizePattern ->
  existsb malformed items = true ->
  appendItems items ret (withJournal o j) = Panicked nilDeref (withJournal o j).
Proof.
  induction items as [|item items IH]; intros ret o j Hr Hm; [discriminate|].
  cbn [existsb] in Hm. cbn [appendItems]. unfold malformed in Hm at 1.
  destruct (playlistapi.Snippet item) as [snippet|]; [|reflexivity].
  destruct (playlistapi.ResourceId snippet) as [resourceId|]; [|reflexivity].
  cbn [orb] in Hm. unfold pbind, lift. cbn [engine journal withJournal].
  unfold normalizeFileName. rewrite Hr.
  change {| engine := o; journal := j |} with (withJournal o j).
  now apply IH.
Qed.

(** X5. With the pattern of [initService], [normalizeFileName] replaces
    every maximal run of characters other than ASCII letters and digits
    by one underscore: the result is made of letters, digits and
    underscores, has no two underscores in a row, and is not longer than
    the name. *)
Theorem normalizeFileName_collapses_runs (name : str) (o : YouTube) :
  normalizeRegex o = Some normalizePattern ->
  normalizeFileName name o = Done (collapse false name) o
  /\ forallb nameChar (collapse false name) = true
  /\ Contains (collapse false name) "__" = false
  /\ (List.length (collapse false name) <= List.length name)%nat.
Proof.
  intros Hr. split; [now apply normalizeFileName_run|]. split; [apply collapse_nameChars|].
  split; [apply collapse_no_double|apply collapse_length].
Qed.

Lemma normalizeFileName_collapses_runs_witness :
  normalizeFileName "Go: tips & tricks (2024)!" (Fixture.after [])
  = Done ("Go_tips_tricks_2024_" : str) (Fixture.after []).
Proof.
  exact (proj1 (normalizeFileName_collapses_runs "Go: tips & tricks (2024)!"
                  (Fixture.after []) eq_refl)).
Defined.

(** X6. [normalizeFileName] is idempotent, and leaves a name of ASCII
    letters, digits and single underscores as it is. *)
Theorem normalizeFileName_idempotent (name : str) (o : YouTube) :
  normalizeRegex o = Some normalizePattern ->
  (forall r o1, normalizeFileName name o = Done r o1 -> normalizeFileName r o1 = Done r o1)
  /\ (forallb nameChar name = true -> Contains name "__" = false ->
      normalizeFileName name o = Done name o).
Proof.
  intros Hr. split.
  - intros r o1. rewrite (normalizeFileName_run name o Hr). intros [= <- <-].
    rewrite (normalizeFileName_run _ o Hr). now rewrite collapse_idempotent.
  - intros Hc Hd. rewrite (normalizeFileName_run name o Hr).
    now rewrite (proj1 (collapse_fixed name Hc Hd)).
Qed.

Lemma normalizeFileName_idempotent_witness :
  normalizeFileName "Go_tips_2024" (Fixture.after []) = Done ("Go_tips_2024" : str) (Fixture.after []).
Proof.
  exact (proj2 (normalizeFileName_idempotent "Go_tips_2024" (Fixture.after []) eq_refl)
               eq_refl eq_refl).
Defined.

(** X7. When the platform serves a playlist in pages, the last of which
    has no next token, [FetchPlaylistVideos] returns the entries of all
    pages in order without error, each with its title normalized; it
    asks once per page, the first time without a token and then with the
    token of the page before, and pauses one second between two
    requests. *)
Theorem FetchPlaylistVideos_collects_all_pages
    (W : World) (PW : PlaylistWorld) (playlistID : str) (p : Process PlaylistEvent) (o1 : YouTube)
    (pages : list (list (str * str) * str)) (fuel : nat) :
  patternReady (engine p) ->
  initService W (engine p) = Done None o1 ->
  serves PW playlistID (List.length (filter isPageRequest (journal p))) [] pages None ->
  (List.length pages < fuel)%nat ->
  let trace := pageTrace playlistID [] pages in
  FetchPlaylistVideos W PW fuel playlistID p
  = Returned (Some (map metaOf (entriesOf pages), None)) (withJournal o1 (journal p ++ trace))
  /\ List.length (filter isPageRequest trace) = List.length pages
  /\ S (List.length (filter isSleep trace)) = List.length pages.
Proof.
  intros Hp Hi Hs Hf trace. split.
  - exact (FetchPlaylistVideos_run W PW playlistID p o1 None pages fuel Hp Hi Hs Hf).
  - exact (pageTrace_counts playlistID pages [] PW _ Hs).
Qed.

Lemma FetchPlaylistVideos_collects_all_pages_witness :
  FetchPlaylistVideos PlaylistFixture.engineWorld
    (PlaylistFixture.world PlaylistFixture.twoPages None) 5 "PL1" PlaylistFixture.start
  = Returned
      (Some ([ {| VideoMeta.Id := "a1"; VideoMeta.Title := "First video";
                  VideoMeta.TitleNormalized := "First_video" |};
               {| VideoMeta.Id := "b2"; VideoMeta.Title := "Second, part 2";
                  VideoMeta.TitleNormalized := "Second_part_2" |};
               {| VideoMeta.Id := "c3"; VideoMeta.Title := "Third";
                  VideoMeta.TitleNormalized := "Third" |} ], None))
      (withJournal (Fixture.after [EvNewService])
         [EvPlaylistItemsList "PL1" []; EvSleep 1; EvPlaylistItemsList "PL1" "t1"]).
Proof.
  refine (proj1 (FetchPlaylistVideos_collects_all_pages PlaylistFixture.engineWorld
           (PlaylistFixture.world PlaylistFixture.twoPages None) "PL1" PlaylistFixture.start
           (Fixture.after [EvNewService]) PlaylistFixture.twoPages 5
           patternReady_new eq_refl _ _)).
  - cbn. repeat split; reflexivity.
  - cbn. lia.
Defined.

(** X8. When a page request fails, [FetchPlaylistVideos] returns the
    error as it is together with the entries of the pages before; it
    asks for no further page. *)
Theorem FetchPlaylistVideos_error_keeps_earlier_pages
    (W : World) (PW : PlaylistWorld) (playlistID : str) (p : Process PlaylistEvent) (o1 : YouTube)
    (pages : list (list (str * str) * str)) (e : error) (fuel : nat) :
  patternReady (engine p) ->
  initService W (engine p) = Done None o1 ->
  serves PW playlistID (List.length (filter isPageRequest (journal p))) [] pages (Some e) ->
  (List.length pages < fuel)%nat ->
  FetchPlaylistVideos W PW fuel playlistID p
  = Returned (Some (map metaOf (entriesOf pages), Some e))
             (withJournal o1 (journal p ++ pageTrace playlistID [] pages)).
Proof. apply FetchPlaylistVideos_run. Qed.

Lemma FetchPlaylistVideos_error_keeps_earlier_pages_witness :
  FetchPlaylistVideos PlaylistFixture.engineWorld
    (PlaylistFixture.world PlaylistFixture.firstPage (Some ("quotaExceeded" : str)))
    5 "PL1" PlaylistFixture.start
  = Returned
      (Some ([ {| VideoMeta.Id := "a1"; VideoMeta.Title := "First video";
                  VideoMeta.TitleNormalized := "First_video" |};
               {| VideoMeta.Id := "b2"; VideoMeta.Title := "Second, part 2";
                  VideoMeta.TitleNormalized := "Second_part_2" |} ],
             Some ("quotaExceeded" : str)))
      (withJournal (Fixture.after [EvNewService])
         [EvPlaylistItemsList "PL1" []; EvSleep 1; EvPlaylistItemsList "PL1" "t1"]).
Proof.
  refine (FetchPlaylistVideos_error_keeps_earlier_pages PlaylistFixture.engineWorld
           (PlaylistFixture.world PlaylistFixture.firstPage (Some ("quotaExceeded" : str)))
           "PL1" PlaylistFixture.start
           (Fixture.after [EvNewService]) PlaylistFixture.firstPage "quotaExceeded" 5
           patternReady_new eq_refl _ _).
  - cbn. repeat split; reflexivity.
  - cbn. lia.
Defined.

(** While every page comes with a next token the loop goes on. *)
Lemma fetchPages_unending PW playlistID o (Hr : normalizeRegex o = Some normalizePattern) :
  (forall k token, exists entries next,
      PlaylistItemsList PW k playlistID token = inl (pageOf entries next)
      /\ isEmpty next = false) ->
  forall fuel token ret j, exists j',
    fetchPages PW fuel playlistID token ret (withJournal o j)
    = Returned None (withJournal o (j ++ j'))
    /\ List.length (filter isPageRequest j') = fuel
    /\ List.length (filter isSleep j') = fuel.
Proof.
  intros Hw. induction fuel as [|fuel IH]; intros token ret j.
  - exists []. cbn. now rewrite app_nil_r.
  - destruct (Hw (List.length (filter isPageRequest j)) token) as (entries & next & Hp & En).
    cbn [fetchPages]. unfold pbind at 1, pageRequest. cbn [engine journal withJournal].
    rewrite Hp. unfold pbind at 1. cbn [pageOf playlistapi.Items playlistapi.NextPageToken].
    change {| engine := o; journal := ?j' |} with (withJournal o j').
    rewrite (appendItems_ok entries ret o _ Hr), En.
    unfold pbind at 1, emit. cbn [engine journal withJournal].
    change {| engine := o; journal := ?j' |} with (withJournal o j').
    destruct (IH next (ret ++ map metaOf entries)
                 ((j ++ [EvPlaylistItemsList playlistID token]) ++ [EvSleep 1]))
      as (j' & -> & Hn & Hz).
    exists (EvPlaylistItemsList playlistID token :: EvSleep 1 :: j').
    rewrite <- !app_assoc. cbn [app filter isPageRequest isSleep List.length].
    now rewrite Hn, Hz.
Qed.

Lemma SaveVideosToCSV_create_error W L filename videos o e :
  osCreate W (List.length (calls o)) filename = Some e ->
  SaveVideosToCSV W L filename videos o
  = Done (Some e) {| service := service o; normalizeRegex := normalizeRegex o;
                     calls := calls o ++ [EvCreate filename] |}.
Proof. intros Hc. unfold SaveVideosToCSV, bind, request, ret. now rewrite Hc. Qed.

Lemma csvRow_metaOf entries : map csvRow (map metaOf entries) = map pairRecord entries.
Proof. rewrite map_map. reflexivity. Qed.

(** X9. [FetchPlaylistVideos] ends only with a page without next token
    or with a failing request: against a platform whose every page has
    a next token it is still asking after any number of pages. *)
Theorem FetchPlaylistVideos_has_no_page_limit
    (W : World) (PW : PlaylistWorld) (playlistID : str) (p : Process PlaylistEvent) (o1 : YouTube)
    (fuel : nat) :
  patternReady (engine p) ->
  initService W (engine p) = Done None o1 ->
  (forall k token, exists entries next,
      PlaylistItemsList PW k playlistID token = inl (pageOf entries next)
      /\ isEmpty next = false) ->
  exists j,
    FetchPlaylistVideos W PW fuel playlistID p
    = Returned None (withJournal o1 (journal p ++ j))
    /\ List.length (filter isPageRequest j) = fuel
    /\ List.length (filter isSleep j) = fuel.
Proof.
  intros Hp Hi Hw. destruct (initService_pattern W _ _ Hp Hi) as [_ Hr].
  unfold FetchPlaylistVideos, pbind at 1, lift. rewrite Hi.
  change {| engine := o1; journal := ?j' |} with (withJournal o1 j').
  exact (fetchPages_unending PW playlistID o1 Hr Hw fuel [] [] (journal p)).
Qed.

Lemma FetchPlaylistVideos_has_no_page_limit_witness :
  exists j,
    FetchPlaylistVideos PlaylistFixture.engineWorld
      {| PlaylistItemsList := fun _ _ _ => inl (pageOf [("a1" : str, "First video" : str)] "t1") |}
      7 "PL1" PlaylistFixture.start
    = Returned None (withJournal (Fixture.after [EvNewService]) ([] ++ j))
    /\ List.length (filter isPageRequest j) = 7%nat
    /\ List.length (filter isSleep j) = 7%nat.
Proof.
  apply (FetchPlaylistVideos_has_no_page_limit PlaylistFixture.engineWorld
           {| PlaylistItemsList := fun _ _ _ => inl (pageOf [("a1" : str, "First video" : str)] "t1") |}
           "PL1" PlaylistFixture.start (Fixture.after [EvNewService]) 7
           patternReady_new eq_refl).
  intros k token. exists [("a1" : str, "First video" : str)], ("t1" : str).
  split; reflexivity.
Defined.

(** X10. When the service cannot be created, [FetchPlaylistVideos]
    returns that error and no entries without asking for a page, and
    both callers wrap it, create no file and print nothing. *)
Theorem playlist_operations_need_the_service
    (W : World) (L : Lib) (PW : PlaylistWorld) (playlistID filename : str) (p : Process PlaylistEvent)
    (o1 : YouTube) (e : error) (fuel : nat) :
  initService W (engine p) = Done (Some e) o1 ->
  let wrapped := Some (Some ("error fetching playlist videos: " ++ e)) in
  FetchPlaylistVideos W PW fuel playlistID p
  = Returned (Some ([], Some e)) (withJournal o1 (journal p))
  /\ FetchAndSavePlaylist W L PW fuel playlistID filename p
     = Returned wrapped (withJournal o1 (journal p))
  /\ FetchAndPrintPlaylist W PW fuel playlistID p
     = Returned wrapped (withJournal o1 (journal p)).
Proof.
  intros Hi wrapped.
  assert (Hf : FetchPlaylistVideos W PW fuel playlistID p
               = Returned (Some ([], Some e)) (withJournal o1 (journal p))).
  { unfold FetchPlaylistVideos, pbind, lift. now rewrite Hi. }
  split; [exact Hf|].
  unfold FetchAndSavePlaylist, FetchAndPrintPlaylist, pbind. rewrite Hf. split; reflexivity.
Qed.

Lemma playlist_operations_need_the_service_witness :
  FetchAndSavePlaylist
    {| NewService := fun _ => Some ("no credentials" : str);
       VideosList := VideosList PlaylistFixture.engineWorld;
       CommentThreadsList := CommentThreadsList PlaylistFixture.engineWorld;
       httpDo := httpDo PlaylistFixture.engineWorld;
       osCreate := osCreate PlaylistFixture.engineWorld;
       csvWrite := csvWrite PlaylistFixture.engineWorld |}
    Fixture.lib (PlaylistFixture.world PlaylistFixture.twoPages None) 5 "PL1" "out.csv"
    PlaylistFixture.start
  = Returned (Some (Some ("error fetching playlist videos: no credentials" : str)))
      (withJournal {| service := false; normalizeRegex := Some normalizePattern;
                      calls := [EvNewService] |} []).
Proof.
  exact (proj1 (proj2 (playlist_operations_need_the_service
    {| NewService := fun _ => Some ("no credentials" : str);
       VideosList := VideosList PlaylistFixture.engineWorld;
       CommentThreadsList := CommentThreadsList PlaylistFixture.engineWorld;
       httpDo := httpDo PlaylistFixture.engineWorld;
       osCreate := osCreate PlaylistFixture.engineWorld;
       csvWrite := csvWrite PlaylistFixture.engineWorld |}
    Fixture.lib (PlaylistFixture.world PlaylistFixture.twoPages None) "PL1" "out.csv"
    PlaylistFixture.start _ "no credentials" 5 eq_refl))).
Defined.

Lemma skipn_length_app {A : Type} (a b : list A) : skipn (List.length a) (a ++ b) = b.
Proof. induction a as [|x a IH]; [reflexivity|exact IH]. Qed.

(** X11. When the pages end with a last page, the file can be created
    and the writer takes every row, [FetchAndSavePlaylist] returns no
    error and does, in this order and after the last page request:
    create the file, give the writer the header row and one row of
    identifier and raw title per entry of all pages, in page order,
    close the file, and print one line naming the file. *)
Theorem FetchAndSavePlaylist_saves_all_pages
    (W : World) (L : Lib) (PW : PlaylistWorld) (playlistID filename : str)
    (p : Process PlaylistEvent) (o1 : YouTube)
    (pages : list (list (str * str) * str)) (fuel : nat) :
  patternReady (engine p) ->
  initService W (engine p) = Done None o1 ->
  serves PW playlistID (List.length (filter isPageRequest (journal p))) [] pages None ->
  (List.length pages < fuel)%nat ->
  osCreate W (List.length (calls o1)) filename = None ->
  (forall n row, csvWrite W n row = None) ->
  let rows := csvHeader :: map pairRecord (entriesOf pages) in
  let given := flat_map (csv.encodeRecord (firstRuneIsSpace L)) rows in
  FetchAndSavePlaylist W L PW fuel playlistID filename p
  = Returned (Some None)
      (withJournal
         (extend o1 [EvCreate filename; EvClose filename given])
         (journal p ++ pageTrace playlistID [] pages
            ++ [EvFile (EvCreate filename); EvFile (EvClose filename given);
                EvPrint ("Playlist saved to " ++ filename ++ [csv.LF])])).
Proof.
  intros Hp Hi Hs Hf Hc Hw rows given.
  unfold FetchAndSavePlaylist, pbind at 1.
  rewrite (FetchPlaylistVideos_run W PW playlistID p o1 None pages fuel Hp Hi Hs Hf).
  unfold pbind at 1, liftRecording. cbn [engine journal withJournal].
  rewrite (SaveVideosToCSV_ok W L filename _ o1 Hc Hw). cbn [calls].
  rewrite <- app_assoc, skipn_length_app.
  unfold pbind, emit, pret. cbn [engine journal withJournal map].
  unfold given, rows, extend. rewrite csvRow_metaOf, <- !app_assoc. reflexivity.
Qed.

Lemma FetchAndSavePlaylist_saves_all_pages_witness :
  FetchAndSavePlaylist PlaylistFixture.engineWorld Fixture.lib
    (PlaylistFixture.world PlaylistFixture.twoPages None) 5 "PL1" "out.csv"
    PlaylistFixture.start
  = Returned (Some None)
      (withJournal
         (Fixture.after
            [EvNewService; EvCreate "out.csv";
             EvClose "out.csv"
               ("VideoID,Title" ++ [csv.LF] ++ "a1,First video" ++ [csv.LF]
                ++ "b2," ++ Fixture.quoted "Second, part 2" ++ [csv.LF]
                ++ "c3,Third" ++ [csv.LF])])
         [EvPlaylistItemsList "PL1" []; EvSleep 1; EvPlaylistItemsList "PL1" "t1";
          EvFile (EvCreate "out.csv");
          EvFile (EvClose "out.csv"
                    ("VideoID,Title" ++ [csv.LF] ++ "a1,First video" ++ [csv.LF]
                     ++ "b2," ++ Fixture.quoted "Second, part 2" ++ [csv.LF]
                     ++ "c3,Third" ++ [csv.LF]));
          EvPrint ("Playlist saved to out.csv" ++ [csv.LF])]).
Proof.
  refine (FetchAndSavePlaylist_saves_all_pages PlaylistFixture.engineWorld Fixture.lib
           (PlaylistFixture.world PlaylistFixture.twoPages None) "PL1" "out.csv"
           PlaylistFixture.start (Fixture.after [EvNewService]) PlaylistFixture.twoPages 5
           patternReady_new eq_refl _ _ eq_refl (fun _ _ => eq_refl)).
  - cbn. repeat split; reflexivity.
  - cbn. lia.
Defined.

(** X12. When a page request fails, [FetchAndSavePlaylist] and
    [FetchAndPrintPlaylist] return the wrapped error, drop the entries
    of the pages before, create no file and print nothing; when the
    file cannot be created, [FetchAndSavePlaylist] returns that error
    wrapped, after the last page request and the attempt to create
    the file, and prints nothing. *)
Theorem FetchAndSavePlaylist_errors
    (W : World) (L : Lib) (PW : PlaylistWorld) (playlistID filename : str)
    (p : Process PlaylistEvent)
    (o1 : YouTube) (pages : list (list (str * str) * str)) (fuel : nat) (e : error) :
  patternReady (engine p) ->
  initService W (engine p) = Done None o1 ->
  (List.length pages < fuel)%nat ->
  let after := journal p ++ pageTrace playlistID [] pages in
  (serves PW playlistID (List.length (filter isPageRequest (journal p))) [] pages (Some e) ->
   FetchAndSavePlaylist W L PW fuel playlistID filename p
   = Returned (Some (Some ("error fetching playlist videos: " ++ e))) (withJournal o1 after)
   /\ FetchAndPrintPlaylist W PW fuel playlistID p
      = Returned (Some (Some ("error fetching playlist videos: " ++ e))) (withJournal o1 after))
  /\ (serves PW playlistID (List.length (filter isPageRequest (journal p))) [] pages None ->
      osCreate W (List.length (calls o1)) filename = Some e ->
      FetchAndSavePlaylist W L PW fuel playlistID filename p
      = Returned (Some (Some ("error saving videos to CSV: " ++ e)))
          (withJournal {| service := service o1; normalizeRegex := normalizeRegex o1;
                          calls := calls o1 ++ [EvCreate filename] |}
                       (after ++ [EvFile (EvCreate filename)]))).
Proof.
  intros Hp Hi Hf after. split.
  - intros Hs. unfold FetchAndSavePlaylist, FetchAndPrintPlaylist, pbind.
    rewrite (FetchPlaylistVideos_run W PW playlistID p o1 (Some e) pages fuel Hp Hi Hs Hf).
    split; reflexivity.
  - intros Hs Hc. unfold FetchAndSavePlaylist, pbind at 1.
    rewrite (FetchPlaylistVideos_run W PW playlistID p o1 None pages fuel Hp Hi Hs Hf).
    unfold pbind, liftRecording. cbn [engine journal withJournal].
    rewrite (SaveVideosToCSV_create_error W L filename _ o1 e Hc). cbn [calls].
    rewrite skipn_length_app. reflexivity.
Qed.

Lemma FetchAndSavePlaylist_errors_witness :
  FetchAndSavePlaylist PlaylistFixture.engineWorld Fixture.lib
    (PlaylistFixture.world PlaylistFixture.firstPage (Some ("quotaExceeded" : str)))
    5 "PL1" "out.csv" PlaylistFixture.start
  = Returned (Some (Some ("error fetching playlist videos: quotaExceeded" : str)))
      (withJournal (Fixture.after [EvNewService])
         [EvPlaylistItemsList "PL1" []; EvSleep 1; EvPlaylistItemsList "PL1" "t1"]).
Proof.
  refine (proj1 (proj1 (FetchAndSavePlaylist_errors PlaylistFixture.engineWorld Fixture.lib
           (PlaylistFixture.world PlaylistFixture.firstPage (Some ("quotaExceeded" : str)))
           "PL1" "out.csv" PlaylistFixture.start (Fixture.after [EvNewService])
           PlaylistFixture.firstPage 5 "quotaExceeded" patternReady_new eq_refl _) _)).
  - cbn. lia.
  - cbn. repeat split; reflexivity.
Defined.

(** X13. When the pages end with a last page, [FetchAndPrintPlaylist]
    returns no error and prints, after the last page request, the line
    with the playlist identifier, the heading line, and one line of
    identifier, colon, space and raw title per entry, in page order. *)
Theorem FetchAndPrintPlaylist_prints_all_pages
    (W : World) (PW : PlaylistWorld) (playlistID : str) (p : Process PlaylistEvent)
    (o1 : YouTube) (pages : list (list (str * str) * str)) (fuel : nat) :
  patternReady (engine p) ->
  initService W (engine p) = Done None o1 ->
  serves PW playlistID (List.length (filter isPageRequest (journal p))) [] pages None ->
  (List.length pages < fuel)%nat ->
  FetchAndPrintPlaylist W PW fuel playlistID p
  = Returned (Some None)
      (withJournal o1
         (journal p ++ pageTrace playlistID [] pages
            ++ [EvPrint ("Playlist: " ++ playlistID ++ [csv.LF]);
                EvPrint ("VideoId: Title" ++ [csv.LF])]
            ++ map printEntry (entriesOf pages))).
Proof.
  intros Hp Hi Hs Hf. unfold FetchAndPrintPlaylist, pbind at 1.
  rewrite (FetchPlaylistVideos_run W PW playlistID p o1 None pages fuel Hp Hi Hs Hf).
  unfold pbind at 1, emit at 1. cbn [engine journal withJournal].
  unfold pbind at 1, emit at 1. cbn [engine journal withJournal].
  unfold pbind at 1. change {| engine := o1; journal := ?j' |} with (withJournal o1 j').
  rewrite printVideos_run. unfold pret. rewrite <- !app_assoc. reflexivity.
Qed.

Lemma FetchAndPrintPlaylist_prints_all_pages_witness :
  FetchAndPrintPlaylist PlaylistFixture.engineWorld
    (PlaylistFixture.world PlaylistFixture.twoPages None) 5 "PL1" PlaylistFixture.start
  = Returned (Some None)
      (withJournal (Fixture.after [EvNewService])
         [EvPlaylistItemsList "PL1" []; EvSleep 1; EvPlaylistItemsList "PL1" "t1";
          EvPrint ("Playlist: PL1" ++ [csv.LF]); EvPrint ("VideoId: Title" ++ [csv.LF]);
          EvPrint ("a1: First video" ++ [csv.LF]); EvPrint ("b2: Second, part 2" ++ [csv.LF]);
          EvPrint ("c3: Third" ++ [csv.LF])]).
Proof.
  refine (FetchAndPrintPlaylist_prints_all_pages PlaylistFixture.engineWorld
           (PlaylistFixture.world PlaylistFixture.twoPages None) "PL1" PlaylistFixture.start
           (Fixture.after [EvNewService]) PlaylistFixture.twoPages 5
           patternReady_new eq_refl _ _).
  - cbn. repeat split; reflexivity.
  - cbn. lia.
Defined.

(** X14. An item without snippet, or whose snippet has no resource
    identifier, is not skipped: when the first page has one,
    [FetchPlaylistVideos] panics on the nil pointer, after that one
    request and with nothing returned. *)
Theorem FetchPlaylistVideos_item_without_snippet_panics
    (W : World) (PW : PlaylistWorld) (playlistID : str) (p : Process PlaylistEvent) (o1 : YouTube)
    (response : playlistapi.PlaylistItemListResponse) (fuel : nat) :
  patternReady (engine p) ->
  initService W (engine p) = Done None o1 ->
  PlaylistItemsList PW (List.length (filter isPageRequest (journal p))) playlistID []
  = inl response ->
  existsb malformed (playlistapi.Items response) = true ->
  FetchPlaylistVideos W PW (S fuel) playlistID p
  = Panicked nilDeref (withJournal o1 (journal p ++ [EvPlaylistItemsList playlistID []])).
Proof.
  intros Hp Hi Hr Hm. destruct (initService_pattern W _ _ Hp Hi) as [_ Hn].
  unfold FetchPlaylistVideos, pbind at 1, lift. rewrite Hi.
  cbn [fetchPages]. unfold pbind at 1, pageRequest. cbn [engine journal]. rewrite Hr.
  unfold pbind. change {| engine := o1; journal := ?j' |} with (withJournal o1 j').
  now rewrite (appendItems_malformed _ [] o1 _ Hn Hm).
Qed.

Lemma FetchPlaylistVideos_item_without_snippet_panics_witness :
  FetchPlaylistVideos PlaylistFixture.engineWorld
    {| PlaylistItemsList := fun _ _ _ =>
         inl {| playlistapi.Items := [itemOf ("a1" : str, "First video" : str);
                                      {| playlistapi.Snippet := None |}];
                playlistapi.NextPageToken := [] |} |}
    1 "PL1" PlaylistFixture.start
  = Panicked nilDeref
      (withJournal (Fixture.after [EvNewService]) [EvPlaylistItemsList "PL1" []]).
Proof.
  exact (FetchPlaylistVideos_item_without_snippet_panics PlaylistFixture.engineWorld
    {| PlaylistItemsList := fun _ _ _ =>
         inl {| playlistapi.Items := [itemOf ("a1" : str, "First video" : str);
                                      {| playlistapi.Snippet := None |}];
                playlistapi.NextPageToken := [] |} |}
    "PL1" PlaylistFixture.start (Fixture.after [EvNewService]) _ 0
    patternReady_new eq_refl eq_refl eq_refl).
Defined.

(** ** Requests of the single operations *)

Lemma extend_nil o : extend o [] = o.
Proof. destruct o. unfold extend. cbn. now rewrite app_nil_r. Qed.

Lemma extend_extend o a b : extend (extend o a) b = extend o (a ++ b).
Proof. unfold extend. cbn. now rewrite app_assoc. Qed.

Lemma selectTrack_nonempty L language captionTracks u :
  selectTrack L language captionTracks = inl u -> u <> [].
Proof.
  unfold selectTrack.
  destruct (isEmpty _) eqn:E; [discriminate|]. intros [= <-] Hn. now rewrite Hn in E.
Qed.

Lemma fetchTranscript_shape W L u o :
  exists t err reqs,
    fetchTranscript W L u o = Done (t, err) (extend o reqs)
    /\ (reqs = [] \/ reqs = [EvHttpGet u])
    /\ (err <> None -> t = [])
    /\ (err = None -> reqs = [EvHttpGet u]).
Proof.
  unfold fetchTranscript, bind, request, ret.
  destruct (httpNewRequest L u) as [reqErr|].
  { exists [], (Some ("error creating transcript request for " ++ u ++ ": " ++ reqErr)), [].
    rewrite extend_nil. repeat split; auto; discriminate. }
  change {| service := service o; normalizeRegex := normalizeRegex o;
            calls := calls o ++ [EvHttpGet u] |} with (extend o [EvHttpGet u]).
  destruct (httpDo W (List.length (calls o)) u) as [resp|doErr].
  2:{ do 3 eexists. split; [reflexivity|]. repeat split; auto. }
  destruct (negb (Z.eqb (api.StatusCode resp) 200)).
  { do 3 eexists. split; [reflexivity|]. repeat split; auto. }
  destruct (api.Body resp) as [body|readErr].
  - exists body, None, [EvHttpGet u]. repeat split; auto. intros H. now contradiction H.
  - do 3 eexists. split; [reflexivity|]. repeat split; auto.
Qed.

Lemma scanScripts_shape W L language scriptTags o :
  exists t err reqs,
    scanScripts W L language scriptTags o = Done (t, err) (extend o reqs)
    /\ (reqs = [] \/ exists u, reqs = [EvHttpGet u])
    /\ (err <> None -> t = [])
    /\ (err = None -> exists u, u <> [] /\ reqs = [EvHttpGet u]).
Proof.
  induction scriptTags as [|scriptTag rest IH].
  { exists [], (Some errTranscriptNotFound), []. cbn [scanScripts]. unfold ret.
    rewrite extend_nil. repeat split; auto; discriminate. }
  cbn [scanScripts].
  destruct (Contains (Text scriptTag) "captionTracks"); [|exact IH].
  destruct (1 <? List.length _)%nat; [|exact IH].
  destruct (jsonUnmarshalTracks L _) as [[|track tracks]|e]; [exact IH| |].
  - destruct (selectTrack L language (track :: tracks)) as [u|e] eqn:Es.
    + destruct (fetchTranscript_shape W L u o) as (t & err & reqs & -> & Hr & He & Hn).
      exists t, err, reqs. split; [reflexivity|]. split; [|split; [exact He|]].
      * destruct Hr as [->| ->]; [now left|right; now exists u].
      * intros Hnone. exists u. split; [exact (selectTrack_nonempty _ _ _ _ Es)|now apply Hn].
    + exists [], (Some e), []. unfold ret. rewrite extend_nil. repeat split; auto; discriminate.
  - eexists [], _, []. unfold ret. rewrite extend_nil.
    split; [reflexivity|]. repeat split; auto; discriminate.
Qed.

Lemma GrabTranscriptBase_shape W L videoId language o :
  service o = true ->
  exists t err reqs,
    GrabTranscriptBase W L videoId language o = Done (t, err) (extend o reqs)
    /\ (reqs = [] \/ reqs = [EvHttpGet (watchUrlOf videoId)]
        \/ exists u, reqs = [EvHttpGet (watchUrlOf videoId); EvHttpGet u])
    /\ (err <> None -> t = [])
    /\ (err = None ->
        exists u, u <> [] /\ reqs = [EvHttpGet (watchUrlOf videoId); EvHttpGet u]).
Proof.
  intros Hs. unfold GrabTranscriptBase, bind at 1. rewrite (initService_ready W o Hs).
  fold (watchUrlOf videoId).
  destruct (httpNewRequest L (watchUrlOf videoId)) as [e|].
  { eexists [], _, []. unfold ret. rewrite extend_nil.
    split; [reflexivity|]. repeat split; auto; discriminate. }
  unfold bind, request.
  change {| service := service o; normalizeRegex := normalizeRegex o;
            calls := calls o ++ [EvHttpGet (watchUrlOf videoId)] |}
    with (extend o [EvHttpGet (watchUrlOf videoId)]).
  destruct (httpDo W (List.length (calls o)) (watchUrlOf videoId)) as [resp|e].
  2:{ do 3 eexists. unfold ret. split; [reflexivity|]. repeat split; auto; discriminate. }
  destruct (negb (Z.eqb (api.StatusCode resp) 200)).
  { do 3 eexists. unfold ret. split; [reflexivity|]. repeat split; auto; discriminate. }
  destruct (api.Body resp) as [pageContent|e].
  2:{ do 3 eexists. unfold ret. split; [reflexivity|]. repeat split; auto; discriminate. }
  destruct (scanScripts_shape W L language (soupFindAll L pageContent "script")
              (extend o [EvHttpGet (watchUrlOf videoId)]))
    as (t & err & reqs & -> & Hr & He & Hn).
  rewrite extend_extend. exists t, err, ([EvHttpGet (watchUrlOf videoId)] ++ reqs).
  split; [reflexivity|]. split; [|split; [exact He|]].
  - destruct Hr as [->|[u ->]]; [right; now left|right; right; now exists u].
  - intros Hnone. destruct (Hn Hnone) as (u & Hu & ->). now exists u.
Qed.

Lemma scanScripts_no_tracks W L language scriptTags o :
  forallb (fun scriptTag => negb (mentionsTracks scriptTag)) scriptTags = true ->
  scanScripts W L language scriptTags o = Done ([], Some errTranscriptNotFound) o.
Proof.
  induction scriptTags as [|scriptTag rest IH]; [reflexivity|].
  cbn [forallb]. intros H. apply andb_true_iff in H as [H1 H2].
  cbn [scanScripts]. unfold mentionsTracks in H1.
  destruct (Contains (Text scriptTag) "captionTracks"); [discriminate|]. now apply IH.
Qed.

Lemma appendReplies_present comments : forall ret,
  forallb present comments = true ->
  appendReplies comments ret
  = Some (ret ++ map (fun replyText => replyPrefix ++ replyText)
                     (flat_map (fun reply => match textDisplay reply with
                                             | Some text => [text]
                                             | None => []
                                             end) comments)).
Proof.
  induction comments as [|reply rest IH]; intros ret H; [cbn; now rewrite app_nil_r|].
  cbn [forallb] in H. apply andb_true_iff in H as [H1 H2]. unfold present in H1.
  cbn [appendReplies flat_map]. destruct (textDisplay reply) as [text|]; [|discriminate].
  rewrite (IH _ H2), <- app_assoc. reflexivity.
Qed.

Lemma appendReplies_nil_pointer comments : forall ret,
  forallb present comments = false -> appendReplies comments ret = None.
Proof.
  induction comments as [|reply rest IH]; intros ret H; [discriminate|].
  cbn [forallb] in H. cbn [appendReplies]. unfold present in H at 1.
  destruct (textDisplay reply) as [text|]; [|reflexivity]. now apply IH.
Qed.

Lemma appendThreads_complete threads : forall ret,
  forallb complete threads = true ->
  appendThreads threads ret = Some (ret ++ flat_map threadLines threads).
Proof.
  induction threads as [|item rest IH]; intros ret H; [cbn; now rewrite app_nil_r|].
  cbn [forallb] in H. apply andb_true_iff in H as [H1 H2].
  cbn [appendThreads flat_map]. unfold threadLines at 1, topOf, repliesOf.
  unfold complete in H1.
  destruct (api.CommentThread.Snippet item) as [snippet|]; [|discriminate].
  destruct (textDisplay (api.CommentThreadSnippet.TopLevelComment snippet)) as [text|];
    [|discriminate].
  destruct (api.CommentThread.Replies item) as [replies|].
  - rewrite (appendReplies_present _ _ H1), (IH _ H2), <- !app_assoc. reflexivity.
  - rewrite (IH _ H2), <- app_assoc. reflexivity.
Qed.

Lemma appendThreads_nil_pointer threads : forall ret,
  forallb complete threads = false -> appendThreads threads ret = None.
Proof.
  induction threads as [|item rest IH]; intros ret H; [discriminate|].
  cbn [forallb] in H. cbn [appendThreads]. unfold complete in H at 1.
  destruct (api.CommentThread.Snippet item) as [snippet|]; [|reflexivity].
  destruct (textDisplay (api.CommentThreadSnippet.TopLevelComment snippet)) as [text|];
    [|reflexivity].
  destruct (api.CommentThread.Replies item) as [replies|].
  - destruct (forallb present (api.CommentThreadReplies.Comments replies)) eqn:Er.
    + rewrite (appendReplies_present _ _ Er). now apply IH.
    + now rewrite (appendReplies_nil_pointer _ _ Er).
  - now apply IH.
Qed.

Lemma GrabComments_run W videoId o response :
  service o = true ->
  CommentThreadsList W (List.length (calls o)) videoId = inl response ->
  GrabComments W videoId o
  = match appendThreads (api.Threads response) [] with
    | Some lines => Done (lines, None) (extend o [EvCommentThreadsList videoId])
    | None => Panic nilDeref (extend o [EvCommentThreadsList videoId])
    end.
Proof.
  intros Hs Hr. unfold GrabComments, bind at 1. rewrite (initService_ready W o Hs).
  unfold bind, request, ret, panic. rewrite Hr.
  destruct (appendThreads (api.Threads response) []); reflexivity.
Qed.

Lemma isReplyLine_reply replyText : isReplyLine (replyPrefix ++ replyText) = true.
Proof. reflexivity. Qed.

Lemma filter_replies_all replies :
  filter isReplyLine (map (fun replyText => replyPrefix ++ replyText) replies)
  = map (fun replyText => replyPrefix ++ replyText) replies.
Proof.
  induction replies as [|r replies IH]; [reflexivity|].
  cbn [map filter]. rewrite isReplyLine_reply. now rewrite IH.
Qed.

Lemma filter_replies_none replies :
  filter (fun line => negb (isReplyLine line))
         (map (fun replyText => replyPrefix ++ replyText) replies) = [].
Proof.
  induction replies as [|r replies IH]; [reflexivity|].
  cbn [map filter]. rewrite isReplyLine_reply. exact IH.
Qed.

Lemma comment_lines threads :
  let lines := flat_map threadLines threads in
  List.length lines = (List.length threads + List.length (flat_map repliesOf threads))%nat
  /\ (forallb (fun item => negb (isReplyLine (topOf item))) threads = true ->
      filter (fun line => negb (isReplyLine line)) lines = map topOf threads
      /\ filter isReplyLine lines
         = map (fun replyText => replyPrefix ++ replyText) (flat_map repliesOf threads)).
Proof.
  cbn zeta. induction threads as [|item threads [IHl IHf]]; [split; [reflexivity|now split]|].
  cbn [flat_map]. unfold threadLines at 1 3 5. split.
  - rewrite !length_app. cbn [List.length]. rewrite length_map, IHl. unfold str in *. lia.
  - cbn [forallb]. intros H. apply andb_true_iff in H as [H1 H2].
    destruct (IHf H2) as [IH1 IH2]. pose proof H1 as H1'. apply negb_true_iff in H1'.
    rewrite !filter_app. cbn [filter]. rewrite H1, H1'.
    rewrite filter_replies_none, filter_replies_all, IH1, IH2. cbn [map app].
    split; [reflexivity|]. now rewrite map_app.
Qed.

Lemma writeVideos_fails W L e : forall videos n out j v,
  nth_error videos j = Some v ->
  (forall i row, (n <= i < n + j)%nat -> csvWrite W i row = None) ->
  csvWrite W (n + j) (csvRow v) = Some e ->
  writeVideos W L n out videos
  = (out ++ flat_map (encodeRecord (firstRuneIsSpace L)) (map csvRow (firstn j videos)), Some e).
Proof.
  induction videos as [|v0 videos IH]; intros n out j v Hj Hw He; [now destruct j|].
  cbn [writeVideos]. destruct j as [|j].
  - cbn [nth_error] in Hj. injection Hj as ->.
    rewrite Nat.add_0_r in He. unfold csvRow in He. rewrite He.
    cbn. now rewrite app_nil_r.
  - change [VideoMeta.Id v0; VideoMeta.Title v0] with (csvRow v0).
    rewrite (Hw n (csvRow v0)) by lia.
    rewrite (IH (S n) _ j v).
    + cbn [firstn map flat_map]. now rewrite <- app_assoc.
    + exact Hj.
    + intros i row Hi. apply Hw. lia.
    + rewrite <- He. f_equal. lia.
Qed.

(** X15. With the service ready, [GrabTranscriptBase] never panics and
    makes at most two HTTP requests, the first one for the watch page of
    the video; whenever it returns an error its text result is empty,
    and it succeeds only after a second request, for a non-empty
    caption URL. *)
Theorem GrabTranscriptBase_makes_at_most_two_requests
    (W : World) (L : Lib) (videoId language : str) (o : YouTube) :
  service o = true ->
  exists t err reqs,
    GrabTranscriptBase W L videoId language o = Done (t, err) (extend o reqs)
    /\ (reqs = [] \/ reqs = [EvHttpGet (watchUrlOf videoId)]
        \/ exists u, reqs = [EvHttpGet (watchUrlOf videoId); EvHttpGet u])
    /\ (err <> None -> t = [])
    /\ (err = None ->
        exists u, u <> [] /\ reqs = [EvHttpGet (watchUrlOf videoId); EvHttpGet u]).
Proof. apply GrabTranscriptBase_shape. Qed.

Lemma GrabTranscriptBase_makes_at_most_two_requests_witness :
  exists t err reqs,
    GrabTranscriptBase (Fixture.world Fixture.allVideos None) Fixture.lib "abc" "en"
      (Fixture.after [])
    = Done (t, err) (extend (Fixture.after []) reqs)
    /\ (reqs = [] \/ reqs = [EvHttpGet (watchUrlOf "abc")]
        \/ exists u, reqs = [EvHttpGet (watchUrlOf "abc"); EvHttpGet u])
    /\ (err <> None -> t = [])
    /\ (err = None ->
        exists u, u <> [] /\ reqs = [EvHttpGet (watchUrlOf "abc"); EvHttpGet u]).
Proof.
  exact (GrabTranscriptBase_makes_at_most_two_requests
           (Fixture.world Fixture.allVideos None) Fixture.lib "abc" "en" (Fixture.after [])
           eq_refl).
Defined.

(** X16. When the watch page is served with status 200 and none of its
    scripts mentions caption tracks, [GrabTranscriptBase] reports that
    the transcript was not found, after that one request, and both
    transcript operations return the empty string with this error
    wrapped as unavailable. *)
Theorem page_without_caption_tracks_has_no_transcript
    (W : World) (L : Lib) (videoId language : str) (o : YouTube)
    (resp : api.HttpResponse) (pageContent : str) :
  service o = true ->
  httpNewRequest L (watchUrlOf videoId) = None ->
  httpDo W (List.length (calls o)) (watchUrlOf videoId) = inl resp ->
  api.StatusCode resp = 200%Z ->
  api.Body resp = inl pageContent ->
  forallb (fun scriptTag => negb (mentionsTracks scriptTag))
          (soupFindAll L pageContent "script") = true ->
  let o1 := extend o [EvHttpGet (watchUrlOf videoId)] in
  GrabTranscriptBase W L videoId language o = Done ([], Some errTranscriptNotFound) o1
  /\ GrabTranscript W L videoId language o
     = Done ([], Some (errTranscriptUnavailable errTranscriptNotFound)) o1
  /\ GrabTranscriptWithTimestamps W L videoId language o
     = Done ([], Some (errTranscriptUnavailable errTranscriptNotFound)) o1.
Proof.
  intros Hs Hn Hd Hc Hb Hm o1.
  assert (Hbase : GrabTranscriptBase W L videoId language o
                  = Done ([], Some errTranscriptNotFound) o1).
  { unfold GrabTranscriptBase, bind at 1. rewrite (initService_ready W o Hs).
    fold (watchUrlOf videoId). rewrite Hn. unfold bind, request. rewrite Hd, Hc, Hb.
    cbn [Z.eqb Pos.eqb negb].
    exact (scanScripts_no_tracks W L language _ _ Hm). }
  split; [exact Hbase|].
  unfold GrabTranscript, GrabTranscriptWithTimestamps, bind. rewrite Hbase. split; reflexivity.
Qed.

Lemma page_without_caption_tracks_has_no_transcript_witness :
  GrabTranscript EdgeFixture.world EdgeFixture.lib "abc" "en" (Fixture.after [])
  = Done ([], Some ("transcript not available. (transcript not found in watch page HTML)" : str))
         (Fixture.after [EvHttpGet Fixture.watchURL]).
Proof.
  exact (proj1 (proj2 (page_without_caption_tracks_has_no_transcript
           EdgeFixture.world EdgeFixture.lib "abc" "en" (Fixture.after []) _ _
           eq_refl eq_refl eq_refl eq_refl eq_refl eq_refl))).
Defined.

(** X17. With the service ready and the request answered,
    [GrabComments] makes that one request.  When every pointer of the
    threads is set it returns, without error, the lines of the threads
    in thread order, each thread's top-level comment directly followed
    by its replies with the reply prefix, in order: one line per
    comment and per reply; and when no top-level comment begins with
    the prefix, the lines without it are the top-level comments and the
    others the replies.  When a thread has no snippet or no top-level
    comment, or a comment or reply no snippet, it panics on the nil
    pointer and returns nothing. *)
Theorem GrabComments_lines
    (W : World) (videoId : str) (o : YouTube) (response : api.CommentThreadListResponse) :
  service o = true ->
  CommentThreadsList W (List.length (calls o)) videoId = inl response ->
  let threads := api.Threads response in
  let lines := flat_map threadLines threads in
  (forallb complete threads = true ->
   GrabComments W videoId o = Done (lines, None) (extend o [EvCommentThreadsList videoId])
   /\ List.length lines
      = (List.length threads + List.length (flat_map repliesOf threads))%nat
   /\ (forallb (fun item => negb (isReplyLine (topOf item))) threads = true ->
       filter (fun line => negb (isReplyLine line)) lines = map topOf threads
       /\ filter isReplyLine lines
          = map (fun replyText => replyPrefix ++ replyText) (flat_map repliesOf threads)))
  /\ (forallb complete threads = false ->
      GrabComments W videoId o = Panic nilDeref (extend o [EvCommentThreadsList videoId])).
Proof.
  intros Hs Hr threads lines. rewrite (GrabComments_run W videoId o response Hs Hr). split.
  - intros Hc. fold threads. rewrite (appendThreads_complete threads [] Hc).
    split; [reflexivity|]. exact (comment_lines threads).
  - intros Hc. fold threads. now rewrite (appendThreads_nil_pointer threads [] Hc).
Qed.

Lemma GrabComments_lines_witness :
  GrabComments EdgeFixture.world "abc" (Fixture.after [])
  = Done (["first" : str; "    - yes" : str; "    - no" : str; "second" : str], None)
         (extend (Fixture.after []) [EvCommentThreadsList "abc"]).
Proof.
  exact (proj1 (proj1 (GrabComments_lines EdgeFixture.world "abc" (Fixture.after []) _
                         eq_refl eq_refl) eq_refl)).
Defined.

(** X18. With only the two transcripts requested and both fetched,
    [Grab] returns the timestamped transcript in the transcript slot
    and nothing of the plain one, after four HTTP requests: the watch
    page and a caption document, twice. *)
Theorem Grab_timestamps_replace_the_transcript
    (W : World) (L : Lib) (url : str) (options : Options.t) (o : YouTube)
    (videoId playlistId : str) (o0 : YouTube) (plain : str) (o1 : YouTube)
    (stamped : str) (o2 : YouTube) :
  GetVideoOrPlaylistId W url o = Done (videoId, playlistId, None) o0 ->
  isEmpty videoId && negb (isEmpty playlistId) = false ->
  Options.Metadata options = false ->
  Options.Duration options = false ->
  Options.Comments options = false ->
  Options.Transcript options = true ->
  Options.TranscriptWithTimestamps options = true ->
  GrabTranscript W L videoId "en" o0 = Done (plain, None) o1 ->
  GrabTranscriptWithTimestamps W L videoId "en" o1 = Done (stamped, None) o2 ->
  Grab W L url options o = Done (Some (setTranscript VideoInfo.zero stamped), None) o2
  /\ exists u1 u2,
       calls o2 = calls o0 ++ [EvHttpGet (watchUrlOf videoId); EvHttpGet u1;
                               EvHttpGet (watchUrlOf videoId); EvHttpGet u2].
Proof.
  intros Hid Hpl Hm Hd Hc Ht Hw Hplain Hstamped. split.
  - unfold Grab, bind at 1. rewrite Hid, Hpl.
    unfold grabField. rewrite Hm, Hd, Hc, Ht, Hw. unfold bind, ret.
    rewrite Hplain, Hstamped. reflexivity.
  - pose proof (GetVideoOrPlaylistId_service W url o videoId playlistId o0 Hid) as Hs.
    destruct (GrabTranscriptBase_shape W L videoId "en" o0 Hs)
      as (t1 & e1 & r1 & Hb1 & _ & _ & Hn1).
    unfold GrabTranscript, bind in Hplain. rewrite Hb1 in Hplain.
    destruct e1 as [e1|]; [discriminate|]. injection Hplain as _ Ho1.
    destruct (Hn1 eq_refl) as (u1 & _ & ->).
    assert (Hs1 : service o1 = true) by (rewrite <- Ho1; exact Hs).
    destruct (GrabTranscriptBase_shape W L videoId "en" o1 Hs1)
      as (t2 & e2 & r2 & Hb2 & _ & _ & Hn2).
    unfold GrabTranscriptWithTimestamps, bind in Hstamped. rewrite Hb2 in Hstamped.
    destruct e2 as [e2|]; [discriminate|]. injection Hstamped as _ Ho2.
    destruct (Hn2 eq_refl) as (u2 & _ & ->).
    exists u1, u2. rewrite <- Ho2, <- Ho1. cbn [extend calls]. now rewrite <- app_assoc.
Qed.

Lemma Grab_timestamps_replace_the_transcript_witness :
  exists stamped o2,
    Grab (Fixture.world Fixture.allVideos None) Fixture.lib Fixture.watchURL
         (Fixture.options false false false true true "en") NewYouTube
    = Done (Some (setTranscript VideoInfo.zero stamped), None) o2
    /\ Contains stamped "[00:00:00 - 00:00:00] fine" = true.
Proof.
  do 2 eexists. split.
  - refine (proj1 (Grab_timestamps_replace_the_transcript
             (Fixture.world Fixture.allVideos None) Fixture.lib Fixture.watchURL
             (Fixture.options false false false true true "en") NewYouTube
             "abc" [] (Fixture.after [EvNewService]) _ _ _ _
             _ eq_refl eq_refl eq_refl eq_refl eq_refl eq_refl _ _)).
    + vm_compute. reflexivity.
    + vm_compute. reflexivity.
    + vm_compute. reflexivity.
  - vm_compute. reflexivity.
Defined.

Lemma SaveVideosToCSV_write_error W L filename videos o j row e :
  osCreate W (List.length (calls o)) filename = None ->
  nth_error (csvHeader :: map csvRow videos) j = Some row ->
  (forall i r, (i < j)%nat -> csvWrite W i r = None) ->
  csvWrite W j row = Some e ->
  SaveVideosToCSV W L filename videos o
  = Done (Some e)
      (extend o [EvCreate filename;
                 EvClose filename
                   (flat_map (encodeRecord (firstRuneIsSpace L))
                             (firstn j (csvHeader :: map csvRow videos)))]).
Proof.
  intros Hc Hj Hw He. unfold SaveVideosToCSV, bind, request, ret. rewrite Hc.
  destruct j as [|j].
  - cbn [nth_error] in Hj. injection Hj as <-. rewrite He.
    unfold extend. cbn [calls service normalizeRegex firstn flat_map].
    now rewrite <- app_assoc.
  - rewrite (Hw 0%nat csvHeader) by lia. cbn [nth_error] in Hj.
    destruct (nth_error videos j) as [v|] eqn:Ev.
    2:{ rewrite nth_error_map, Ev in Hj. discriminate. }
    rewrite nth_error_map, Ev in Hj. cbn [option_map] in Hj. injection Hj as <-.
    rewrite (writeVideos_fails W L e videos 1 _ j v Ev).
    + unfold extend. cbn [calls service normalizeRegex firstn flat_map].
      rewrite <- app_assoc, firstn_map. reflexivity.
    + intros i r Hi. apply Hw. lia.
    + exact He.
Qed.

(** X19. [SaveVideosToCSV] closes the file exactly once on every path
    after it was created, and never when it could not be created; it
    returns the error of the creation, or of the first row the writer
    refuses, the header counting as the first row. *)
Theorem SaveVideosToCSV_closes_the_file
    (W : World) (L : Lib) (filename : str) (videos : list VideoMeta.t) (o : YouTube) :
  (forall e, osCreate W (List.length (calls o)) filename = Some e ->
     SaveVideosToCSV W L filename videos o = Done (Some e) (extend o [EvCreate filename]))
  /\ (osCreate W (List.length (calls o)) filename = None ->
      exists err out,
        SaveVideosToCSV W L filename videos o
        = Done err (extend o [EvCreate filename; EvClose filename out]))
  /\ (forall j row e,
        osCreate W (List.length (calls o)) filename = None ->
        nth_error (csvHeader :: map csvRow videos) j = Some row ->
        (forall i r, (i < j)%nat -> csvWrite W i r = None) ->
        csvWrite W j row = Some e ->
        exists out,
          SaveVideosToCSV W L filename videos o
          = Done (Some e) (extend o [EvCreate filename; EvClose filename out])).
Proof.
  split; [|split].
  - intros e Hc. exact (SaveVideosToCSV_create_error W L filename videos o e Hc).
  - intros Hc. unfold SaveVideosToCSV, bind, request, ret. rewrite Hc.
    destruct (match csvWrite W 0 csvHeader with
              | Some e => ([], Some e)
              | None => writeVideos W L 1 (encodeRecord (firstRuneIsSpace L) csvHeader) videos
              end) as [out err].
    exists err, out. unfold extend. cbn [calls service normalizeRegex].
    now rewrite <- app_assoc.
  - intros j row e Hc Hj Hw He. eexists.
    exact (SaveVideosToCSV_write_error W L filename videos o j row e Hc Hj Hw He).
Qed.

Lemma SaveVideosToCSV_closes_the_file_witness :
  exists out,
    SaveVideosToCSV EdgeFixture.world Fixture.lib "out.csv" EdgeFixture.videos (Fixture.after [])
    = Done (Some ("disk full" : str))
        (extend (Fixture.after []) [EvCreate "out.csv"; EvClose "out.csv" out]).
Proof.
  refine (proj2 (proj2 (SaveVideosToCSV_closes_the_file EdgeFixture.world Fixture.lib
            "out.csv" EdgeFixture.videos (Fixture.after [])))
            2%nat ["b2" : str; "Second" : str] "disk full" eq_refl eq_refl _ eq_refl).
  intros [|[|i]] r Hi; [reflexivity|reflexivity|lia].
Defined.

(** ** The REST handlers *)

Lemma service_extend o reqs : service (extend o reqs) = service o.
Proof. reflexivity. Qed.

Lemma GrabTranscript_total W L videoId language o :
  service o = true ->
  exists t err reqs,
    GrabTranscript W L videoId language o = Done (t, err) (extend o reqs)
    /\ (err <> None -> t = []).
Proof.
  intros Hs. destruct (GrabTranscriptBase_shape W L videoId language o Hs)
    as (t & err & reqs & Hb & _ & _ & _).
  unfold GrabTranscript, bind. rewrite Hb. destruct err as [e|].
  - exists [], (Some (errTranscriptUnavailable e)), reqs. split; [reflexivity|]. reflexivity.
  - eexists _, None, reqs. split; [reflexivity|]. intros H. now contradiction H.
Qed.

Lemma GrabComments_total W videoId o :
  service o = true ->
  threadsComplete W videoId ->
  exists c err,
    GrabComments W videoId o = Done (c, err) (extend o [EvCommentThreadsList videoId]).
Proof.
  intros Hs Hc. unfold GrabComments, bind at 1. rewrite (initService_ready W o Hs).
  unfold bind, request, ret.
  destruct (CommentThreadsList W (List.length (calls o)) videoId) as [response|e] eqn:Er;
    [|do 2 eexists; reflexivity].
  rewrite (appendThreads_complete _ [] (Hc _ _ Er)). do 2 eexists. reflexivity.
Qed.

Lemma processPattern_shape R request transcript errs o j :
  exists r errs' chat,
    processPattern R request transcript errs (withJournal o j)
    = Returned (r, errs ++ errs') (withJournal o (j ++ chat))
    /\ (isEmpty (YouTubeRequest.Pattern request) = true \/ isEmpty transcript = true ->
        chat = [] /\ r = None /\ errs' = [])
    /\ (r <> None ->
        chat = [EvGetChatter (YouTubeRequest.Model request);
                EvSend (YouTubeRequest.Model request) (YouTubeRequest.Pattern request)
                       transcript]
        /\ errs' = [])
    /\ (errs' = [] \/ exists msg, errs' = [("pattern_error" : str, msg)]).
Proof.
  unfold processPattern.
  destruct (isEmpty (YouTubeRequest.Pattern request)) eqn:Ep;
    [|destruct (isEmpty transcript) eqn:Et]; cbn [negb andb].
  1,2: exists None, [], []; unfold pret; rewrite !app_nil_r;
       split; [reflexivity|]; split; [auto|]; split; [congruence|now left].
  unfold pbind at 1, ask at 1. cbn [engine journal withJournal].
  destruct (GetChatter R (List.length j) (YouTubeRequest.Model request)) as [err|].
  { eexists None, [_], [_]. unfold pret. split; [reflexivity|].
    split; [intros [H|H]; discriminate|]. split; [congruence|]. right. eexists. reflexivity. }
  unfold pbind, ask. cbn [engine journal].
  destruct (Send R _ _ _ _) as [[[content|]|]|err]; unfold pret.
  - eexists (Some content), [], [_; _]. rewrite app_nil_r, <- app_assoc.
    split; [reflexivity|]. split; [intros [H|H]; discriminate|]. split; [now split|now left].
  - eexists None, [_], [_; _]. rewrite <- app_assoc.
    split; [reflexivity|]. split; [intros [H|H]; discriminate|]. split; [congruence|].
    right. eexists. reflexivity.
  - eexists None, [], [_; _]. rewrite app_nil_r, <- app_assoc.
    split; [reflexivity|]. split; [intros [H|H]; discriminate|]. split; [congruence|now left].
  - eexists None, [_], [_; _]. rewrite <- app_assoc.
    split; [reflexivity|]. split; [intros [H|H]; discriminate|]. split; [congruence|].
    right. eexists. reflexivity.
Qed.

Lemma presentText_none s : presentText s = None -> s = [].
Proof. now destruct s. Qed.

Lemma HandleYouTube_resolved W L R request p videoId playlistId o0 :
  GetVideoOrPlaylistId W (YouTubeRequest.URL request) (engine p)
  = Done (videoId, playlistId, None) o0 ->
  YouTubeRequest.WithMetadata request = false ->
  (YouTubeRequest.WithComments request = true -> threadsComplete W videoId) ->
  exists t err reqs more result chat,
    GrabTranscript W L videoId (YouTubeRequest.Language (withDefaults request)) o0
    = Done (t, err) (extend o0 reqs)
    /\ HandleYouTube W L R (inl request) p
       = Returned {| status := StatusOK; body := ResultBody result |}
                  (withJournal (extend o0 (reqs ++ more)) (journal p ++ chat))
    /\ YouTubeResult.transcript result = presentText t
    /\ (YouTubeResult.pattern_result result <> None ->
        chat = [EvGetChatter (YouTubeRequest.Model (withDefaults request));
                EvSend (YouTubeRequest.Model (withDefaults request))
                       (YouTubeRequest.Pattern request) t])
    /\ (isEmpty (YouTubeRequest.Pattern request) = true \/ t = [] ->
        chat = [] /\ YouTubeResult.pattern_result result = None)
    /\ YouTubeResult.metadata result = None
    /\ (YouTubeRequest.WithComments request = false ->
        more = [] /\ YouTubeResult.comments result = None).
Proof.
  intros Hid Hm Hcomp.
  pose proof (GetVideoOrPlaylistId_service W _ _ _ _ _ Hid) as Hs.
  destruct (GrabTranscript_total W L videoId
              (YouTubeRequest.Language (withDefaults request)) o0 Hs)
    as (t & err & reqs & Ht & Hterr).
  unfold HandleYouTube. unfold pbind at 1, lift at 1.
  cbn [withDefaults YouTubeRequest.URL]. rewrite Hid.
  unfold grabTranscript. unfold pbind at 1. unfold pbind at 1, lift at 1.
  cbn [engine journal]. rewrite Ht.
  change {| engine := extend o0 reqs; journal := journal p |}
    with (withJournal (extend o0 reqs) (journal p)).
  set (errs0 := match err with
                | Some e => [("transcript_error" : str, "Failed to get transcript: " ++ e)]
                | None => []
                end).
  assert (Hstep : exists rt,
             (match err with
              | Some err0 =>
                  pret (t, [], [("transcript_error" : str, "Failed to get transcript: " ++ err0)])
              | None => pret (t, t, [])
              end : P HandlerEvent _) (withJournal (extend o0 reqs) (journal p))
             = Returned (t, rt, errs0) (withJournal (extend o0 reqs) (journal p))
             /\ presentText rt = presentText t).
  { destruct err as [e|].
    - exists []. split; [reflexivity|]. now rewrite (Hterr ltac:(discriminate)).
    - exists t. split; reflexivity. }
  destruct Hstep as (rt & -> & Hrt).
  destruct (processPattern_shape R (withDefaults request) t errs0 (extend o0 reqs) (journal p))
    as (r & errs' & chat & Hp & Hskip & Huse & _).
  unfold pbind at 1. rewrite Hp.
  cbn [withDefaults YouTubeRequest.WithComments YouTubeRequest.WithMetadata
       YouTubeRequest.Pattern] in *.
  rewrite Hm.
  destruct (YouTubeRequest.WithComments request) eqn:Ec.
  - destruct (GrabComments_total W videoId (extend o0 reqs) Hs (Hcomp eq_refl)) as (c & cerr & Hc).
    unfold pbind at 1. unfold pbind at 1, lift at 1. cbn [engine journal withJournal].
    rewrite Hc. rewrite extend_extend.
    exists t, err, reqs, [EvCommentThreadsList videoId].
    destruct cerr as [ce|]; unfold pbind, pret; eexists; exists chat;
      (split; [reflexivity|]); (split; [reflexivity|]);
      cbn [YouTubeResult.transcript YouTubeResult.pattern_result YouTubeResult.metadata
           YouTubeResult.comments];
      (split; [exact Hrt|]); (split; [intros Hr; exact (proj1 (Huse Hr))|]);
      (split; [|split; [reflexivity|discriminate]]);
      intros [H|H]; [destruct (Hskip (or_introl H)) as (-> & -> & _); now split
                    |subst t; destruct (Hskip (or_intror eq_refl)) as (-> & -> & _); now split
                    |destruct (Hskip (or_introl H)) as (-> & -> & _); now split
                    |subst t; destruct (Hskip (or_intror eq_refl)) as (-> & -> & _); now split].
  - unfold pbind, pret. exists t, err, reqs, []. eexists. exists chat.
    rewrite app_nil_r.
    split; [reflexivity|]. split; [reflexivity|].
    cbn [YouTubeResult.transcript YouTubeResult.pattern_result YouTubeResult.metadata
         YouTubeResult.comments].
    split; [exact Hrt|]. split; [intros Hr; exact (proj1 (Huse Hr))|].
    split; [|split; [reflexivity|now split]].
    intros [H|H]; [destruct (Hskip (or_introl H)) as (-> & -> & _); now split
                  |subst t; destruct (Hskip (or_intror eq_refl)) as (-> & -> & _); now split].
Qed.

Lemma GrabTranscript_first_request W L videoId language o :
  service o = true ->
  httpNewRequest L (watchUrlOf videoId) = None ->
  exists t err rest,
    GrabTranscript W L videoId language o
    = Done (t, err) (extend o (EvHttpGet (watchUrlOf videoId) :: rest)).
Proof.
  intros Hs Hn.
  assert (Hb : exists t err rest,
             GrabTranscriptBase W L videoId language o
             = Done (t, err) (extend o (EvHttpGet (watchUrlOf videoId) :: rest))).
  { unfold GrabTranscriptBase, bind at 1. rewrite (initService_ready W o Hs).
    fold (watchUrlOf videoId). rewrite Hn. unfold bind, request.
    change {| service := service o; normalizeRegex := normalizeRegex o;
              calls := calls o ++ [EvHttpGet (watchUrlOf videoId)] |}
      with (extend o [EvHttpGet (watchUrlOf videoId)]).
    destruct (httpDo W (List.length (calls o)) (watchUrlOf videoId)) as [resp|e];
      [|do 3 eexists; reflexivity].
    destruct (negb (Z.eqb (api.StatusCode resp) 200)); [do 3 eexists; reflexivity|].
    destruct (api.Body resp) as [pageContent|e]; [|do 3 eexists; reflexivity].
    destruct (scanScripts_shape W L language (soupFindAll L pageContent "script")
                (extend o [EvHttpGet (watchUrlOf videoId)]))
      as (t & err & reqs & -> & _).
    rewrite extend_extend. do 3 eexists. reflexivity. }
  destruct Hb as (t & err & rest & Hb). unfold GrabTranscript, bind. rewrite Hb.
  destruct err; do 3 eexists; reflexivity.
Qed.

Lemma GrabTranscript_after_init W L videoId language o o1 :
  initService W o = Done None o1 ->
  GrabTranscript W L videoId language o = GrabTranscript W L videoId language o1.
Proof.
  intros Hi. pose proof (initService_result W o None o1 Hi eq_refl) as Hs.
  unfold GrabTranscript, GrabTranscriptBase, bind.
  now rewrite Hi, (initService_ready W o1 Hs).
Qed.

Lemma watch_url_resolves W videoId o o1 :
  initService W o = Done None o1 ->
  forallb idChar videoId = true -> videoId <> [] ->
  exists playlistId,
    GetVideoOrPlaylistId W ("https://www.youtube.com/watch?v=" ++ videoId) o
    = Done (videoId, playlistId, None) o1.
Proof.
  intros Hi Hid Hne. rewrite (GetVideoOrPlaylistId_run W _ o o1 Hi).
  pose proof (videoPattern_watch "https://www." videoId []
                ltac:(cbn; tauto) Hid eq_refl eq_refl) as Hv.
  rewrite app_nil_r in Hv.
  change (("https://www." : str) ++ ("youtube.com/watch?v=" : str) ++ videoId)
    with (("https://www.youtube.com/watch?v=" : str) ++ videoId) in Hv.
  rewrite Hv. cbn [nth]. eexists.
  destruct videoId; [congruence|reflexivity].
Qed.

(** X20. Once the URL resolved, [HandleYouTube] without metadata
    requested, and with comments either not requested or served in
    complete threads only, does not panic and answers with status 200
    whatever fails afterwards; the transcript it shows is the one
    fetched in the requested language ([en] when none is given); the
    chat is asked only for a pattern and a non-empty transcript, and a
    pattern result comes only after both chat requests; comments come
    only when requested. *)
Theorem HandleYouTube_answers_ok_once_the_url_resolves
    (W : World) (L : Lib) (R : Registry) (request : YouTubeRequest.t)
    (p : Process HandlerEvent) (videoId playlistId : str) (o0 : YouTube) :
  GetVideoOrPlaylistId W (YouTubeRequest.URL request) (engine p)
  = Done (videoId, playlistId, None) o0 ->
  YouTubeRequest.WithMetadata request = false ->
  (YouTubeRequest.WithComments request = true -> threadsComplete W videoId) ->
  exists t err reqs more result chat,
    GrabTranscript W L videoId
      (if isEmpty (YouTubeRequest.Language request) then "en"
       else YouTubeRequest.Language request) o0
    = Done (t, err) (extend o0 reqs)
    /\ HandleYouTube W L R (inl request) p
       = Returned {| status := StatusOK; body := ResultBody result |}
                  (withJournal (extend o0 (reqs ++ more)) (journal p ++ chat))
    /\ YouTubeResult.transcript result = presentText t
    /\ (YouTubeResult.pattern_result result <> None ->
        exists model, chat = [EvGetChatter model;
                              EvSend model (YouTubeRequest.Pattern request) t])
    /\ (isEmpty (YouTubeRequest.Pattern request) = true \/ t = [] ->
        chat = [] /\ YouTubeResult.pattern_result result = None)
    /\ YouTubeResult.metadata result = None
    /\ (YouTubeRequest.WithComments request = false ->
        more = [] /\ YouTubeResult.comments result = None).
Proof.
  intros Hid Hm Hcomp.
  destruct (HandleYouTube_resolved W L R request p videoId playlistId o0 Hid Hm Hcomp)
    as (t & err & reqs & more & result & chat & Ht & Hrun & Htr & Hpat & Hskip & Hmd & Hc).
  exists t, err, reqs, more, result, chat.
  split; [exact Ht|]. split; [exact Hrun|]. split; [exact Htr|].
  split; [intros Hr; eexists; exact (Hpat Hr)|].
  split; [exact Hskip|]. split; [exact Hmd|exact Hc].
Qed.

Lemma HandleYouTube_answers_ok_once_the_url_resolves_witness :
  exists result p',
    HandleYouTube (Fixture.world Fixture.allVideos None) Fixture.lib HandlerFixture.registry
      (inl (HandlerFixture.request Fixture.watchURL "summarize" true false))
      HandlerFixture.start
    = Returned {| status := StatusOK; body := ResultBody result |} p'.
Proof.
  destruct (HandleYouTube_answers_ok_once_the_url_resolves
              (Fixture.world Fixture.allVideos None) Fixture.lib HandlerFixture.registry
              (HandlerFixture.request Fixture.watchURL "summarize" true false)
              HandlerFixture.start "abc" [] (Fixture.after [EvNewService])
              ltac:(vm_compute; reflexivity) eq_refl
              (fun _ n response H =>
                 match H in _ = r
                       return match r with
                              | inl response => forallb complete (api.Threads response) = true
                              | inr _ => True
                              end
                 with eq_refl => eq_refl end))
    as (t & err & reqs & more & result & chat & _ & Hrun & _).
  exists result. eexists. exact Hrun.
Defined.

(** X21. [HandleYouTube] is best effort: when the transcript cannot be
    fetched while the comments and the metadata can, it answers with
    status 200, the comments, the metadata and the transcript error in
    the error map, without transcript and without asking the chat, even
    for a request with a pattern. *)
Theorem HandleYouTube_keeps_what_it_could_fetch
    (W : World) (L : Lib) (R : Registry) (request : YouTubeRequest.t)
    (p : Process HandlerEvent) (videoId playlistId : str) (o0 o1 o2 o3 : YouTube)
    (t : str) (e : error) (c : list str) (m : VideoMetadata) :
  GetVideoOrPlaylistId W (YouTubeRequest.URL request) (engine p)
  = Done (videoId, playlistId, None) o0 ->
  GrabTranscript W L videoId
    (if isEmpty (YouTubeRequest.Language request) then "en"
     else YouTubeRequest.Language request) o0
  = Done (t, Some e) o1 ->
  YouTubeRequest.WithComments request = true ->
  GrabComments W videoId o1 = Done (c, None) o2 ->
  YouTubeRequest.WithMetadata request = true ->
  GrabMetadata W videoId o2 = Done (Some m, None) o3 ->
  HandleYouTube W L R (inl request) p
  = Returned
      {| status := StatusOK;
         body := ResultBody
           {| YouTubeResult.transcript := None;
              YouTubeResult.pattern_result := None;
              YouTubeResult.comments := presentList c;
              YouTubeResult.metadata := Some m;
              YouTubeResult.errors :=
                [("transcript_error" : str, "Failed to get transcript: " ++ e)] |} |}
      (withJournal o3 (journal p)).
Proof.
  intros Hid Ht Hwc Hc Hwm Hm.
  pose proof (GrabTranscript_error W L videoId _ o0 t e o1 Ht) as ->.
  unfold HandleYouTube. unfold pbind at 1, lift at 1.
  cbn [withDefaults YouTubeRequest.URL YouTubeRequest.Language]. rewrite Hid.
  unfold grabTranscript. unfold pbind at 1. unfold pbind at 1, lift at 1.
  cbn [engine journal]. rewrite Ht.
  unfold pret at 1. unfold pbind at 1, processPattern.
  cbn [isEmpty negb andb]. rewrite andb_false_r. unfold pret at 1.
  cbn [withDefaults YouTubeRequest.WithComments YouTubeRequest.WithMetadata]. rewrite Hwc, Hwm.
  unfold pbind at 1. unfold pbind at 1, lift at 1. cbn [engine journal]. rewrite Hc.
  unfold pret at 1. unfold pbind at 1. unfold pbind at 1, lift at 1.
  cbn [engine journal]. rewrite Hm. reflexivity.
Qed.

Lemma HandleYouTube_keeps_what_it_could_fetch_witness :
  HandleYouTube (Fixture.world Fixture.allVideos (Some 1%nat)) Fixture.lib
    HandlerFixture.registry
    (inl (HandlerFixture.request Fixture.watchURL "summarize" true true))
    HandlerFixture.start
  = Returned
      {| status := StatusOK;
         body := ResultBody
           {| YouTubeResult.transcript := None;
              YouTubeResult.pattern_result := None;
              YouTubeResult.comments := Some ["first" : str; "    - reply" : str];
              YouTubeResult.metadata := Some Fixture.metadata;
              YouTubeResult.errors :=
                [("transcript_error" : str,
                  "Failed to get transcript: transcript not available. (error fetching YouTube page: connection reset)" : str)] |} |}
      (withJournal
         (Fixture.after [EvNewService; EvHttpGet Fixture.watchURL; EvCommentThreadsList "abc";
                         EvVideosList ["snippet" : str; "statistics" : str] "abc"])
         []).
Proof.
  exact (HandleYouTube_keeps_what_it_could_fetch
           (Fixture.world Fixture.allVideos (Some 1%nat)) Fixture.lib HandlerFixture.registry
           (HandlerFixture.request Fixture.watchURL "summarize" true true)
           HandlerFixture.start "abc" [] (Fixture.after [EvNewService]) _ _ _
           [] _ ["first" : str; "    - reply" : str] Fixture.metadata
           ltac:(vm_compute; reflexivity) ltac:(vm_compute; reflexivity) eq_refl
           ltac:(vm_compute; reflexivity) eq_refl ltac:(vm_compute; reflexivity)).
Defined.

(** X22. [HandleYouTube] answers with status 400 and fetches nothing
    when the body cannot be bound and when the URL does not resolve;
    a failure to create the service is reported in the same way, as an
    invalid URL. *)
Theorem HandleYouTube_refuses_before_any_fetch
    (W : World) (L : Lib) (R : Registry) (p : Process HandlerEvent) :
  (forall err,
     HandleYouTube W L R (inr err) p
     = Returned {| status := StatusBadRequest;
                   body := ErrorBody ("Invalid request format: " ++ err) |} p)
  /\ (forall request e o1,
        initService W (engine p) = Done (Some e) o1 ->
        HandleYouTube W L R (inl request) p
        = Returned {| status := StatusBadRequest;
                      body := ErrorBody ("Invalid YouTube URL: " ++ e) |}
                   (withJournal o1 (journal p)))
  /\ (forall request o1,
        initService W (engine p) = Done None o1 ->
        Contains (YouTubeRequest.URL request) "youtube.com/" = false ->
        Contains (YouTubeRequest.URL request) "youtu.be/" = false ->
        FindStringSubmatch playlistPattern 1 (YouTubeRequest.URL request) = [] ->
        HandleYouTube W L R (inl request) p
        = Returned {| status := StatusBadRequest;
                      body := ErrorBody ("Invalid YouTube URL: "
                                         ++ errInvalidURL (YouTubeRequest.URL request)) |}
                   (withJournal o1 (journal p))).
Proof.
  split; [reflexivity|]. split.
  - intros request e o1 Hi. unfold HandleYouTube, pbind, lift.
    cbn [withDefaults YouTubeRequest.URL].
    unfold GetVideoOrPlaylistId, bind. rewrite Hi. reflexivity.
  - intros request o1 Hi H1 H2 Hl. unfold HandleYouTube, pbind, lift.
    cbn [withDefaults YouTubeRequest.URL].
    rewrite (GetVideoOrPlaylistId_run W _ _ o1 Hi).
    rewrite (videoPattern_needs_host _ H1 H2), Hl. reflexivity.
Qed.

Lemma HandleYouTube_refuses_before_any_fetch_witness :
  HandleYouTube (Fixture.world Fixture.allVideos None) Fixture.lib HandlerFixture.registry
    (inl (HandlerFixture.request "https://vimeo.com/watch?v=abc" "summarize" true true))
    HandlerFixture.start
  = Returned
      {| status := StatusBadRequest;
         body := ErrorBody ("Invalid YouTube URL: invalid YouTube URL, can't get video or playlist ID: 'https://vimeo.com/watch?v=abc'" : str) |}
      (withJournal (Fixture.after [EvNewService]) []).
Proof.
  exact (proj2 (proj2 (HandleYouTube_refuses_before_any_fetch
           (Fixture.world Fixture.allVideos None) Fixture.lib HandlerFixture.registry
           HandlerFixture.start))
           (HandlerFixture.request "https://vimeo.com/watch?v=abc" "summarize" true true)
           (Fixture.after [EvNewService]) eq_refl eq_refl eq_refl eq_refl).
Defined.

(** X23. Unlike the aggregate, [HandleYouTube] does not refuse a
    playlist URL: it goes on with the empty video identifier and asks
    for the watch page without identifier; without metadata requested,
    and with comments either not requested or served in complete
    threads only, it answers with status 200. *)
Theorem HandleYouTube_takes_a_playlist_url
    (W : World) (L : Lib) (R : Registry) (request : YouTubeRequest.t)
    (p : Process HandlerEvent) (o1 : YouTube) (prefix Y rest : str) :
  initService W (engine p) = Done None o1 ->
  In prefix videoPrefixes ->
  forallb idChar Y = true -> Y <> [] ->
  forallb notSlash rest = true -> startsOutside idChar rest = true ->
  Contains (Y ++ rest) "v=" = false ->
  YouTubeRequest.URL request = prefix ++ "youtube.com/playlist?list=" ++ Y ++ rest ->
  YouTubeRequest.WithMetadata request = false ->
  (YouTubeRequest.WithComments request = true -> threadsComplete W []) ->
  httpNewRequest L (watchUrlOf []) = None ->
  exists result later chat,
    HandleYouTube W L R (inl request) p
    = Returned {| status := StatusOK; body := ResultBody result |}
               (withJournal (extend o1 (EvHttpGet (watchUrlOf []) :: later))
                            (journal p ++ chat)).
Proof.
  intros Hi Hp HY HYne Hrest Hout Hv Hurl Hm Hcomp Hn.
  assert (Hid : GetVideoOrPlaylistId W (YouTubeRequest.URL request) (engine p)
                = Done ([], Y, None) o1).
  { rewrite Hurl, (GetVideoOrPlaylistId_run W _ _ o1 Hi).
    rewrite (video_not_in_playlist_url prefix Y rest Hp HY Hrest Hv).
    rewrite (playlist_in_playlist_url prefix Y rest Hp HYne HY Hout). cbn [nth].
    destruct Y; [congruence|reflexivity]. }
  destruct (HandleYouTube_resolved W L R request p [] Y o1 Hid Hm Hcomp)
    as (t & err & reqs & more & result & chat & Ht & Hrun & _).
  pose proof (GetVideoOrPlaylistId_service W _ _ _ _ _ Hid) as Hs.
  destruct (GrabTranscript_first_request W L []
              (YouTubeRequest.Language (withDefaults request)) o1 Hs Hn)
    as (t' & err' & later & Ht').
  rewrite Ht in Ht'. injection Ht' as _ _ Hcalls.
  apply app_inv_head in Hcalls. subst reqs.
  exists result, (later ++ more), chat. exact Hrun.
Qed.

Lemma HandleYouTube_takes_a_playlist_url_witness :
  exists result later chat,
    HandleYouTube (Fixture.world Fixture.allVideos None) Fixture.lib HandlerFixture.registry
      (inl (HandlerFixture.request "https://www.youtube.com/playlist?list=PL1" [] false false))
      HandlerFixture.start
    = Returned {| status := StatusOK; body := ResultBody result |}
               (withJournal (extend (Fixture.after [EvNewService])
                                    (EvHttpGet (watchUrlOf []) :: later))
                            ([] ++ chat)).
Proof.
  refine (HandleYouTube_takes_a_playlist_url
            (Fixture.world Fixture.allVideos None) Fixture.lib HandlerFixture.registry
            (HandlerFixture.request "https://www.youtube.com/playlist?list=PL1" [] false false)
            HandlerFixture.start (Fixture.after [EvNewService]) "https://www." "PL1" []
            eq_refl _ eq_refl _ eq_refl eq_refl eq_refl eq_refl eq_refl _ eq_refl).
  - simpl. tauto.
  - discriminate.
  - discriminate.
Defined.

Lemma pbind_lift {E A B} (m : M A) (k : A -> P E B) (p : Process E) a o :
  m (engine p) = Done a o -> pbind (lift m) k p = k a (withJournal o (journal p)).
Proof. intros H. unfold pbind, lift. now rewrite H. Qed.

Lemma pbind_returned {E A B} (m : P E A) (k : A -> P E B) (p : Process E) a q :
  m p = Returned a q -> pbind m k p = k a q.
Proof. intros H. unfold pbind. now rewrite H. Qed.

Lemma pbind_ext {E A B} (m m' : P E A) (k k' : A -> P E B) (p p' : Process E) :
  m p = m' p' -> (forall a q, k a q = k' a q) -> pbind m k p = pbind m' k' p'.
Proof. intros Hm Hk. unfold pbind. rewrite Hm. destruct (m' p'); [apply Hk|reflexivity]. Qed.

Lemma grabTranscript_after_init W L videoId language (p : Process HandlerEvent) o1 :
  initService W (engine p) = Done None o1 ->
  grabTranscript W L videoId language p
  = grabTranscript W L videoId language (withJournal o1 (journal p)).
Proof.
  intros Hi. unfold grabTranscript, pbind, lift. cbn [engine journal withJournal].
  now rewrite (GrabTranscript_after_init W L videoId language (engine p) o1 Hi).
Qed.

Lemma processPattern_fields R r1 r2 transcript errs :
  YouTubeRequest.Pattern r1 = YouTubeRequest.Pattern r2 ->
  (isEmpty (YouTubeRequest.Pattern r1) = false ->
   YouTubeRequest.Model r1 = YouTubeRequest.Model r2) ->
  processPattern R r1 transcript errs = processPattern R r2 transcript errs.
Proof.
  intros Hp Hm. unfold processPattern. rewrite <- Hp.
  destruct (isEmpty (YouTubeRequest.Pattern r1)); [reflexivity|].
  now rewrite <- (Hm eq_refl).
Qed.

(** X24. [HandleCanonicalYouTube] resolves no URL.  For a video
    identifier of identifier characters and a service that can be
    created, it answers as [HandleYouTube] does for the watch URL of
    the video with the same pattern and nothing else set; when the
    service cannot be created it still answers with status 200 and a
    transcript error, where [HandleYouTube] answers with status 400. *)
Theorem HandleCanonicalYouTube_is_the_post_for_the_watch_url
    (W : World) (L : Lib) (R : Registry) (videoId pattern : str)
    (p : Process HandlerEvent) :
  forallb idChar videoId = true -> videoId <> [] ->
  let request :=
    {| YouTubeRequest.URL := "https://www.youtube.com/watch?v=" ++ videoId;
       YouTubeRequest.Pattern := pattern; YouTubeRequest.Language := [];
       YouTubeRequest.WithComments := false; YouTubeRequest.WithMetadata := false;
       YouTubeRequest.Model := [] |} in
  (forall o1, initService W (engine p) = Done None o1 ->
     HandleCanonicalYouTube W L R videoId pattern p = HandleYouTube W L R (inl request) p)
  /\ (forall e o1, initService W (engine p) = Done (Some e) o1 ->
        HandleCanonicalYouTube W L R videoId pattern p
        = Returned
            {| status := StatusOK;
               body := ResultBody
                 {| YouTubeResult.transcript := None;
                    YouTubeResult.pattern_result := None;
                    YouTubeResult.comments := None;
                    YouTubeResult.metadata := None;
                    YouTubeResult.errors :=
                      [("transcript_error" : str,
                        "Failed to get transcript: "
                        ++ errTranscriptUnavailable
                             ("error initializing YouTube service: " ++ e))] |} |}
            (withJournal o1 (journal p))
        /\ HandleYouTube W L R (inl request) p
           = Returned {| status := StatusBadRequest;
                         body := ErrorBody ("Invalid YouTube URL: " ++ e) |}
                      (withJournal o1 (journal p))).
Proof.
  intros Hid Hne request. split.
  - intros o1 Hi. destruct (watch_url_resolves W videoId (engine p) o1 Hi Hid Hne)
      as (playlistId & Hrun).
    unfold HandleYouTube, HandleCanonicalYouTube.
    cbn [withDefaults request YouTubeRequest.URL YouTubeRequest.Language
         YouTubeRequest.WithComments YouTubeRequest.WithMetadata isEmpty].
    rewrite (pbind_lift _ _ p _ _ Hrun).
    apply pbind_ext; [exact (grabTranscript_after_init W L videoId "en" p o1 Hi)|].
    intros [[transcript responseTranscript] errorResponse] q.
    apply pbind_ext; [|intros [responsePattern errs] q'; reflexivity].
    rewrite (processPattern_fields R _ (withDefaults request) transcript errorResponse);
      [reflexivity|reflexivity|].
    cbn [withDefaults request YouTubeRequest.Pattern YouTubeRequest.Model isEmpty].
    intros ->. reflexivity.
  - intros e o1 Hi. split.
    + assert (Hg : grabTranscript W L videoId "en" p
                   = Returned ([], [], [("transcript_error" : str,
                                         "Failed to get transcript: "
                                         ++ errTranscriptUnavailable
                                              ("error initializing YouTube service: " ++ e))])
                              (withJournal o1 (journal p))).
      { unfold grabTranscript, pbind, lift, GrabTranscript, GrabTranscriptBase, bind.
        rewrite Hi. reflexivity. }
      unfold HandleCanonicalYouTube. cbn [YouTubeRequest.Language].
      rewrite (pbind_returned _ _ p _ _ Hg).
      unfold processPattern. cbn [isEmpty negb andb]. rewrite andb_false_r. reflexivity.
    + unfold HandleYouTube, pbind, lift. cbn [withDefaults request YouTubeRequest.URL].
      unfold GetVideoOrPlaylistId, bind. rewrite Hi. reflexivity.
Qed.

Lemma HandleCanonicalYouTube_is_the_post_for_the_watch_url_witness :
  HandleCanonicalYouTube (Fixture.world Fixture.allVideos None) Fixture.lib
    HandlerFixture.registry "abc" "summarize" HandlerFixture.start
  = HandleYouTube (Fixture.world Fixture.allVideos None) Fixture.lib HandlerFixture.registry
      (inl (HandlerFixture.request Fixture.watchURL "summarize" false false))
      HandlerFixture.start.
Proof.
  exact (proj1 (HandleCanonicalYouTube_is_the_post_for_the_watch_url
                  (Fixture.world Fixture.allVideos None) Fixture.lib HandlerFixture.registry
                  "abc" "summarize" HandlerFixture.start eq_refl ltac:(discriminate))
               (Fixture.after [EvNewService]) eq_refl).
Defined.
